(** * OWENSQUOTE: interview store, quote provider, email dispatcher,
      configuration, orchestrator, scraper

    A shallow embedding of the JavaScript sources of the quote bot and the
    properties its specification states about them.

    Conventions of the embedding.
    - A JavaScript string is the list of its UTF-16 code units ([Js.str]);
      a value that may be [undefined] or [null] is an [option].
    - An [async] method is a computation in the monad [M]: it threads the
      object it is a method of, records the calls that leave the process
      (file reads, provider requests, SMTP traffic) and either returns or
      throws.  What the outside answers is read from a world record.
    - [try { ... } catch (error) { logger.error(...); throw error; }] rethrows
      what it caught, so it is the computation it wraps.  Calls to [logger]
      write log lines only and are left out. *)

From Stdlib Require Import Ascii String DecimalString.
From Stdlib Require Import Bool Arith NArith ZArith Lia List.
From Stdlib Require DecimalFacts DecimalNat SpecFloat.
Import ListNotations.

Set Implicit Arguments.

(* ================================================================= *)
(** ** JavaScript strings *)

Module Js.

(** A UTF-16 code unit. *)
Definition char := N.
Definition str := list char.

(** A literal written in ASCII. *)
Fixpoint lit (s : string) : str :=
  match s with
  | EmptyString => []
  | String a s' => N_of_ascii a :: lit s'
  end.

Definition LF : char := 10%N.
Definition SPACE : char := 32%N.
Definition DQUOTE : char := 34%N.
Definition SQUOTE : char := 39%N.
Definition BACKTICK : char := 96%N.
Definition DASH : char := 45%N.

(** The class [\s] of a regular expression, which is also what [trim]
    removes: WhiteSpace and LineTerminator of ECMAScript. *)
Definition isWhiteSpace (c : char) : bool :=
  ((9 <=? c) && (c <=? 13)                (* TAB LF VT FF CR *)
   || (c =? 32) || (c =? 160)             (* SP, NBSP *)
   || (c =? 5760)                         (* U+1680 *)
   || ((8192 <=? c) && (c <=? 8202))      (* U+2000 .. U+200A *)
   || (c =? 8232) || (c =? 8233)          (* LS, PS *)
   || (c =? 8239) || (c =? 8287)          (* U+202F, U+205F *)
   || (c =? 12288) || (c =? 65279))%N.    (* U+3000, U+FEFF *)

(** [!s] is false exactly for a non-empty string. *)
Definition truthy (v : option str) : bool :=
  match v with
  | Some (_ :: _) => true
  | _ => false
  end.

Fixpoint trimStart (s : str) : str :=
  match s with
  | [] => []
  | c :: s' => if isWhiteSpace c then trimStart s' else s
  end.

Definition trimEnd (s : str) : str := rev (trimStart (rev s)).

(** [s.trim()] *)
Definition trim (s : str) : str := trimEnd (trimStart s).

(** [s.replace(/\s+/g, ' ')]: every maximal run of white space becomes one
    space.  [inRun] tells that the previous code unit was white space, so
    the run has been replaced already. *)
Fixpoint collapseFrom (inRun : bool) (s : str) : str :=
  match s with
  | [] => []
  | c :: s' =>
      if isWhiteSpace c
      then (if inRun then collapseFrom true s' else SPACE :: collapseFrom true s')
      else c :: collapseFrom false s'
  end.

Definition replaceWhitespaceRuns (s : str) : str := collapseFrom false s.

Fixpoint startsWith (p s : str) : bool :=
  match p, s with
  | [], _ => true
  | _ :: _, [] => false
  | a :: p', b :: s' => (a =? b)%N && startsWith p' s'
  end.

(** [s.replace(pat, rep)] with a string pattern: the first occurrence of
    [pat], wherever it is, is replaced; [rep] holds no [$]. *)
Fixpoint replaceFirst (pat rep s : str) : str :=
  match s with
  | [] => if startsWith pat [] then rep else []
  | c :: s' =>
      if startsWith pat s then rep ++ skipn (length pat) s
      else c :: replaceFirst pat rep s'
  end.

(** [s.includes(pat)] *)
Fixpoint includes (pat s : str) : bool :=
  match s with
  | [] => startsWith pat []
  | _ :: s' => startsWith pat s || includes pat s'
  end.

(** [s.split(sep)] for a separator of one code unit. *)
Fixpoint split (sep : char) (s : str) : list str :=
  match s with
  | [] => [[]]
  | c :: s' =>
      if (c =? sep)%N then [] :: split sep s'
      else match split sep s' with
           | [] => [[c]]
           | w :: ws => (c :: w) :: ws
           end
  end.

(** [a === b] on strings *)
Fixpoint strEq (a b : str) : bool :=
  match a, b with
  | [], [] => true
  | x :: a', y :: b' => (x =? y)%N && strEq a' b'
  | _, _ => false
  end.

(** [String(n)] for a natural number. *)
Definition ofNat (n : nat) : str :=
  lit (NilZero.string_of_uint (Nat.to_uint n)).

(** [Math.round(p / q)] for integers [p] and [q > 0]: the nearest integer,
    a tie going up. *)
Definition roundDiv (p q : Z) : Z := ((2 * p + q) / (2 * q))%Z.

(** What a method can throw: the constructor's name and the message. *)
Inductive exn : Type :=
| Thrown (name : string) (message : string).

Definition Error (message : string) : exn := Thrown "Error" message.
Definition TypeError (message : string) : exn := Thrown "TypeError" message.

(** The text of a string inside an error message; a code unit above 255
    shows as its low byte. *)
Fixpoint show (s : str) : string :=
  match s with
  | [] => EmptyString
  | c :: s' => String (ascii_of_N c) (show s')
  end.

(** The same between double quotes. *)
Definition quoted (s : str) : string :=
  String (ascii_of_nat 34) (show s ++ String (ascii_of_nat 34) EmptyString).

End Js.

Import Js.

(* ================================================================= *)
(** ** Calls that leave the process, and the monad of a method *)

(** The provider kinds of [quote-extractor.js]; [unsupported] is any other
    value of the [provider] field, which the [default:] branches reject. *)
Inductive Provider : Type :=
| openai | anthropic | gemini | ollama | transformers
| unsupported (name : string).

(** One text-generation request as a backend receives it.  The sampling
    temperature is a floating-point number that no branch inspects; it is
    not carried. *)
Record Request : Type := mkRequest {
  req_provider : Provider;
  req_model : option str;
  req_maxTokens : option N;
  req_prompt : str
}.

(** [mailOptions] of [email-sender.js]. *)
Record MailOptions : Type := mkMail {
  mail_from : option str;
  mail_to : str;
  mail_subject : str;
  mail_text : str;
  mail_html : str
}.

Inductive effect : Type :=
| FsReadFile                          (* fs.readFile(this.filePath) *)
| PipelineLoad (model : str)          (* pipeline('text2text-generation', ...) *)
| ProviderCall (r : Request)          (* the backend's generation endpoint *)
| SmtpCreateTransport                 (* nodemailer.createTransport: no traffic *)
| SmtpVerify                          (* transporter.verify(): connects *)
| SmtpSendMail (m : MailOptions).     (* transporter.sendMail(mailOptions) *)

(** The calls that reach the network. *)
Definition isNetworkCall (e : effect) : bool :=
  match e with
  | ProviderCall _ | SmtpVerify | SmtpSendMail _ => true
  | FsReadFile | PipelineLoad _ | SmtpCreateTransport => false
  end.

Definition isSend (e : effect) : bool :=
  match e with
  | SmtpSendMail _ => true
  | _ => false
  end.

Definition networkCalls (t : list effect) : list effect := filter isNetworkCall t.
Definition sends (t : list effect) : nat := length (filter isSend t).

(** A method of an object of type [S] returning an [A]: the object after
    the call, the calls made in order, and the value returned or the
    exception thrown. *)
Definition M (S A : Type) : Type := S -> S * list effect * (exn + A).

Definition ret {S A : Type} (a : A) : M S A := fun s => (s, [], inr a).

Definition throw {S A : Type} (e : exn) : M S A := fun s => (s, [], inl e).

Definition bind {S A B : Type} (m : M S A) (k : A -> M S B) : M S B :=
  fun s =>
    let '(s1, t1, r) := m s in
    match r with
    | inl e => (s1, t1, inl e)
    | inr a => let '(s2, t2, r2) := k a s1 in (s2, t1 ++ t2, r2)
    end.

Definition get {S : Type} : M S S := fun s => (s, [], inr s).

Definition modify {S : Type} (f : S -> S) : M S unit := fun s => (f s, [], inr tt).

(** An awaited outside call: it is recorded, and the world's answer is its
    result. *)
Definition call {S A : Type} (e : effect) (answer : exn + A) : M S A :=
  fun s => (s, [e], answer).

(** [try { m } finally { cleanup }] *)
Definition finally {S A : Type} (m : M S A) (cleanup : S -> S) : M S A :=
  fun s => let '(s1, t, r) := m s in (cleanup s1, t, r).

Declare Scope method_scope.
Delimit Scope method_scope with method.
Notation "x <- m ;; k" := (bind m (fun x => k))
  (at level 61, m at next level, right associativity) : method_scope.
Notation "m ;;; k" := (bind m (fun _ => k))
  (at level 61, right associativity) : method_scope.
Open Scope method_scope.

(** The three parts of what a call leaves behind. *)
Definition state_of {S R : Type} (r : S * list effect * R) : S := fst (fst r).
Definition trace_of {S R : Type} (r : S * list effect * R) : list effect := snd (fst r).
Definition result_of {S R : Type} (r : S * list effect * R) : R := snd r.

(* ================================================================= *)
(** ** Quote provider: [quote-extractor.js] (the five-provider revision) *)

Module QuoteExtractor.

Record Config : Type := mkConfig {
  cfg_provider : option Provider;
  cfg_apiKey : option str;
  cfg_model : option str;
  cfg_maxTokens : option N;
  cfg_baseURL : option str
}.

(** The extractor object.  The SDK client that [initializeClient] builds is
    not represented: requests go to the world.  [transformersPipeline]
    tells that the local pipeline has been created. *)
Record t : Type := mkExtractor {
  config : Config;
  provider : Provider;
  transformersPipeline : bool
}.

(** [QuoteResult] of the specification: one element of the returned array. *)
Record QuoteResult : Type := mkQuote {
  text : str;
  source : Provider;
  extractedAt : Z
}.

(** What the backends answer. *)
Record World : Type := mkWorld {
  (** the value of the expression that reads the backend's reply
      ([completion.choices[0]?.message?.content], [message.content[0]?.text],
      [response.text()], [result[0]?.generated_text]), or what the request
      throws *)
  respond : Request -> exn + option str;
  (** creating the local pipeline *)
  loadPipeline : str -> option exn;
  (** [new Date()] when the result is built, in epoch milliseconds *)
  now : Z
}.

Definition ERROR_NO_QUOTE : str := lit "ERROR_NO_QUOTE".

Definition localProvider (p : Provider) : bool :=
  match p with
  | ollama | transformers => true
  | _ => false
  end.

(** [constructor(config)] with [initializeClient()] *)
Definition create (cfg : option Config) : exn + t :=
  match cfg with
  | None => inl (Error "AI provider configuration is required")
  | Some c =>
      match cfg_provider c with
      | None => inl (Error "AI provider configuration is required")
      | Some p =>
          if negb (truthy (cfg_apiKey c)) && negb (localProvider p)
          then inl (Error "API key is required for this provider")
          else match p with
               | unsupported name =>
                   inl (Error ("Unsupported AI provider: " ++ name))
               | _ => inr (mkExtractor c p false)
               end
      end
  end.

(** [buildPrompt(content, title)] *)
Definition buildPrompt (content title : str) : str :=
  lit "Please extract the most meaningful and impactful quote from this Rick Owens interview. Focus on quotes that capture his philosophy, aesthetic vision, or unique perspective."
  ++ [LF; LF]
  ++ lit "Interview Title: " ++ [DQUOTE] ++ title ++ [DQUOTE]
  ++ [LF; LF]
  ++ lit "Interview Content:" ++ [LF]
  ++ content
  ++ [LF; LF]
  ++ lit "Instructions:" ++ [LF]
  ++ lit "1. Choose a quote that is authentic to Rick Owens' voice and style" ++ [LF]
  ++ lit "2. Select something philosophically interesting or aesthetically profound" ++ [LF]
  ++ lit "3. Avoid quotes about fashion logistics or business details" ++ [LF]
  ++ lit "4. The quote should be memorable and thought-provoking" ++ [LF]
  ++ lit "5. It should represent his artistic vision"
  ++ [LF; LF]
  ++ lit "IMPORTANT: If you cannot find any meaningful quotes in the content, return exactly "
  ++ [DQUOTE] ++ ERROR_NO_QUOTE ++ [DQUOTE]
  ++ lit " (without quotes). Do not return explanations like "
  ++ [DQUOTE] ++ lit "I was unable to find quotes" ++ [DQUOTE]
  ++ lit " or similar text."
  ++ [LF; LF]
  ++ lit "Return ONLY the quote itself, without quotation marks, attribution, or additional commentary. The quote should be complete and make sense on its own. If no quote can be found, return exactly "
  ++ [DQUOTE] ++ ERROR_NO_QUOTE ++ [DQUOTE] ++ lit ".".

(** [x || d] for an optional string and for an optional number *)
Definition orStr (x : option str) (d : str) : str :=
  match x with
  | Some (c :: s) => c :: s
  | _ => d
  end.

Definition orNum (x : option N) (d : N) : N :=
  match x with
  | Some 0%N | None => d
  | Some n => n
  end.

Definition request (self : t) (prompt : str) : Request :=
  mkRequest (provider self) (cfg_model (config self))
            (cfg_maxTokens (config self)) prompt.

(** [extractWithOpenAI], [extractWithAnthropic], [extractWithGemini]: one
    request with the configured model and token limit. *)
Definition extractWithHosted (w : World) (prompt : str) : M t (option str) :=
  self <- get ;;
  let r := request self prompt in
  call (ProviderCall r) (respond w r).

(** [extractWithOllama]: the same, with defaults for model and limit. *)
Definition extractWithOllama (w : World) (prompt : str) : M t (option str) :=
  self <- get ;;
  let r := mkRequest (provider self)
                     (Some (orStr (cfg_model (config self)) (lit "qwen2.5:1.5b")))
                     (Some (orNum (cfg_maxTokens (config self)) 300))
                     prompt in
  call (ProviderCall r) (respond w r).

(** The text after the first occurrence of [pat] in [s]. *)
Fixpoint afterFirst (pat s : str) : option str :=
  match s with
  | [] => if startsWith pat [] then Some [] else None
  | _ :: s' =>
      if startsWith pat s then Some (skipn (length pat) s)
      else afterFirst pat s'
  end.

(** The shortest prefix of [s] after which [stop] follows, or all of [s]. *)
Fixpoint lazyUntil (stop s : str) : str :=
  match s with
  | [] => []
  | c :: s' => if startsWith stop s then [] else c :: lazyUntil stop s'
  end.

(** [prompt.match(/Interview Content:\s*(.*?)(?:\n\nInstructions:|$)/s)],
    then [contentMatch ? contentMatch[1] : prompt] *)
Definition promptContent (prompt : str) : str :=
  match afterFirst (lit "Interview Content:") prompt with
  | Some rest => lazyUntil ([LF; LF] ++ lit "Instructions:") (trimStart rest)
  | None => prompt
  end.

Definition simplePrompt (prompt : str) : str :=
  lit "Extract the most meaningful quote from this Rick Owens interview that shows his philosophy or vision:"
  ++ [LF; LF] ++ firstn 2000 (promptContent prompt)
  ++ [LF; LF] ++ lit "Most meaningful quote:".

(** [extractWithTransformers] *)
Definition extractWithTransformers (w : World) (prompt : str) : M t (option str) :=
  self <- get ;;
  let model := orStr (cfg_model (config self)) (lit "Xenova/LaMini-Flan-T5-248M") in
  (if transformersPipeline self then ret tt
   else
     call (PipelineLoad model)
          (match loadPipeline w model with
           | Some e => inl e
           | None => inr tt
           end) ;;;
     modify (fun s => mkExtractor (config s) (provider s) true)) ;;;
  let r := mkRequest (provider self) (Some model)
                     (Some (orNum (cfg_maxTokens (config self)) 100))
                     (simplePrompt prompt) in
  generated <- call (ProviderCall r) (respond w r) ;;
  ret (Some (orStr generated [])).

Definition isQuoteChar (c : char) : bool :=
  ((c =? DQUOTE) || (c =? SQUOTE) || (c =? BACKTICK))%N.

(** The first [replace] of [cleanQuote]: one quote character (double
    quote, apostrophe or backtick) at the start is removed. *)
Definition stripLeadingQuote (s : str) : str :=
  match s with
  | c :: s' => if isQuoteChar c then s' else s
  | [] => []
  end.

(** The second [replace]: one quote character at the end is removed. *)
Definition stripTrailingQuote (s : str) : str :=
  rev (stripLeadingQuote (rev s)).

(** [.replace(/^- /, '')] *)
Definition stripLeadingDash (s : str) : str :=
  if startsWith [DASH; SPACE] s then skipn 2 s else s.

(** [cleanQuote(rawQuote)]: [null] for a missing or empty reply. *)
Definition cleanQuote (rawQuote : option str) : option str :=
  if negb (truthy rawQuote) then None
  else
    match rawQuote with
    | None => None
    | Some s =>
        Some (trim
               (replaceWhitespaceRuns
                  (stripLeadingDash
                     (stripTrailingQuote
                        (stripLeadingQuote
                           (trim s))))))
    end.

(** [cleanedQuote === 'ERROR_NO_QUOTE'] *)
Definition isSentinel (q : option str) : bool :=
  match q with
  | Some s => strEq s ERROR_NO_QUOTE
  | None => false
  end.

(** The [switch] of [extractQuotes]: the reply of the configured backend. *)
Definition backendReply (w : World) (prompt : str) : M t (option str) :=
  self <- get ;;
  match provider self with
  | openai | anthropic | gemini => extractWithHosted w prompt
  | ollama => extractWithOllama w prompt
  | transformers => extractWithTransformers w prompt
  | unsupported name => throw (Error ("Unsupported provider: " ++ name))
  end.

(** [extractQuotes(content, title)]: [null] when no quote was found, else
    an array of one result. *)
Definition extractQuotes (w : World) (content title : str)
  : M t (option (list QuoteResult)) :=
  response <- backendReply w (buildPrompt content title) ;;
  self <- get ;;
  let cleanedQuote := cleanQuote response in
  if negb (truthy cleanedQuote) || isSentinel cleanedQuote
  then ret None
  else
    match cleanedQuote with
    | Some q => ret (Some [mkQuote q (provider self) (now w)])
    | None => ret None
    end.

(** [extractQuote(interviewData)], the legacy method:
    [quotes[0]?.text || null], where indexing the [null] that
    [extractQuotes] returns for no quote throws. *)
Definition extractQuote (w : World) (content title : str) : M t (option str) :=
  quotes <- extractQuotes w content title ;;
  match quotes with
  | None => throw (TypeError "Cannot read properties of null")
  | Some [] => ret None
  | Some (q :: _) => ret (if truthy (Some (text q)) then Some (text q) else None)
  end.

End QuoteExtractor.

(** The three-provider revision of the same file
    ([src/quote-extractor/quote-extractor.js]): its prompt names no sentinel,
    and an empty cleaned reply is an error. *)
Module QuoteExtractorHostedOnly.

Import QuoteExtractor.

(** [buildPrompt(content, title)] of this revision *)
Definition buildPrompt (content title : str) : str :=
  lit "Please extract the most meaningful and impactful quote from this Rick Owens interview. Focus on quotes that capture his philosophy, aesthetic vision, or unique perspective."
  ++ [LF; LF]
  ++ lit "Interview Title: " ++ [DQUOTE] ++ title ++ [DQUOTE]
  ++ [LF; LF]
  ++ lit "Interview Content:" ++ [LF]
  ++ content
  ++ [LF; LF]
  ++ lit "Instructions:" ++ [LF]
  ++ lit "1. Choose a quote that is authentic to Rick Owens' voice and style" ++ [LF]
  ++ lit "2. Select something philosophically interesting or aesthetically profound" ++ [LF]
  ++ lit "3. Avoid quotes about fashion logistics or business details" ++ [LF]
  ++ lit "4. The quote should be memorable and thought-provoking" ++ [LF]
  ++ lit "5. It should represent his artistic vision"
  ++ [LF; LF]
  ++ lit "Return ONLY the quote itself, without quotation marks, attribution, or additional commentary. The quote should be complete and make sense on its own.".

(** The [switch] of this revision's [extractQuotes]: the three hosted
    backends, and the [default] branch for any other provider. *)
Definition backendReply (w : World) (prompt : str) : M t (option str) :=
  self <- get ;;
  match provider self with
  | openai | anthropic | gemini => extractWithHosted w prompt
  | ollama => throw (Error "Unsupported provider: ollama")
  | transformers => throw (Error "Unsupported provider: transformers")
  | unsupported name => throw (Error ("Unsupported provider: " ++ name))
  end.

(** [extractQuotes(content, title)] of this revision: an array of one
    result, or the error [No valid quote extracted from response] when
    [!cleanedQuote]. *)
Definition extractQuotes (w : World) (content title : str)
  : M t (list QuoteResult) :=
  response <- backendReply w (buildPrompt content title) ;;
  self <- get ;;
  match cleanQuote response with
  | Some (c :: q) => ret [mkQuote (c :: q) (provider self) (now w)]
  | _ => throw (Error "No valid quote extracted from response")
  end.

End QuoteExtractorHostedOnly.

(* ================================================================= *)
(** ** Interview store: [interview-reader.js] *)

Module InterviewReader.

(** What [new URL(url)] exposes of a parsed URL. *)
Record URL : Type := mkURL {
  hostname : str;
  pathname : str
}.

(** The runtime's part: the WHATWG URL parser ([None] when the constructor
    throws) and Unicode lower-casing. *)
Record Platform : Type := mkPlatform {
  parseURL : str -> option URL;
  toLowerCase : str -> str
}.

(** One element of the parsed document: [None] for [null], else the
    object's [url] and [text] members, each possibly missing. *)
Record RawInterview : Type := mkRaw {
  raw_url : option str;
  raw_text : option str
}.

Inductive JsonDoc : Type :=
| NotAnArray
| ArrayOf (entries : list (option RawInterview)).

Record InterviewRecord : Type := mkRecord {
  id : str;
  url : str;
  title : str;
  content : str;
  source : str;
  loadedAt : Z
}.

(** The reader object; [filePath] plays no part below. *)
Record t : Type := mkReader {
  interviews : option (list InterviewRecord);
  lastLoadTime : option Z
}.

(** [constructor(options)] *)
Definition create : t := mkReader None None.

Record World : Type := mkWorld {
  (** [fs.readFile] followed by [JSON.parse]: the document, or what either
      of them throws *)
  document : exn + JsonDoc;
  (** [new Date()] when the record of the given index is built *)
  clockRecord : nat -> Z;
  (** [Date.now()] at the end of [loadInterviews] *)
  clockLoad : Z;
  (** [Date.now()] in the staleness test *)
  clockCheck : Z;
  (** [Math.random()] is [random53 / 2^53] *)
  random53 : N
}.

Section WithPlatform.

Variable P : Platform.

Definition isWordChar (c : char) : bool :=
  ((48 <=? c) && (c <=? 57) || (65 <=? c) && (c <=? 90)
   || (97 <=? c) && (c <=? 122) || (c =? 95))%N.

(** [l.toUpperCase()] for one word character *)
Definition upperWordChar (c : char) : char :=
  if ((97 <=? c) && (c <=? 122))%N then (c - 32)%N else c.

(** [.replace(/\b\w/g, l => l.toUpperCase())]: a word character that
    follows none is put in upper case. *)
Fixpoint capitalizeFrom (afterWordChar : bool) (s : str) : str :=
  match s with
  | [] => []
  | c :: s' =>
      (if isWordChar c && negb afterWordChar then upperWordChar c else c)
        :: capitalizeFrom (isWordChar c) s'
  end.

Definition nonEmpty (s : str) : bool :=
  match s with
  | [] => false
  | _ :: _ => true
  end.

(** The test of the loop of [extractTitle]: the line is not skipped and
    looks like a title. *)
Definition looksLikeTitle (line : str) : bool :=
  negb ((length line <? 10)
        || includes (lit "home") (toLowerCase P line)
        || includes (lit "about") (toLowerCase P line))
  && ((10 <=? length line) && (length line <=? 100)
      && negb (includes (lit ".com") line)).

(** [extractTitle(text, url)] *)
Definition extractTitle (text url : str) : str :=
  let lines := filter nonEmpty (map trim (split LF text)) in
  match find looksLikeTitle (firstn 5 lines) with
  | Some line => line
  | None =>
      match parseURL P url with
      | Some urlObj =>
          let pathname :=
            match rev (filter nonEmpty (split 47%N (pathname urlObj))) with
            | seg :: _ => seg
            | [] => lit "interview"
            end in
          capitalizeFrom false
            (map (fun c => if (c =? DASH)%N then SPACE else c) pathname)
      | None => lit "Interview"
      end
  end.

(** [extractSource(url)] *)
Definition extractSource (url : str) : str :=
  match parseURL P url with
  | Some urlObj => replaceFirst (lit "www.") [] (hostname urlObj)
  | None => lit "Unknown Source"
  end.

(** The number of code units after a line feed that a match of
    [/\n\s*\n/] takes: through the last line feed of the white space
    that follows, if there is one. *)
Fixpoint blankRun (s : str) : option nat :=
  match s with
  | [] => None
  | c :: s' =>
      if isWhiteSpace c then
        match blankRun s' with
        | Some n => Some (S n)
        | None => if (c =? LF)%N then Some 1 else None
        end
      else None
  end.

(** [.replace(/\n\s*\n/g, '\n\n')]; [skip] code units still belong to the
    match that was just replaced. *)
Fixpoint paragraphsFrom (skip : nat) (s : str) : str :=
  match s with
  | [] => []
  | c :: s' =>
      match skip with
      | S k => paragraphsFrom k s'
      | O =>
          if (c =? LF)%N then
            match blankRun s' with
            | Some n => LF :: LF :: paragraphsFrom n s'
            | None => c :: paragraphsFrom 0 s'
            end
          else c :: paragraphsFrom 0 s'
      end
  end.

Definition replaceParagraphBreaks (s : str) : str := paragraphsFrom 0 s.

(** The class that [/[^\x20-\x7E\n]/g] leaves in place. *)
Definition printableOrNewline (c : char) : bool :=
  ((32 <=? c) && (c <=? 126) || (c =? LF))%N.

(** [cleanContent(content)] *)
Definition cleanContent (content : str) : str :=
  trim
    (filter printableOrNewline
       (replaceParagraphBreaks
          (replaceWhitespaceRuns content))).

(** [interview && interview.url && interview.text] *)
Definition hasUrlAndText (e : option RawInterview) : bool :=
  match e with
  | Some r => truthy (raw_url r) && truthy (raw_text r)
  | None => false
  end.

Definition urlOf (e : option RawInterview) : str :=
  match e with
  | Some (mkRaw (Some u) _) => u
  | _ => []
  end.

Definition textOf (e : option RawInterview) : str :=
  match e with
  | Some (mkRaw _ (Some x)) => x
  | _ => []
  end.

(** [array.map((x, index) => f(x, index))], from index [i] on *)
Fixpoint mapIndexed {A B : Type} (f : A -> nat -> B) (i : nat) (l : list A)
  : list B :=
  match l with
  | [] => []
  | a :: l' => f a i :: mapIndexed f (S i) l'
  end.

(** The callback of [.map] in [loadInterviews]. *)
Definition toRecord (clock : nat -> Z) (e : option RawInterview) (index : nat)
  : InterviewRecord :=
  mkRecord (lit "interview-" ++ ofNat (index + 1))
           (urlOf e)
           (extractTitle (textOf e) (urlOf e))
           (cleanContent (textOf e))
           (extractSource (urlOf e))
           (clock index).

Definition longEnough (r : InterviewRecord) : bool :=
  100 <? length (content r).

(** The chain [data.filter(...).map(...).filter(...)]. *)
Definition buildCollection (clock : nat -> Z)
           (data : list (option RawInterview)) : list InterviewRecord :=
  filter longEnough
    (mapIndexed (toRecord clock) 0
       (filter hasUrlAndText data)).

(** [loadInterviews()] *)
Definition loadInterviews (w : World) : M t (list InterviewRecord) :=
  data <- call FsReadFile (document w) ;;
  match data with
  | NotAnArray => throw (Error "Interview data must be an array of objects")
  | ArrayOf entries =>
      let loaded := buildCollection (clockRecord w) entries in
      modify (fun _ => mkReader (Some loaded) (Some (clockLoad w))) ;;;
      ret loaded
  end.

(** [!this.interviews]: an array, even an empty one, is truthy. *)
Definition absent (self : t) : bool :=
  match interviews self with
  | None => true
  | Some _ => false
  end.

(** [Date.now() - this.lastLoadTime > 300000]; [null] counts as 0. *)
Definition stale (self : t) (nowMs : Z) : bool :=
  (nowMs - match lastLoadTime self with
           | Some l => l
           | None => 0
           end >? 300000)%Z.

(** The double nearest to [q / 2^53], ties going to the even significand,
    as its numerator over [2^53].  A double has a significand of 53 bits:
    a numerator of at most 53 bits is a double as it is, and of a longer
    one the [k] lowest bits are dropped and the rest is rounded. *)
Definition roundToDouble (q : N) : N :=
  let k := (N.log2 q - 52)%N in
  let kept := (q / 2 ^ k)%N in
  let dropped := (q mod 2 ^ k)%N in
  let up := ((2 ^ k <? 2 * dropped)
             || ((2 * dropped =? 2 ^ k) && N.odd kept))%N in
  ((if up then kept + 1 else kept) * 2 ^ k)%N.

(** [Math.floor(x * n)] for the double [x = m / 2^53] and an array length
    [n]: the length is below [2^32], so it is a double as it is, and the
    product is the double nearest to the exact product. *)
Definition floorOfProduct (m n : N) : N :=
  (roundToDouble (m * n) / 2 ^ 53)%N.

(** [Math.floor(Math.random() * n)] *)
Definition randomIndex (w : World) (n : nat) : nat :=
  N.to_nat (floorOfProduct (random53 w) (N.of_nat n)).

(** [getRandomInterview()] *)
Definition getRandomInterview (w : World) : M t InterviewRecord :=
  self <- get ;;
  (if absent self || stale self (clockCheck w)
   then loadInterviews w ;;; ret tt
   else ret tt) ;;;
  self <- get ;;
  match interviews self with
  | None | Some [] => throw (Error "No interviews available")
  | Some l =>
      match nth_error l (randomIndex w (length l)) with
      | Some randomInterview => ret randomInterview
      | None => throw (TypeError "Cannot read properties of undefined")
      end
  end.

(** The JavaScript numbers that [getStats] can compute. *)
Inductive number : Type :=
| Finite (z : Z)
| Infinity
| NaN.

Definition isFinite (x : number) : bool :=
  match x with
  | Finite _ => true
  | Infinity | NaN => false
  end.

(** [Math.round(total / count)] for two array lengths: [0 / 0] is [NaN]
    and [x / 0] is [Infinity] for [x > 0]; [Math.round] returns both as
    they are. *)
Definition roundedMean (total count : nat) : number :=
  match count, total with
  | O, O => NaN
  | O, S _ => Infinity
  | S _, _ => Finite (roundDiv (Z.of_nat total) (Z.of_nat count))
  end.

(** [[...new Set(l)]]: the first occurrence of each value, in order. *)
Fixpoint distinctFrom (seen l : list str) : list str :=
  match l with
  | [] => []
  | x :: l' =>
      if existsb (strEq x) seen then distinctFrom seen l'
      else x :: distinctFrom (x :: seen) l'
  end.

(** The object [getStats] returns; the two last members exist only in
    the summary of a loaded collection. *)
Record Stats : Type := mkStats {
  total : nat;
  averageLength : number;
  sources : option (list str);
  lastLoaded : option Z
}.

(** [getStats()] *)
Definition getStats (self : t) : Stats :=
  match interviews self with
  | None => mkStats 0 (Finite 0) None None
  | Some l =>
      let totalLength := fold_left (fun sum r => sum + length (content r)) l 0 in
      mkStats (length l)
              (roundedMean totalLength (length l))
              (Some (distinctFrom [] (map source l)))
              (Some match lastLoadTime self with
                    | Some ms => ms
                    | None => 0%Z
                    end)
  end.

(** [getAllInterviews()] *)
Definition getAllInterviews (w : World) : M t (list InterviewRecord) :=
  self <- get ;;
  (if absent self || stale self (clockCheck w)
   then loadInterviews w ;;; ret tt
   else ret tt) ;;;
  self <- get ;;
  ret match interviews self with
      | Some l => l
      | None => []
      end.

(** [getInterviewById(id)] *)
Definition getInterviewById (w : World) (wanted : str) : M t InterviewRecord :=
  all <- getAllInterviews w ;;
  match find (fun i => strEq (id i) wanted) all with
  | Some interview => ret interview
  | None => throw (Error ("Interview with id " ++ quoted wanted ++ " not found"))
  end.

(** [reload()] *)
Definition reload (w : World) : M t (list InterviewRecord) :=
  modify (fun _ => mkReader None None) ;;;
  loadInterviews w.

End WithPlatform.

End InterviewReader.

(* ================================================================= *)
(** ** Email dispatcher: [email-sender.js] *)

Module EmailSender.

(** The object [config.getEmailConfig()] builds; every member is present. *)
Record Config : Type := mkConfig {
  host : option str;
  port : N;
  secure : bool;
  user : option str;
  password : option str;
  from : option str
}.

Record t : Type := mkSender {
  config : Config;
  (** [this.transporter] is not [null] *)
  transporter : bool;
  isConfigured : bool
}.

(** [validateConfig()]: [this.config.auth] has the members [user] and
    [pass], so a key is missing when the member of that name is falsy. *)
Definition validateConfig (c : Config) : bool :=
  truthy (host c) && truthy (user c) && truthy (password c).

(** [constructor(config)] *)
Definition create (c : Config) : t := mkSender c false (validateConfig c).

Record World : Type := mkWorld {
  (** [transporter.verify()]: what it throws, if it does *)
  verify : option exn;
  (** [transporter.sendMail(...)]: [info.messageId], or what it throws *)
  sendMail : exn + str;
  (** [new Date()] when the receipt is built *)
  clockSent : Z
}.

(** The receipt a send returns. *)
Record Receipt : Type := mkReceipt {
  success : bool;
  messageId : str;
  recipients : list str;
  sentAt : Z
}.

(** [init()] *)
Definition init (w : World) : M t unit :=
  self <- get ;;
  if negb (isConfigured self)
  then throw (Error "Email configuration is incomplete")
  else
    call SmtpCreateTransport (inr tt) ;;;
    modify (fun s => mkSender (config s) true (isConfigured s)) ;;;
    call SmtpVerify (match verify w with
                     | Some e => inl e
                     | None => inr tt
                     end).

(** [recipients.join(', ')] *)
Fixpoint join (l : list str) : str :=
  match l with
  | [] => []
  | [a] => a
  | a :: l' => a ++ lit ", " ++ join l'
  end.

(** [!recipients || recipients.length === 0] *)
Definition noRecipients (recipients : option (list str)) : bool :=
  match recipients with
  | None | Some [] => true
  | Some (_ :: _) => false
  end.

Definition NoRecipientsError : exn := Error "No recipients specified".

(** [sendQuoteEmail(recipients, subject, textContent, htmlContent)] *)
Definition sendQuoteEmail (w : World) (recipients : option (list str))
           (subject textContent htmlContent : str) : M t Receipt :=
  self <- get ;;
  (if transporter self then ret tt else init w) ;;;
  if noRecipients recipients then throw NoRecipientsError
  else
    self <- get ;;
    let to := match recipients with
              | Some l => l
              | None => []
              end in
    let mailOptions :=
      mkMail (from (config self)) (join to) subject textContent htmlContent in
    info <- call (SmtpSendMail mailOptions) (sendMail w) ;;
    ret (mkReceipt true info to (clockSent w)).

(** [testConnection()]: [true] when nothing threw, [false] otherwise.  The
    check after [init] is a second call of [verify]; [w'] answers it. *)
Definition testConnection (w w' : World) : M t bool :=
  fun s =>
    let '(s1, tr, r) :=
      (self <- get ;;
       (if transporter self then ret tt else init w) ;;;
       call SmtpVerify (match verify w' with
                        | Some e => inl e
                        | None => inr tt
                        end)) s in
    (s1, tr, inr match r with
                 | inl _ => false
                 | inr _ => true
                 end).

Record EmailContent : Type := mkContent {
  subject : str;
  text : str;
  html : str
}.

Record QuoteData : Type := mkQuoteData {
  quote : str;
  sourceTitle : str;
  sourceUrl : str
}.

Section WithTemplate.

(** [buildEmailContent(quoteData)]: the text and HTML templates around
    the quote, with the date in the runtime's locale format. *)
Variable buildEmailContent : QuoteData -> EmailContent.

(** [sendQuote(quoteData, recipients)] *)
Definition sendQuote (w : World) (quoteData : QuoteData)
           (recipients : option (list str)) : M t Receipt :=
  self <- get ;;
  (if transporter self then ret tt else init w) ;;;
  if noRecipients recipients then throw NoRecipientsError
  else
    self <- get ;;
    let to := match recipients with
              | Some l => l
              | None => []
              end in
    let emailContent := buildEmailContent quoteData in
    let mailOptions :=
      mkMail (from (config self)) (join to) (subject emailContent)
             (text emailContent) (html emailContent) in
    info <- call (SmtpSendMail mailOptions) (sendMail w) ;;
    ret (mkReceipt true info to (clockSent w)).

(** [testQuoteData] of [sendTestEmail] *)
Definition testQuoteData : QuoteData :=
  mkQuoteData
    (lit "I think there's something beautiful about the decay, something beautiful about the entropy.")
    (lit "Test Interview")
    (lit "https://example.com").

(** [sendTestEmail(recipient)]: the array holds the one argument whatever
    it is. *)
Definition sendTestEmail (w : World) (recipient : str) : M t Receipt :=
  sendQuote w testQuoteData (Some [recipient]).

End WithTemplate.

End EmailSender.

(* ================================================================= *)
(** ** Configuration: [config.js] *)

Module Config.

(** [getEmailRecipients()], from the value of [EMAIL_RECIPIENTS] *)
Definition getEmailRecipients (recipients : str) : list str :=
  filter (fun email => 0 <? length email)
         (map trim (split 44%N recipients)).

(** [os.platform()] *)
Inductive OS : Type := win32 | darwin | linux | otherOS.

(** The validated settings ([this.validated], the value the Joi schema
    returns), as far as the methods below read them.  A provider setting has
    passed [valid(...)]; a platform override that is unset or the empty
    string is [None]. *)
Record Env : Type := mkEnv {
  AI_PROVIDER : Provider;
  AI_PROVIDER_WINDOWS : option Provider;
  AI_PROVIDER_MACOS : option Provider;
  AI_PROVIDER_LINUX : option Provider;
  OPENAI_API_KEY : option str;
  OPENAI_MODEL : str;
  ANTHROPIC_API_KEY : option str;
  ANTHROPIC_MODEL : str;
  GEMINI_API_KEY : option str;
  GEMINI_MODEL : str;
  OLLAMA_BASE_URL : str;
  OLLAMA_MODEL : str;
  TRANSFORMERS_MODEL : str;
  AI_MAX_TOKENS : N;
  EMAIL_HOST : str;
  EMAIL_PORT : N;
  EMAIL_SECURE : bool;
  EMAIL_USER : str;
  EMAIL_PASSWORD : str;
  EMAIL_FROM : option str;
  EMAIL_RECIPIENTS : str
}.

(** [getPlatformSpecificProvider()] *)
Definition getPlatformSpecificProvider (os : OS) (env : Env) : Provider :=
  let platformProvider :=
    match os with
    | win32 => AI_PROVIDER_WINDOWS env
    | darwin => AI_PROVIDER_MACOS env
    | linux => AI_PROVIDER_LINUX env
    | otherOS => None
    end in
  match platformProvider with
  | Some p => p
  | None => AI_PROVIDER env
  end.

(** [issues.join(', ')] *)
Definition joinIssues (issues : list string) : string :=
  String.concat ", " issues.

(** The issues that [validatePlatformSpecificRequirements()] collects. *)
Definition platformIssues (os : OS) (env : Env) : list string :=
  match getPlatformSpecificProvider os env with
  | openai =>
      if negb (truthy (OPENAI_API_KEY env))
      then ["OPENAI_API_KEY is required when using OpenAI provider"%string]
      else []
  | anthropic =>
      if negb (truthy (ANTHROPIC_API_KEY env))
      then ["ANTHROPIC_API_KEY is required when using Anthropic provider"%string]
      else []
  | gemini =>
      if negb (truthy (GEMINI_API_KEY env))
      then ["GEMINI_API_KEY is required when using Gemini provider"%string]
      else []
  | ollama | transformers | unsupported _ => []
  end.

(** [validate()] after the schema has accepted the environment: the
    settings, or the error of the platform check. *)
Definition validate (os : OS) (env : Env) : exn + Env :=
  match platformIssues os env with
  | [] => inr env
  | issues =>
      inl (Error ("Platform-specific configuration validation failed: "
                  ++ joinIssues issues))
  end.

Definition providerName (p : Provider) : string :=
  match p with
  | openai => "openai"
  | anthropic => "anthropic"
  | gemini => "gemini"
  | ollama => "ollama"
  | transformers => "transformers"
  | unsupported name => name
  end.

(** [getAIConfig()] *)
Definition getAIConfig (os : OS) (env : Env) : exn + QuoteExtractor.Config :=
  let provider := getPlatformSpecificProvider os env in
  let config apiKey model baseURL :=
    QuoteExtractor.mkConfig (Some provider) apiKey (Some model)
                            (Some (AI_MAX_TOKENS env)) baseURL in
  match provider with
  | openai => inr (config (OPENAI_API_KEY env) (OPENAI_MODEL env) None)
  | anthropic => inr (config (ANTHROPIC_API_KEY env) (ANTHROPIC_MODEL env) None)
  | gemini => inr (config (GEMINI_API_KEY env) (GEMINI_MODEL env) None)
  | ollama => inr (config None (OLLAMA_MODEL env) (Some (OLLAMA_BASE_URL env)))
  | transformers => inr (config None (TRANSFORMERS_MODEL env) None)
  | unsupported name => inl (Error ("Unsupported AI provider: " ++ name))
  end.

(** [getEmailConfig()] *)
Definition getEmailConfig (env : Env) : EmailSender.Config :=
  EmailSender.mkConfig
    (Some (EMAIL_HOST env)) (EMAIL_PORT env) (EMAIL_SECURE env)
    (Some (EMAIL_USER env)) (Some (EMAIL_PASSWORD env))
    (if truthy (EMAIL_FROM env) then EMAIL_FROM env else Some (EMAIL_USER env)).

(** A code unit of the class [[^\s@]]. *)
Definition plain (c : char) : bool := negb (isWhiteSpace c) && negb (c =? 64)%N.

Fixpoint takePlain (s : str) : str :=
  match s with
  | c :: s' => if plain c then c :: takePlain s' else []
  | [] => []
  end.

Fixpoint dropPlain (s : str) : str :=
  match s with
  | c :: s' => if plain c then dropPlain s' else s
  | [] => []
  end.

(** [emailRegex.test(email)] for [/^[^\s@]+@[^\s@]+\.[^\s@]+$/]: a
    non-empty run of plain code units, an at sign, and to the end plain
    code units with a dot that is neither the first nor the last of them. *)
Definition emailRegexTest (email : str) : bool :=
  match takePlain email, dropPlain email with
  | _ :: _, at_ :: domain =>
      (at_ =? 64)%N
      && forallb plain domain
      && existsb (fun c => (c =? 46)%N) (removelast (tl domain))
  | _, _ => false
  end.

(** The object [validateConnections()] returns. *)
Record Validation : Type := mkValidation {
  valid : bool;
  issues : list string
}.

(** The key-format issue of [validateConnections()]. *)
Definition keyIssues (os : OS) (env : Env) : list string :=
  match getPlatformSpecificProvider os env with
  | openai =>
      match OPENAI_API_KEY env with
      | Some (c :: k) =>
          if negb (startsWith (lit "sk-") (c :: k))
          then [("OpenAI API key should start with " ++ quoted (lit "sk-"))%string]
          else []
      | _ => []
      end
  | anthropic =>
      match ANTHROPIC_API_KEY env with
      | Some (c :: k) =>
          if negb (startsWith (lit "sk-ant-") (c :: k))
          then [("Anthropic API key should start with " ++ quoted (lit "sk-ant-"))%string]
          else []
      | _ => []
      end
  | gemini =>
      match GEMINI_API_KEY env with
      | Some (c :: k) =>
          if length (c :: k) <? 20
          then ["Gemini API key appears to be invalid"%string]
          else []
      | _ => []
      end
  | ollama | transformers | unsupported _ => []
  end.

(** [validateConnections()] *)
Definition validateConnections (os : OS) (env : Env) : Validation :=
  let recipients := getEmailRecipients (EMAIL_RECIPIENTS env) in
  let found :=
    keyIssues os env
    ++ (if length recipients =? 0
        then ["At least one email recipient is required"%string]
        else [])
    ++ map (fun email => ("Invalid email format: " ++ show email)%string)
           (filter (fun email => negb (emailRegexTest email)) recipients) in
  match found with
  | [] => mkValidation true []
  | _ :: _ => mkValidation false found
  end.

End Config.

(* ================================================================= *)
(** ** Orchestrator: [index.js] *)

Module RickOwensQuoteBot.

Import InterviewReader.

(** The bot; the three services are [null] until [init()] has run. *)
Record t : Type := mkBot {
  interviewReader : option InterviewReader.t;
  quoteExtractor : option QuoteExtractor.t;
  emailSender : option EmailSender.t;
  isRunning : bool
}.

(** [constructor()] *)
Definition create : t := mkBot None None None false.

Record World : Type := mkWorld {
  readerWorld : InterviewReader.World;
  extractorWorld : QuoteExtractor.World;
  senderWorld : EmailSender.World;
  (** the validated value of [EMAIL_RECIPIENTS] *)
  EMAIL_RECIPIENTS : str;
  (** [Date.now()] at the start and at the end of a run *)
  clockStart : Z;
  clockEnd : Z
}.

(** The summary a successful run returns. *)
Record RunResult : Type := mkRunResult {
  success : bool;
  interviewTitle : str;
  interviewUrl : str;
  quotes : nat;
  recipients : nat;
  duration : Z
}.

Definition setRunning (v : bool) (b : t) : t :=
  mkBot (interviewReader b) (quoteExtractor b) (emailSender b) v.

Definition nullService {A : Type} : M t A :=
  throw (TypeError "Cannot read properties of null").

(** A method call on [this.interviewReader]. *)
Definition onReader {A : Type} (m : M InterviewReader.t A) : M t A :=
  fun b =>
    match interviewReader b with
    | None => nullService b
    | Some r =>
        let '(r', tr, res) := m r in
        (mkBot (Some r') (quoteExtractor b) (emailSender b) (isRunning b), tr, res)
    end.

(** A method call on [this.quoteExtractor]. *)
Definition onExtractor {A : Type} (m : M QuoteExtractor.t A) : M t A :=
  fun b =>
    match quoteExtractor b with
    | None => nullService b
    | Some x =>
        let '(x', tr, res) := m x in
        (mkBot (interviewReader b) (Some x') (emailSender b) (isRunning b), tr, res)
    end.

(** A method call on [this.emailSender]. *)
Definition onSender {A : Type} (m : M EmailSender.t A) : M t A :=
  fun b =>
    match emailSender b with
    | None => nullService b
    | Some s =>
        let '(s', tr, res) := m s in
        (mkBot (interviewReader b) (quoteExtractor b) (Some s') (isRunning b), tr, res)
    end.

Section WithTemplate.

Variable P : Platform.

(** [formatEmail(interview, quotes)]: the text and HTML templates around
    title, URL and quotes, with the date in the [en-US] long format. *)
Variable formatEmail :
  InterviewRecord -> list QuoteExtractor.QuoteResult -> EmailSender.EmailContent.

(** The subject line: [OWENSQUOTE: ] and the title. *)
Definition subjectOf (interview : InterviewRecord) : str :=
  lit "OWENSQUOTE: " ++ title interview.

(** Step 1 of the [try] block: the interview. *)
Definition fetchInterview (w : World) : M t InterviewRecord :=
  interview <- onReader (getRandomInterview P (readerWorld w)) ;;
  if negb (nonEmpty (content interview))
  then throw (Error "No interview content available")
  else ret interview.

(** Step 2: the quotes. *)
Definition fetchQuotes (w : World) (interview : InterviewRecord)
  : M t (list QuoteExtractor.QuoteResult) :=
  quotes <- onExtractor (QuoteExtractor.extractQuotes (extractorWorld w)
                           (content interview) (title interview)) ;;
  match quotes with
  | None | Some [] => throw (Error "No meaningful quotes extracted")
  | Some qs => ret qs
  end.

(** Step 3: the email. *)
Definition deliver (w : World) (interview : InterviewRecord)
           (quotes : list QuoteExtractor.QuoteResult)
  : M t (list str) :=
  let recipients := Config.getEmailRecipients (EMAIL_RECIPIENTS w) in
  let emailContent := formatEmail interview quotes in
  onSender (EmailSender.sendQuoteEmail (senderWorld w) (Some recipients)
              (subjectOf interview)
              (EmailSender.text emailContent)
              (EmailSender.html emailContent)) ;;;
  ret recipients.

Definition summary (w : World) (startTime : Z) (interview : InterviewRecord)
           (quotes : list QuoteExtractor.QuoteResult) (recipients : list str)
  : RunResult :=
  mkRunResult true (title interview) (url interview)
              (length quotes) (length recipients)
              (roundDiv (clockEnd w - startTime) 1000).

(** [processQuote()]: [None] is the [undefined] of the skipped call. *)
Definition processQuote (w : World) : M t (option RunResult) :=
  self <- get ;;
  if isRunning self then ret None
  else
    modify (setRunning true) ;;;
    let startTime := clockStart w in
    finally
      (interview <- fetchInterview w ;;
       quotes <- fetchQuotes w interview ;;
       recipients <- deliver w interview quotes ;;
       ret (Some (summary w startTime interview quotes recipients)))
      (setRunning false).

(** *** The same method, one await at a time

    An [async] method runs until its first [await] when it is called and
    is resumed once per awaited promise.  A call of [processQuote] is
    therefore a task in one of these phases; between two of them other
    code of the process may run.  An awaited service method is taken to
    finish when the task is resumed. *)
Inductive phase : Type :=
| AwaitInterview (startTime : Z)
| AwaitQuotes (startTime : Z) (interview : InterviewRecord)
| AwaitSend (startTime : Z) (interview : InterviewRecord)
            (quotes : list QuoteExtractor.QuoteResult)
| Done (outcome : exn + option RunResult).

Definition finished (p : phase) : bool :=
  match p with
  | Done _ => true
  | _ => false
  end.

(** The call itself: the guard, and the arguments of the first await. *)
Definition start (w : World) (b : t) : t * list effect * phase :=
  if isRunning b then (b, [], Done (inr None))
  else (setRunning true b, [], AwaitInterview (clockStart w)).

(** One step [m] of the [try] block: its exception leaves through
    [finally], its value goes to the next await. *)
Definition advance {A : Type} (m : M t A) (next : A -> phase) (b : t)
  : t * list effect * phase :=
  let '(b', tr, res) := m b in
  match res with
  | inl e => (setRunning false b', tr, Done (inl e))
  | inr a => (b', tr, next a)
  end.

(** The task is resumed. *)
Definition resume (w : World) (p : phase) (b : t) : t * list effect * phase :=
  match p with
  | AwaitInterview startTime =>
      advance (fetchInterview w) (AwaitQuotes startTime) b
  | AwaitQuotes startTime interview =>
      advance (fetchQuotes w interview) (AwaitSend startTime interview) b
  | AwaitSend startTime interview quotes =>
      let '(b', tr, res) := deliver w interview quotes b in
      (setRunning false b', tr,
       Done (match res with
             | inl e => inl e
             | inr recipients =>
                 inr (Some (summary w startTime interview quotes recipients))
             end))
  | Done outcome => (b, [], Done outcome)
  end.

(** The task is resumed [n] times. *)
Fixpoint resumeN (w : World) (n : nat) (p : phase) (b : t)
  : t * list effect * phase :=
  match n with
  | O => (b, [], p)
  | S n' =>
      let '(b1, t1, p1) := resume w p b in
      let '(b2, t2, p2) := resumeN w n' p1 b1 in
      (b2, t1 ++ t2, p2)
  end.

(** A call followed by [n] resumptions. *)
Definition callThenResume (w : World) (n : nat) (b : t)
  : t * list effect * phase :=
  let '(b1, t1, p1) := start w b in
  let '(b2, t2, p2) := resumeN w n p1 b1 in
  (b2, t1 ++ t2, p2).

(** The callback of the cron job in [start()]:
    [try { await this.processQuote(); } catch (error) { logger.error(...) }]. *)
Definition fire (w : World) : M t unit :=
  fun b => let '(b', tr, _) := processQuote w b in (b', tr, inr tt).

(** Firings that follow one another, each after the one before has
    finished. *)
Fixpoint fireAll (ws : list World) : M t unit :=
  match ws with
  | [] => ret tt
  | w :: ws' => fire w ;;; fireAll ws'
  end.

End WithTemplate.

(** [init()]: the services are assigned one after the other, so a
    constructor that throws leaves the earlier ones in place. *)
Definition init (os : Config.OS) (env : Config.Env) : M t unit :=
  let validation := Config.validateConnections os env in
  if negb (Config.valid validation)
  then throw (Error ("Configuration validation failed: "
                     ++ Config.joinIssues (Config.issues validation)))
  else
    modify (fun b => mkBot (Some InterviewReader.create) (quoteExtractor b)
                           (emailSender b) (isRunning b)) ;;;
    match Config.getAIConfig os env with
    | inl e => throw e
    | inr aiConfig =>
        match QuoteExtractor.create (Some aiConfig) with
        | inl e => throw e
        | inr extractor =>
            modify (fun b => mkBot (interviewReader b) (Some extractor)
                                   (emailSender b) (isRunning b)) ;;;
            modify (fun b => mkBot (interviewReader b) (quoteExtractor b)
                                   (Some (EmailSender.create (Config.getEmailConfig env)))
                                   (isRunning b))
        end
    end.

End RickOwensQuoteBot.

(* ================================================================= *)
(** ** Scraper: the text cleaning of [interview-scraper.js] *)

Module InterviewScraper.

Definition BACKSLASH : char := 92%N.
Definition LETTER_S : char := 115%N.
Definition LETTER_N : char := 110%N.

(** [.replace(/\\s+/g, ' ')]: the expression is written with two
    backslashes, so it matches a backslash followed by one or more letters
    s.  [inRun] tells that the code units before were such a match. *)
Fixpoint escapedRunsFrom (inRun : bool) (s : str) : str :=
  match s with
  | [] => []
  | c :: s' =>
      if inRun && (c =? LETTER_S)%N then escapedRunsFrom true s'
      else
        match s' with
        | d :: _ =>
            if ((c =? BACKSLASH) && (d =? LETTER_S))%N
            then SPACE :: escapedRunsFrom true s'
            else c :: escapedRunsFrom false s'
        | [] => [c]
        end
  end.

Fixpoint countS (s : str) : nat :=
  match s with
  | c :: s' => if (c =? LETTER_S)%N then S (countS s') else 0
  | [] => 0
  end.

(** The length of a match of [/\\n\\s*\\n/] at the start of [s]: backslash,
    n, backslash, any number of letters s, backslash, n. *)
Definition escapedBreak (s : str) : option nat :=
  if startsWith [BACKSLASH; LETTER_N; BACKSLASH] s
  then
    let k := countS (skipn 3 s) in
    if startsWith [BACKSLASH; LETTER_N] (skipn (3 + k) s)
    then Some (3 + k + 2)
    else None
  else None.

(** [.replace(/\\n\\s*\\n/g, '\\n\\n')]: a match becomes backslash, n,
    backslash, n.  [skip] code units still belong to the last match. *)
Fixpoint escapedBreaksFrom (skip : nat) (s : str) : str :=
  match s with
  | [] => []
  | c :: s' =>
      match skip with
      | S k => escapedBreaksFrom k s'
      | O =>
          match escapedBreak s with
          | Some n =>
              [BACKSLASH; LETTER_N; BACKSLASH; LETTER_N]
                ++ escapedBreaksFrom (n - 1) s'
          | None => c :: escapedBreaksFrom 0 s'
          end
      end
  end.

(** The class that [/[^\\x20-\\x7E\\n]/g] leaves in place.  Between the
    brackets stand a backslash, x, 2, the range from 0 to backslash, x, 7,
    E, a backslash and n. *)
Definition kept (c : char) : bool :=
  ((c =? BACKSLASH) || (c =? 120) || (c =? 50)
   || ((48 <=? c) && (c <=? BACKSLASH))
   || (c =? 55) || (c =? 69) || (c =? LETTER_N))%N.

(** [cleanContent(content)] *)
Definition cleanContent (content : str) : str :=
  trim
    (filter kept
       (escapedBreaksFrom 0
          (escapedRunsFrom false content))).

End InterviewScraper.

Unset Implicit Arguments.

(* ================================================================= *)
(** ** Vocabulary of the statements *)

Import QuoteExtractor.
Import InterviewReader.
Import RickOwensQuoteBot.

(** No white space at the start, and none at the end. *)
Definition startsClean (s : str) : bool :=
  match s with
  | [] => true
  | c :: _ => negb (isWhiteSpace c)
  end.

Definition endsClean (s : str) : bool := startsClean (rev s).

(** The strings that [replaceWhitespaceRuns] leaves as they are: their
    white space is single spaces.  [inRun] as in [collapseFrom]. *)
Fixpoint singleSpaced (inRun : bool) (s : str) : bool :=
  match s with
  | [] => true
  | c :: s' =>
      if isWhiteSpace c
      then negb inRun && (c =? SPACE)%N && singleSpaced true s'
      else singleSpaced false s'
  end.

(** The first code unit is a quote character. *)
Definition headIsQuote (s : str) : bool :=
  match s with
  | c :: _ => isQuoteChar c
  | [] => false
  end.

(** The cleaned quotes that a second cleaning leaves alone: not empty, no
    quote character at either end, no leading dash and space. *)
Definition settled (q : str) : bool :=
  negb (length q =? 0)
  && negb (headIsQuote q)
  && negb (headIsQuote (rev q))
  && negb (startsWith [DASH; SPACE] q).

(** The pipeline of [cleanQuote] on a non-empty reply. *)
Definition cleaned (s : str) : str :=
  trim (replaceWhitespaceRuns
          (stripLeadingDash (stripTrailingQuote (stripLeadingQuote (trim s))))).

(** An entry that [loadInterviews] leaves out: it is [null] or lacks a
    non-empty [url] or [text], or its cleaned text has at most 100 code
    units. *)
Definition excluded (e : option RawInterview) : bool :=
  negb (hasUrlAndText e) || (length (cleanContent (textOf e)) <=? 100).

(** The draw of [getRandomInterview] from a collection. *)
Definition drawn (w : InterviewReader.World) (l : list InterviewRecord)
  : exn + InterviewRecord :=
  match l with
  | [] => inl (Error "No interviews available")
  | d :: _ => inr (nth (randomIndex w (length l)) l d)
  end.

(** The reader's [lastLoadTime] as the subtraction reads it, and its
    collection as a list. *)
Definition lastLoadOrZero (self : InterviewReader.t) : Z :=
  match lastLoadTime self with
  | Some ms => ms
  | None => 0%Z
  end.

Definition collection (self : InterviewReader.t) : list InterviewRecord :=
  match interviews self with
  | Some l => l
  | None => []
  end.

(** The outcome of a send without recipients. *)
Definition emptyRecipientsOutcome (w : EmailSender.World) (self : EmailSender.t)
  : EmailSender.t * list effect * (exn + EmailSender.Receipt) :=
  if EmailSender.transporter self
  then (self, [], inl EmailSender.NoRecipientsError)
  else if EmailSender.isConfigured self
       then (EmailSender.mkSender (EmailSender.config self) true true,
             [SmtpCreateTransport; SmtpVerify],
             inl match EmailSender.verify w with
                 | Some e => e
                 | None => EmailSender.NoRecipientsError
                 end)
       else (self, [], inl (Error "Email configuration is incomplete")).

(** C2 as the specification states it, for one sender and one world. *)
Definition failsBeforeAnyNetworkCall (w : EmailSender.World) (self : EmailSender.t)
  : Prop :=
  let r := EmailSender.sendQuoteEmail w (Some []) (lit "subject") (lit "text")
                                      (lit "html") self in
  result_of r = inl EmailSender.NoRecipientsError
  /\ networkCalls (trace_of r) = [].

(** Scenario A of the specification, with two entries that the load drops. *)
Module Fixtures.

Definition longText : str := repeat 65%N 150.

Definition platform : InterviewReader.Platform :=
  InterviewReader.mkPlatform
    (fun _ => Some (InterviewReader.mkURL (lit "x.test") (lit "/i1")))
    (fun s => s).

Definition entries : list (option InterviewReader.RawInterview) :=
  [ Some (InterviewReader.mkRaw (Some (lit "https://x.test/i1")) (Some longText));
    Some (InterviewReader.mkRaw None (Some longText));
    Some (InterviewReader.mkRaw (Some (lit "https://x.test/i2")) (Some (lit "too short")));
    None ].

Definition readerWorld : InterviewReader.World :=
  InterviewReader.mkWorld (inr (InterviewReader.ArrayOf entries))
                          (fun _ => 1000%Z) 1000%Z 1000%Z (2 ^ 52)%N.

Definition extractorWorld (reply : option str) : QuoteExtractor.World :=
  QuoteExtractor.mkWorld (fun _ => inr reply) (fun _ => None) 2000%Z.

Definition extractor : QuoteExtractor.t :=
  QuoteExtractor.mkExtractor
    (QuoteExtractor.mkConfig (Some openai) (Some (lit "sk-test"))
                             (Some (lit "gpt-4o-mini")) (Some 500%N) None)
    openai false.

Definition senderConfig : EmailSender.Config :=
  EmailSender.mkConfig (Some (lit "smtp.x.test")) 587 false
                       (Some (lit "bot@x.test")) (Some (lit "secret"))
                       (Some (lit "bot@x.test")).

Definition senderWorld : EmailSender.World :=
  EmailSender.mkWorld None (inr (lit "<message-1@x.test>")) 3000%Z.

Definition formatEmail (interview : InterviewReader.InterviewRecord)
           (quotes : list QuoteExtractor.QuoteResult) : EmailSender.EmailContent :=
  EmailSender.mkContent
    (lit "OWENSQUOTE")
    (InterviewReader.title interview ++ [LF] ++ InterviewReader.url interview
       ++ [LF] ++ concat (map QuoteExtractor.text quotes))
    (InterviewReader.title interview ++ [LF] ++ InterviewReader.url interview
       ++ [LF] ++ concat (map QuoteExtractor.text quotes)).

Definition world (reply : option str) : RickOwensQuoteBot.World :=
  RickOwensQuoteBot.mkWorld readerWorld (extractorWorld reply) senderWorld
                            (lit "reader@x.test") 0%Z 4000%Z.

Definition bot : RickOwensQuoteBot.t :=
  RickOwensQuoteBot.mkBot (Some InterviewReader.create) (Some extractor)
                          (Some (EmailSender.create senderConfig)) false.

End Fixtures.

(** A computation that submits no message. *)
Definition noSend {S A : Type} (m : M S A) : Prop :=
  forall s, sends (trace_of (m s)) = 0.

(** A computation on the bot that leaves the guard as it found it. *)
Definition keepsGuard {A : Type} (m : M RickOwensQuoteBot.t A) : Prop :=
  forall b, isRunning (state_of (m b)) = isRunning b.

(** A call of [processQuote] that ran: it returned a summary or threw. *)
Definition ranToEnd (outcome : exn + option RunResult) : Prop :=
  match outcome with
  | inl _ => True
  | inr (Some _) => True
  | inr None => False
  end.

(** Printable ASCII: the code units from space to tilde. *)
Definition printableAscii (c : char) : bool := ((32 <=? c) && (c <=? 126))%N.

(** A recipient as [getEmailRecipients] returns it: not empty, no white
    space at either end, no comma. *)
Definition tidyRecipient (email : str) : Prop :=
  email <> [] /\ startsClean email = true /\ endsClean email = true
  /\ ~ In 44%N email.

(** The reader states that the methods produce: the collection and the
    load time are both there or both missing, every record has more than
    100 code units of content, and no two records have the same id. *)
Definition wellFormed (self : InterviewReader.t) : Prop :=
  match interviews self with
  | None => lastLoadTime self = None
  | Some l =>
      lastLoadTime self <> None
      /\ Forall (fun r => 100 < length (content r)) l
      /\ NoDup (map id l)
  end.

(** The document cannot be loaded: reading or parsing it throws, or it is
    not an array. *)
Definition loadFails (w : InterviewReader.World) : bool :=
  match document w with
  | inr (ArrayOf _) => false
  | _ => true
  end.

(** The refresh that [getRandomInterview] and [getAllInterviews] start with. *)
Definition refreshed (P : Platform) (w : InterviewReader.World)
           (self : InterviewReader.t)
  : InterviewReader.t :=
  if absent self || stale self (clockCheck w)
  then state_of (loadInterviews P w self)
  else self.


(** The marker that [extractWithTransformers] looks for in the prompt. *)
Definition CONTENT_MARKER : str := lit "Interview Content:".

(** The fixed text of the prompt before the title. *)
Definition promptHead : str :=
  lit "Please extract the most meaningful and impactful quote from this Rick Owens interview. Focus on quotes that capture his philosophy, aesthetic vision, or unique perspective."
  ++ [LF; LF] ++ lit "Interview Title: ".


(** The sender once [init] has created its transport. *)
Definition withTransport (self : EmailSender.t) : EmailSender.t :=
  EmailSender.mkSender (EmailSender.config self) true (EmailSender.isConfigured self).

(** The message that a send to [recipients] submits. *)
Definition mailTo (self : EmailSender.t) (recipients : list str)
           (subject text html : str) : MailOptions :=
  mkMail (EmailSender.from (EmailSender.config self)) (EmailSender.join recipients)
         subject text html.

(** The answer of [transporter.verify()] as a result. *)
Definition verified (w : EmailSender.World) : bool :=
  match EmailSender.verify w with
  | Some _ => false
  | None => true
  end.

(** The provider kinds that the schema accepts. *)
Definition supported (p : Provider) : bool :=
  match p with
  | unsupported _ => false
  | _ => true
  end.

(** More fixtures: a reader that has loaded the fixture document, and a
    world whose document cannot be read. *)
Module Samples.

Definition loadedReader : InterviewReader.t :=
  state_of (loadInterviews Fixtures.platform Fixtures.readerWorld
                           InterviewReader.create).

Definition theRecord : InterviewRecord :=
  mkRecord (lit "interview-1") (lit "https://x.test/i1") (lit "I1")
           Fixtures.longText (lit "x.test") 1000%Z.

Definition unreadable : InterviewReader.World :=
  InterviewReader.mkWorld (inl (Thrown "Error" "ENOENT: no such file or directory"))
                          (fun _ => 0%Z) 0%Z 2000%Z 0%N.

Definition env : Config.Env :=
  Config.mkEnv openai None None None
               (Some (lit "sk-test")) (lit "gpt-4o-mini")
               None (lit "claude-3-5-haiku-20241022")
               None (lit "gemini-1.5-flash")
               (lit "http://localhost:11434/v1") (lit "qwen2.5:1.5b")
               (lit "Xenova/LaMini-Flan-T5-248M") 500
               (lit "smtp.x.test") 587 false (lit "bot@x.test") (lit "secret")
               None (lit "reader@x.test").

End Samples.

(** The same product as the Standard Library specifies the binary64
    multiplication of IEEE 754 ([SpecFloat.SFmul] with a precision of 53
    bits and the exponent bound 1024), for comparison with
    [floorOfProduct]. *)
Definition binary64 (m e : Z) : SpecFloat.spec_float :=
  SpecFloat.binary_normalize 53 1024 m e false.

(** [Math.floor] of a double that is not negative. *)
Definition floorOf (x : SpecFloat.spec_float) : option Z :=
  match x with
  | SpecFloat.S754_zero _ => Some 0%Z
  | SpecFloat.S754_finite false m e =>
      Some (if (0 <=? e)%Z then Z.pos m * 2 ^ e else Z.pos m / 2 ^ (- e))%Z
  | _ => None
  end.

Definition binary64Index (m n : N) : option Z :=
  floorOf (SpecFloat.SFmul 53 1024
             (binary64 (Z.of_N m) (-53)) (binary64 (Z.of_N n) 0)).

(* ================================================================= *)
(** ** Properties *)

(* ================================================================= *)
(** ** Facts about the string operations *)

Section StringFacts.

Lemma trimStart_suffix (s : str) : exists ws, s = ws ++ trimStart s.
Proof.
  induction s as [|c s [ws IH]]; simpl.
  - now exists [].
  - destruct (isWhiteSpace c).
    + exists (c :: ws). simpl. now f_equal.
    + now exists [].
Qed.

Lemma trimStart_length (s : str) : length (trimStart s) <= length s.
Proof.
  destruct (trimStart_suffix s) as [ws E].
  rewrite E at 2. rewrite length_app. lia.
Qed.

Lemma trimEnd_prefix (s : str) : exists ws, s = trimEnd s ++ ws.
Proof.
  unfold trimEnd. destruct (trimStart_suffix (rev s)) as [ws E].
  exists (rev ws). rewrite <- rev_app_distr, <- E. now rewrite rev_involutive.
Qed.

Lemma trimEnd_length (s : str) : length (trimEnd s) <= length s.
Proof.
  unfold trimEnd. rewrite length_rev.
  etransitivity; [apply trimStart_length|]. now rewrite length_rev.
Qed.

Lemma trim_length (s : str) : length (trim s) <= length s.
Proof.
  unfold trim. etransitivity; [apply trimEnd_length | apply trimStart_length].
Qed.

Lemma trim_In (c : char) (s : str) : In c (trim s) -> In c s.
Proof.
  unfold trim. intros H.
  destruct (trimStart_suffix s) as [a Ea].
  destruct (trimEnd_prefix (trimStart s)) as [b Eb].
  rewrite Ea, Eb. apply in_or_app. right. apply in_or_app. now left.
Qed.


Lemma trimStart_fix (s : str) : startsClean s = true -> trimStart s = s.
Proof.
  destruct s as [|c s]; simpl; [reflexivity|].
  now destruct (isWhiteSpace c).
Qed.

Lemma trimStart_startsClean (s : str) : startsClean (trimStart s) = true.
Proof.
  induction s as [|c s IH]; simpl; [reflexivity|].
  destruct (isWhiteSpace c) eqn:E; [exact IH|]. simpl. now rewrite E.
Qed.

Lemma trimEnd_fix (s : str) : endsClean s = true -> trimEnd s = s.
Proof.
  unfold endsClean, trimEnd. intros H.
  rewrite trimStart_fix by exact H. apply rev_involutive.
Qed.

Lemma trimEnd_endsClean (s : str) : endsClean (trimEnd s) = true.
Proof.
  unfold endsClean, trimEnd. rewrite rev_involutive. apply trimStart_startsClean.
Qed.

Lemma startsClean_prefix (s u : str) :
  startsClean (s ++ u) = true -> startsClean s = true.
Proof. now destruct s. Qed.

Lemma trimEnd_startsClean (s : str) :
  startsClean s = true -> startsClean (trimEnd s) = true.
Proof.
  intros H. destruct (trimEnd_prefix s) as [ws E].
  rewrite E in H. now apply startsClean_prefix in H.
Qed.

Lemma trim_startsClean (s : str) : startsClean (trim s) = true.
Proof. apply trimEnd_startsClean, trimStart_startsClean. Qed.

Lemma trim_endsClean (s : str) : endsClean (trim s) = true.
Proof. apply trimEnd_endsClean. Qed.

Lemma trim_fix (s : str) :
  startsClean s = true -> endsClean s = true -> trim s = s.
Proof.
  intros Hs He. unfold trim. rewrite (trimStart_fix s Hs). now apply trimEnd_fix.
Qed.

Lemma trim_trim (s : str) : trim (trim s) = trim s.
Proof. apply trim_fix; [apply trim_startsClean | apply trim_endsClean]. Qed.

(** *** White-space runs *)


Lemma collapseFrom_singleSpaced (b : bool) (s : str) :
  singleSpaced b (collapseFrom b s) = true.
Proof.
  revert b. induction s as [|c s IH]; intros b; simpl; [reflexivity|].
  destruct (isWhiteSpace c) eqn:E.
  - destruct b; [apply IH|].
    simpl. now rewrite IH.
  - simpl. rewrite E. apply IH.
Qed.

Lemma collapseFrom_fix (b : bool) (s : str) :
  singleSpaced b s = true -> collapseFrom b s = s.
Proof.
  revert b. induction s as [|c s IH]; intros b; simpl; [reflexivity|].
  destruct (isWhiteSpace c) eqn:E.
  - destruct b; simpl; [discriminate|].
    intros H. apply andb_prop in H as [Hc Hs].
    apply N.eqb_eq in Hc. subst c. f_equal. now apply IH.
  - intros H. f_equal. now apply IH.
Qed.

Lemma singleSpaced_weaken (b : bool) (s : str) :
  singleSpaced b s = true -> singleSpaced false s = true.
Proof.
  destruct b; [|trivial].
  destruct s as [|c s]; simpl; [trivial|].
  destruct (isWhiteSpace c); [discriminate|trivial].
Qed.

Lemma singleSpaced_suffix (b : bool) (a s : str) :
  singleSpaced b (a ++ s) = true -> singleSpaced false s = true.
Proof.
  revert b. induction a as [|c a IH]; intros b; simpl.
  - apply singleSpaced_weaken.
  - destruct (isWhiteSpace c).
    + intros H. apply andb_prop in H as [_ H]. now apply IH in H.
    + apply IH.
Qed.

Lemma singleSpaced_prefix (b : bool) (s a : str) :
  singleSpaced b (s ++ a) = true -> singleSpaced b s = true.
Proof.
  revert b. induction s as [|c s IH]; intros b; simpl; [reflexivity|].
  destruct (isWhiteSpace c).
  - intros H. apply andb_prop in H as [H1 H2]. rewrite H1. now apply IH.
  - apply IH.
Qed.

Lemma singleSpaced_trim (s : str) :
  singleSpaced false s = true -> singleSpaced false (trim s) = true.
Proof.
  intros H. unfold trim.
  destruct (trimStart_suffix s) as [a Ea].
  destruct (trimEnd_prefix (trimStart s)) as [b Eb].
  rewrite Ea in H. apply singleSpaced_suffix in H.
  rewrite Eb in H. now apply singleSpaced_prefix in H.
Qed.

Lemma collapseFrom_length (b : bool) (s : str) :
  length (collapseFrom b s) <= length s.
Proof.
  revert b. induction s as [|c s IH]; intros b; simpl; [lia|].
  pose proof (IH true). pose proof (IH false).
  destruct (isWhiteSpace c); [destruct b|]; simpl; lia.
Qed.

(** White space that survives [replaceWhitespaceRuns] is a space. *)
Lemma collapseFrom_In (b : bool) (s : str) (c : char) :
  In c (collapseFrom b s) -> isWhiteSpace c = true -> c = SPACE.
Proof.
  revert b. induction s as [|d s IH]; intros b; simpl; [tauto|].
  destruct (isWhiteSpace d) eqn:E.
  - destruct b; simpl.
    + apply IH.
    + intros [<-|H] Hc; [reflexivity|]. now apply (IH true).
  - simpl. intros [<-|H] Hc; [congruence|]. now apply (IH false).
Qed.

End StringFacts.



Section CleanQuoteFacts.

Lemma stripLeadingQuote_length (s : str) :
  length (stripLeadingQuote s) <= length s.
Proof. destruct s as [|c s]; simpl; [lia|]. destruct (isQuoteChar c); simpl; lia. Qed.

Lemma stripLeadingQuote_shorter (s : str) :
  headIsQuote s = true -> length (stripLeadingQuote s) < length s.
Proof. destruct s as [|c s]; simpl; [discriminate|]. intros ->. lia. Qed.

Lemma stripLeadingQuote_fix (s : str) :
  headIsQuote s = false -> stripLeadingQuote s = s.
Proof. destruct s as [|c s]; simpl; [reflexivity|]. now intros ->. Qed.

Lemma stripTrailingQuote_length (s : str) :
  length (stripTrailingQuote s) <= length s.
Proof.
  unfold stripTrailingQuote. rewrite length_rev.
  etransitivity; [apply stripLeadingQuote_length|]. now rewrite length_rev.
Qed.

Lemma stripTrailingQuote_shorter (s : str) :
  headIsQuote (rev s) = true -> length (stripTrailingQuote s) < length s.
Proof.
  intros H. unfold stripTrailingQuote. rewrite length_rev.
  apply stripLeadingQuote_shorter in H. now rewrite length_rev in H.
Qed.

Lemma stripTrailingQuote_fix (s : str) :
  headIsQuote (rev s) = false -> stripTrailingQuote s = s.
Proof.
  intros H. unfold stripTrailingQuote.
  rewrite stripLeadingQuote_fix by exact H. apply rev_involutive.
Qed.

Lemma stripLeadingDash_length (s : str) :
  length (stripLeadingDash s) <= length s.
Proof.
  unfold stripLeadingDash. destruct (startsWith _ s); [|lia].
  rewrite length_skipn. lia.
Qed.

Lemma stripLeadingDash_shorter (s : str) :
  startsWith [DASH; SPACE] s = true -> length (stripLeadingDash s) < length s.
Proof.
  unfold stripLeadingDash. intros H. rewrite H.
  destruct s as [|a [|b s]]; simpl in *; try discriminate.
  - now rewrite andb_false_r in H.
  - lia.
Qed.

Lemma stripLeadingDash_fix (s : str) :
  startsWith [DASH; SPACE] s = false -> stripLeadingDash s = s.
Proof. unfold stripLeadingDash. now intros ->. Qed.


Lemma cleanQuote_Some (s : str) :
  s <> [] -> cleanQuote (Some s) = Some (cleaned s).
Proof. destruct s; [congruence|reflexivity]. Qed.

Lemma cleanQuote_inv (raw : option str) (q : str) :
  cleanQuote raw = Some q -> exists s, raw = Some s /\ s <> [] /\ q = cleaned s.
Proof.
  destruct raw as [[|c s]|]; simpl; try discriminate.
  intros H. exists (c :: s). repeat split; [discriminate|].
  now injection H as <-.
Qed.

Lemma cleaned_length (s : str) :
  length (cleaned s)
  <= length (stripLeadingDash (stripTrailingQuote (stripLeadingQuote (trim s)))).
Proof.
  unfold cleaned. etransitivity; [apply trim_length|].
  apply collapseFrom_length.
Qed.

Lemma cleaned_trimmed (s : str) : trim (cleaned s) = cleaned s.
Proof. apply trim_trim. Qed.

Lemma cleaned_singleSpaced (s : str) :
  replaceWhitespaceRuns (cleaned s) = cleaned s.
Proof.
  apply collapseFrom_fix. unfold cleaned.
  apply singleSpaced_trim, collapseFrom_singleSpaced.
Qed.

(** A settled cleaned quote is a fixed point of the pipeline. *)
Lemma cleaned_settled (s : str) :
  settled (cleaned s) = true -> cleaned (cleaned s) = cleaned s.
Proof.
  unfold settled. intros H.
  apply andb_prop in H as [H Hd]. apply andb_prop in H as [H Ht].
  apply andb_prop in H as [_ Hl].
  apply negb_true_iff in Hd, Ht, Hl.
  unfold cleaned at 1.
  rewrite cleaned_trimmed, (stripLeadingQuote_fix _ Hl),
    (stripTrailingQuote_fix _ Ht), (stripLeadingDash_fix _ Hd),
    cleaned_singleSpaced.
  apply cleaned_trimmed.
Qed.

(** A cleaned quote that is not settled gets shorter. *)
Lemma cleaned_unsettled (s : str) :
  cleaned s <> [] -> settled (cleaned s) = false ->
  length (cleaned (cleaned s)) < length (cleaned s).
Proof.
  intros Hne H. set (q := cleaned s) in *.
  pose proof (cleaned_length q) as Hlen.
  unfold q in Hlen at 2. rewrite cleaned_trimmed in Hlen. fold q in Hlen.
  pose proof (stripLeadingQuote_length q).
  pose proof (stripTrailingQuote_length (stripLeadingQuote q)).
  pose proof (stripLeadingDash_length (stripTrailingQuote (stripLeadingQuote q))).
  unfold settled in H.
  destruct (headIsQuote q) eqn:Hl.
  { apply stripLeadingQuote_shorter in Hl. lia. }
  rewrite (stripLeadingQuote_fix _ Hl) in *.
  destruct (headIsQuote (rev q)) eqn:Ht.
  { apply stripTrailingQuote_shorter in Ht. lia. }
  rewrite (stripTrailingQuote_fix _ Ht) in *.
  destruct (startsWith [DASH; SPACE] q) eqn:Hd.
  { apply stripLeadingDash_shorter in Hd. lia. }
  destruct q; [congruence|]. simpl in H. discriminate.
Qed.

End CleanQuoteFacts.

(** C4, as the specification states it, fails: a reply wrapped in two pairs
    of apostrophes loses one pair per cleaning. *)
Lemma cleanQuote_not_idempotent :
  cleanQuote (cleanQuote (Some (lit "''Less is more.''")))
  <> cleanQuote (Some (lit "''Less is more.''")).
Proof. vm_compute. discriminate. Qed.

(** C4 (amended): cleaning a cleaned quote again yields the same value
    exactly when the first cleaning returned [null], or returned a non-empty
    string that has no quote character at either end and does not start with
    a dash and a space. *)
Theorem cleanQuote_idempotent_iff_settled (rawQuote : option str) :
  cleanQuote (cleanQuote rawQuote) = cleanQuote rawQuote
  <-> cleanQuote rawQuote = None
      \/ exists q, cleanQuote rawQuote = Some q /\ settled q = true.
Proof.
  destruct (cleanQuote rawQuote) as [q|] eqn:E.
  2: { split; [now left | reflexivity]. }
  apply cleanQuote_inv in E as (s & _ & _ & ->).
  split.
  - intros H. right. exists (cleaned s). split; [reflexivity|].
    destruct (cleaned s) as [|c q] eqn:Eq; [discriminate|].
    rewrite cleanQuote_Some in H by discriminate.
    injection H as H.
    destruct (settled (c :: q)) eqn:Hs; [reflexivity|exfalso].
    rewrite <- Eq in H, Hs.
    assert (Hlt : length (cleaned (cleaned s)) < length (cleaned s)).
    { apply cleaned_unsettled; [rewrite Eq; discriminate | exact Hs]. }
    rewrite H in Hlt. lia.
  - intros [H|(q & H & Hs)]; [discriminate|].
    injection H as <-.
    rewrite cleanQuote_Some.
    + f_equal. now apply cleaned_settled.
    + intros Eq. rewrite Eq in Hs. discriminate.
Qed.


Section CleanContentFacts.

Lemma replaceWhitespaceRuns_no_line_feed (s : str) :
  ~ In LF (replaceWhitespaceRuns s).
Proof.
  intros H. apply collapseFrom_In in H; [discriminate | reflexivity].
Qed.

(** Without a line feed there is no paragraph break to rewrite. *)
Lemma paragraphsFrom_no_line_feed (s : str) :
  ~ In LF s -> paragraphsFrom 0 s = s.
Proof.
  induction s as [|c s IH]; simpl; [reflexivity|].
  intros H. destruct (c =? LF)%N eqn:E.
  - apply N.eqb_eq in E. tauto.
  - f_equal. apply IH. tauto.
Qed.

(** The second [replace] of [cleanContent] never finds a match: the first
    one has turned every line feed into a space. *)
Lemma cleanContent_unfold (content : str) :
  cleanContent content
  = trim (filter printableOrNewline (replaceWhitespaceRuns content)).
Proof.
  unfold cleanContent, replaceParagraphBreaks.
  now rewrite paragraphsFrom_no_line_feed
    by apply replaceWhitespaceRuns_no_line_feed.
Qed.

Lemma cleanContent_no_line_feed (content : str) :
  ~ In LF (cleanContent content).
Proof.
  rewrite cleanContent_unfold. intros H.
  apply trim_In, filter_In in H as [H _].
  now apply replaceWhitespaceRuns_no_line_feed in H.
Qed.

(** What is left is printable ASCII. *)
Lemma cleanContent_printable (content : str) (c : char) :
  In c (cleanContent content) -> (32 <= c <= 126)%N.
Proof.
  rewrite cleanContent_unfold. intros H.
  apply trim_In, filter_In in H as [Hin Hc].
  unfold printableOrNewline in Hc.
  apply orb_prop in Hc as [Hc|Hc].
  - apply andb_prop in Hc as [H1 H2].
    apply N.leb_le in H1, H2. lia.
  - apply N.eqb_eq in Hc. subst c.
    now apply replaceWhitespaceRuns_no_line_feed in Hin.
Qed.

End CleanContentFacts.

(** C3: two paragraphs separated by blank lines come out of [cleanContent]
    joined by one space, and no cleaned content holds a line feed at all:
    the paragraph break that the cleaning is meant to keep is lost. *)
Theorem cleanContent_loses_paragraph_breaks :
  cleanContent (lit "First paragraph." ++ [LF; LF; LF] ++ lit "Second paragraph.")
  = lit "First paragraph. Second paragraph."
  /\ forall content, ~ In LF (cleanContent content).
Proof.
  split; [vm_compute; reflexivity | apply cleanContent_no_line_feed].
Qed.

Section ExtractSourceFacts.

Variable P : Platform.

Lemma startsWith_app (p s : str) : startsWith p (p ++ s) = true.
Proof.
  induction p as [|a p IH]; simpl; [reflexivity|].
  now rewrite N.eqb_refl.
Qed.

Lemma skipn_length_app (p s : str) : skipn (length p) (p ++ s) = s.
Proof. induction p; simpl; auto. Qed.

(** A leading [www.] is removed. *)
Lemma extractSource_leading_www (url host path : str) :
  parseURL P url = Some (mkURL (lit "www." ++ host) path) ->
  extractSource P url = host.
Proof. unfold extractSource. now intros ->. Qed.

Lemma replaceFirst_absent (pat rep s : str) :
  pat <> [] -> includes pat s = false -> replaceFirst pat rep s = s.
Proof.
  intros Hp. induction s as [|c s IH]; simpl.
  - destruct pat; [congruence|reflexivity].
  - intros H. apply orb_false_iff in H as [H1 H2].
    simpl in H1. rewrite H1. f_equal. now apply IH.
Qed.

(** A host name without [www.] is the source as it is. *)
Lemma extractSource_no_www (url host path : str) :
  parseURL P url = Some (mkURL host path) ->
  includes (lit "www.") host = false ->
  extractSource P url = host.
Proof.
  unfold extractSource. intros -> H. simpl hostname.
  apply replaceFirst_absent; [discriminate|exact H].
Qed.

Lemma extractSource_unparsable (url : str) :
  parseURL P url = None -> extractSource P url = lit "Unknown Source".
Proof. unfold extractSource. now intros ->. Qed.

End ExtractSourceFacts.

(** C9: for a URL whose host name is [archive.www.example.com] the source
    host is [archive.example.com]: the [www.] inside the name is removed,
    although it is not a leading one. *)
Theorem extractSource_removes_inner_www (P : Platform) (url path : str) :
  parseURL P url = Some (mkURL (lit "archive.www.example.com") path) ->
  extractSource P url = lit "archive.example.com".
Proof. unfold extractSource. now intros ->. Qed.

(** A platform whose URL parser reports that host name. *)
Lemma extractSource_removes_inner_www_witness :
  let P := mkPlatform
             (fun _ => Some (mkURL (lit "archive.www.example.com") (lit "/interviews/1")))
             (fun s => s) in
  extractSource P (lit "https://archive.www.example.com/interviews/1")
  = lit "archive.example.com".
Proof.
  intros P.
  apply (extractSource_removes_inner_www P
           (lit "https://archive.www.example.com/interviews/1")
           (lit "/interviews/1")).
  reflexivity.
Defined.


(* ----------------------------------------------------------------- *)
(** *** The double product of the random draw *)

Section RoundingFacts.

Import InterviewReader.

Local Open Scope N_scope.

(** What is dropped is less than the last kept bit is worth. *)
Lemma roundToDouble_parts (q : N) :
  let k := N.log2 q - 52 in
  0 < 2 ^ k
  /\ q = 2 ^ k * (q / 2 ^ k) + q mod 2 ^ k
  /\ q mod 2 ^ k < 2 ^ k.
Proof.
  intros k.
  assert (Hk : 2 ^ k <> 0) by (apply N.pow_nonzero; discriminate).
  split; [lia|]. split; [apply N.div_mod; exact Hk | apply N.mod_lt; exact Hk].
Qed.

(** A numerator of at most 53 bits is a double as it is. *)
Lemma roundToDouble_exact (q : N) : q < 2 ^ 53 -> roundToDouble q = q.
Proof.
  intros H. unfold roundToDouble.
  assert (Hk : N.log2 q - 52 = 0).
  { destruct (N.eq_dec q 0) as [->|Hq]; [reflexivity|].
    assert (N.log2 q < 53) by (apply N.log2_lt_pow2; lia). lia. }
  rewrite Hk. change (2 ^ 0) with 1.
  rewrite N.div_1_r, N.mod_1_r. cbn. lia.
Qed.

(** Rounding never goes below a multiple of the last kept bit that the
    numerator has reached. *)
Lemma roundToDouble_reaches (q c : N) :
  c mod 2 ^ (N.log2 q - 52) = 0 -> c <= q -> c <= roundToDouble q.
Proof.
  intros Hc Hle. unfold roundToDouble.
  destruct (roundToDouble_parts q) as (Hpos & Hq & Hlt).
  set (k := N.log2 q - 52) in *.
  set (kept := q / 2 ^ k) in *. set (dropped := q mod 2 ^ k) in *.
  assert (Hdiv : c = 2 ^ k * (c / 2 ^ k)).
  { pose proof (N.div_mod c (2 ^ k) ltac:(lia)) as E. rewrite Hc in E. lia. }
  assert (Hj : c / 2 ^ k <= kept).
  { apply N.Div0.div_le_mono. exact Hle. }
  cbv zeta.
  transitivity (kept * 2 ^ k).
  - rewrite Hdiv at 1. rewrite (N.mul_comm kept). apply N.mul_le_mono_l. exact Hj.
  - apply N.mul_le_mono_r. destruct (_ || _); lia.
Qed.

(** Rounding adds at most half of the last kept bit, which is worth less
    than [2^-53] of the numerator. *)
Lemma roundToDouble_adds (q : N) :
  exists h, roundToDouble q <= q + h /\ h * 2 ^ 53 <= q.
Proof.
  destruct (N.lt_ge_cases q (2 ^ 53)) as [Hs|Hb].
  - exists 0. rewrite (roundToDouble_exact q Hs). lia.
  - assert (Hq0 : 0 < q) by lia.
    destruct (N.log2_spec q Hq0) as [Hlo _].
    assert (Hl : 53 <= N.log2 q).
    { apply N.log2_le_pow2; [exact Hq0 | exact Hb]. }
    destruct (roundToDouble_parts q) as (Hpos & Hq & Hlt).
    unfold roundToDouble.
    set (k := N.log2 q - 52) in *.
    set (kept := q / 2 ^ k) in *. set (dropped := q mod 2 ^ k) in *.
    assert (Ek : N.log2 q = (k - 1) + 53) by lia.
    assert (E2 : 2 ^ k = 2 * 2 ^ (k - 1)).
    { replace k with (N.succ (k - 1)) at 1 by lia. apply N.pow_succ_r'. }
    exists (2 ^ (k - 1)). split.
    + cbv zeta. destruct (_ || _) eqn:Eup.
      * apply orb_prop in Eup as [Eup|Eup].
        -- apply N.ltb_lt in Eup. nia.
        -- apply andb_prop in Eup as [Eup _]. apply N.eqb_eq in Eup. nia.
      * nia.
    + rewrite Ek, N.pow_add_r in Hlo. exact Hlo.
Qed.

(** A product of two numbers below [2^53]: at most 53 bits are dropped, so
    every multiple of [2^53] is a multiple of the last kept bit. *)
Lemma roundToDouble_keeps_units (q i : N) :
  q < 2 ^ 53 * 2 ^ 53 -> (i * 2 ^ 53) mod 2 ^ (N.log2 q - 52) = 0.
Proof.
  intros H.
  assert (Hk : N.log2 q - 52 <= 53).
  { destruct (N.eq_dec q 0) as [->|Hq]; [cbn; lia|].
    assert (N.log2 q < 106).
    { apply N.log2_lt_pow2; [lia|]. rewrite <- N.pow_add_r in H. exact H. }
    lia. }
  set (k := N.log2 q - 52) in *.
  replace 53 with ((53 - k) + k) at 1 by lia.
  rewrite N.pow_add_r, N.mul_assoc. apply N.Div0.mod_mul.
Qed.


Lemma floorOfProduct_lt (m n : N) :
  m < 2 ^ 53 -> 0 < n -> floorOfProduct m n < n.
Proof.
  intros Hm Hn. unfold floorOfProduct.
  destruct (roundToDouble_adds (m * n)) as (h & Hup & Hh).
  apply N.Div0.div_lt_upper_bound.
  generalize dependent (roundToDouble (m * n)). intros q' Hup.
  generalize dependent (2 ^ 53). intros T Hm Hh.
  assert (h < n) by nia. nia.
Qed.

Lemma floorOfProduct_inside (m n i : N) :
  m < 2 ^ 53 -> n <= 2 ^ 53 ->
  i * 2 ^ 53 <= m * n -> m * n + i + 1 <= (i + 1) * 2 ^ 53 ->
  floorOfProduct m n = i.
Proof.
  intros Hm Hn Hlo Hhi. unfold floorOfProduct.
  assert (Hq : m * n < 2 ^ 53 * 2 ^ 53).
  { generalize dependent (2 ^ 53). intros. nia. }
  pose proof (roundToDouble_reaches (m * n) (i * 2 ^ 53)
                (roundToDouble_keeps_units (m * n) i Hq) Hlo) as Hreach.
  destruct (roundToDouble_adds (m * n)) as (h & Hup & Hh).
  generalize dependent (roundToDouble (m * n)). intros q' Hreach Hup.
  assert (HT : 0 < 2 ^ 53) by reflexivity.
  generalize dependent (2 ^ 53). intros T Hm Hn Hlo Hhi Hq Hh Hreach HT.
  assert (Hhi' : h <= i) by nia.
  symmetry. apply (N.div_unique q' T i (q' - T * i)); nia.
Qed.

Lemma floorOfProduct_outside (m n i : N) :
  m < 2 ^ 53 -> n <= 2 ^ 53 ->
  floorOfProduct m n = i ->
  i * 2 ^ 53 <= m * n + i /\ m * n < (i + 1) * 2 ^ 53.
Proof.
  intros Hm Hn. unfold floorOfProduct. intros Hi.
  assert (Hq : m * n < 2 ^ 53 * 2 ^ 53).
  { generalize dependent (2 ^ 53). intros. nia. }
  pose proof (fun c => roundToDouble_reaches (m * n) (c * 2 ^ 53)
                         (roundToDouble_keeps_units (m * n) c Hq)) as Hreach.
  destruct (roundToDouble_adds (m * n)) as (h & Hup & Hh).
  assert (HT : 0 < 2 ^ 53) by reflexivity.
  remember (roundToDouble (m * n)) as q' eqn:Eq'. clear Eq'.
  remember (2 ^ 53) as T eqn:ET. clear ET.
  pose proof (N.div_mod q' T ltac:(lia)) as Hdm.
  pose proof (N.mod_lt q' T ltac:(lia)) as Hlt.
  rewrite Hi in Hdm.
  remember (q' mod T) as r eqn:Er. clear Er.
  split.
  - destruct (N.le_gt_cases (i * T) (m * n)) as [Hle|Hgt]; [lia|].
    assert (h < i) by nia. nia.
  - destruct (N.lt_ge_cases (m * n) ((i + 1) * T)) as [Hl|Hge]; [exact Hl|].
    specialize (Hreach (i + 1) Hge). nia.
Qed.

(** Every index below the length is drawn for some random number. *)
Lemma floorOfProduct_every_index (n i : N) :
  i < n -> n <= 2 ^ 52 ->
  exists m, m < 2 ^ 53 /\ floorOfProduct m n = i.
Proof.
  intros Hi Hn.
  exists ((i * 2 ^ 53 + n - 1) / n).
  pose proof (N.div_mod (i * 2 ^ 53 + n - 1) n ltac:(lia)) as Hdm.
  pose proof (N.mod_lt (i * 2 ^ 53 + n - 1) n ltac:(lia)) as Hlt.
  remember ((i * 2 ^ 53 + n - 1) / n) as m eqn:Em. clear Em.
  remember ((i * 2 ^ 53 + n - 1) mod n) as r eqn:Er. clear Er.
  assert (H52 : 2 ^ 53 = 2 * 2 ^ 52) by reflexivity.
  assert (Hm : m < 2 ^ 53).
  { remember (2 ^ 53) as T. remember (2 ^ 52) as U. nia. }
  split; [exact Hm|].
  apply floorOfProduct_inside; [exact Hm | lia | |].
  - remember (2 ^ 53) as T. remember (2 ^ 52) as U. nia.
  - remember (2 ^ 53) as T. remember (2 ^ 52) as U. nia.
Qed.
End RoundingFacts.

(** On these draws, among them products that round up to the next
    integer, [floorOfProduct] is what the binary64 multiplication of the
    Standard Library gives. *)
Example floorOfProduct_is_binary64 :
  forallb (fun p => match binary64Index (fst p) (snd p) with
                    | Some z => (Z.of_N (floorOfProduct (fst p) (snd p)) =? z)%Z
                    | None => false
                    end)
          [(6004799503160661, 3); (6004799503160660, 3); (6004799503160662, 3);
           (5146971002709138, 7); (5146971002709137, 7);
           (0, 5); (1, 1000); (4503599627370496, 2); (3002399751580331, 3);
           (9007199254740991, 1); (9007199254740991, 3);
           (9007199254740991, 4294967295); (9007199254740990, 4294967295);
           (8106479329266893, 10); (7205759403792794, 5);
           (1234567890123456, 1000003)]%N
  = true.
Proof. vm_compute. reflexivity. Qed.

(** A product just below 2 is rounded to 2, so index 2 is drawn where the
    exact product would give index 1. *)
Example floorOfProduct_rounds_up :
  InterviewReader.floorOfProduct 6004799503160661 3 = 2%N
  /\ (6004799503160661 * 3 / 2 ^ 53 = 1)%N.
Proof. split; vm_compute; reflexivity. Qed.


Section LoadFacts.

Variable P : Platform.

Lemma filter_filter {A : Type} (p q : A -> bool) (l : list A) :
  filter q (filter p l) = filter (fun a => p a && q a) l.
Proof.
  induction l as [|a l IH]; simpl; [reflexivity|].
  destruct (p a); simpl; [destruct (q a)|]; now rewrite IH.
Qed.

Lemma filter_complement_length {A : Type} (p : A -> bool) (l : list A) :
  length (filter (fun a => negb (p a)) l) = length l - length (filter p l).
Proof.
  induction l as [|a l IH]; [reflexivity|].
  pose proof (filter_length_le p l).
  cbn [filter]. destruct (p a); cbn [negb length]; lia.
Qed.

(** Filtering and projecting the indexed map, when neither looks at the
    index. *)
Lemma mapIndexed_filter_map {A B C : Type} (f : A -> nat -> B)
      (keep : B -> bool) (proj : B -> C)
      (keep' : A -> bool) (proj' : A -> C) (i : nat) (l : list A) :
  (forall a j, keep (f a j) = keep' a) ->
  (forall a j, proj (f a j) = proj' a) ->
  map proj (filter keep (mapIndexed f i l)) = map proj' (filter keep' l).
Proof.
  intros Hk Hp. revert i.
  induction l as [|a l IH]; intros i; simpl; [reflexivity|].
  rewrite Hk. destruct (keep' a); simpl; now rewrite ?Hp, IH.
Qed.

Lemma buildCollection_long (clock : nat -> Z) (data : list (option RawInterview)) :
  Forall (fun r => 100 < length (content r)) (buildCollection P clock data).
Proof.
  apply Forall_forall. intros r H.
  apply filter_In in H as [_ H]. now apply Nat.ltb_lt in H.
Qed.

Lemma buildCollection_entries (clock : nat -> Z) (data : list (option RawInterview)) :
  map (fun r => (url r, content r)) (buildCollection P clock data)
  = map (fun e => (urlOf e, cleanContent (textOf e)))
        (filter (fun e => negb (excluded e)) data).
Proof.
  unfold buildCollection.
  rewrite (mapIndexed_filter_map (toRecord P clock) longEnough
             (fun r => (url r, content r))
             (fun e => 100 <? length (cleanContent (textOf e)))
             (fun e => (urlOf e, cleanContent (textOf e))))
    by reflexivity.
  rewrite filter_filter. f_equal.
  apply filter_ext. intros e. unfold excluded.
  rewrite negb_orb, negb_involutive. f_equal.
  now rewrite Nat.ltb_antisym.
Qed.

Lemma buildCollection_count (clock : nat -> Z) (data : list (option RawInterview)) :
  length (buildCollection P clock data)
  = length data - length (filter (excluded) data).
Proof.
  rewrite <- filter_complement_length.
  rewrite <- (length_map (fun r => (url r, content r))).
  rewrite buildCollection_entries. apply length_map.
Qed.

Lemma loadInterviews_array (w : InterviewReader.World) (self : InterviewReader.t)
      (data : list (option RawInterview)) :
  document w = inr (ArrayOf data) ->
  loadInterviews P w self
  = (mkReader (Some (buildCollection P (clockRecord w) data)) (Some (clockLoad w)),
     [FsReadFile],
     inr (buildCollection P (clockRecord w) data)).
Proof. unfold loadInterviews, bind, call. now intros ->. Qed.

Lemma randomIndex_lt (w : InterviewReader.World) (n : nat) :
  (random53 w < 2 ^ 53)%N -> 0 < n -> randomIndex w n < n.
Proof.
  intros Hr Hn. unfold randomIndex.
  pose proof (floorOfProduct_lt (random53 w) (N.of_nat n) Hr ltac:(lia)).
  lia.
Qed.

Lemma drawn_In (w : InterviewReader.World) (l : list InterviewRecord)
      (r : InterviewRecord) :
  (random53 w < 2 ^ 53)%N -> drawn w l = inr r -> In r l.
Proof.
  intros Hr. destruct l as [|d l]; [discriminate|].
  unfold drawn. intros H. injection H as H. rewrite <- H.
  apply (nth_In (d :: l)). apply randomIndex_lt; [exact Hr | simpl; lia].
Qed.

End LoadFacts.

(** C5: loading a document that is an array keeps, in order, exactly the
    entries that have [url] and [text] and whose cleaned text is longer than
    100 code units; every kept record is that long, and the number kept is
    the number of entries minus the number excluded. *)
Theorem loadInterviews_excludes_incomplete_and_short
        (P : Platform) (w : InterviewReader.World) (self : InterviewReader.t)
        (data : list (option RawInterview)) :
  document w = inr (ArrayOf data) ->
  exists loaded,
    result_of (loadInterviews P w self) = inr loaded
    /\ interviews (state_of (loadInterviews P w self)) = Some loaded
    /\ Forall (fun r => 100 < length (content r)) loaded
    /\ map (fun r => (url r, content r)) loaded
       = map (fun e => (urlOf e, cleanContent (textOf e)))
             (filter (fun e => negb (excluded e)) data)
    /\ length loaded = length data - length (filter (excluded) data).
Proof.
  intros H. exists (buildCollection P (clockRecord w) data).
  rewrite (loadInterviews_array P w self data H).
  repeat split.
  - apply buildCollection_long.
  - apply buildCollection_entries.
  - apply buildCollection_count.
Qed.

(** The fixture document has four entries; one is kept. *)
Lemma loadInterviews_excludes_incomplete_and_short_witness :
  exists loaded,
    result_of (loadInterviews Fixtures.platform Fixtures.readerWorld
                              InterviewReader.create) = inr loaded
    /\ length loaded = 1.
Proof.
  destruct (loadInterviews_excludes_incomplete_and_short
              Fixtures.platform Fixtures.readerWorld InterviewReader.create
              Fixtures.entries eq_refl)
    as (loaded & Hres & _ & _ & _ & Hlen).
  exists loaded. split; [exact Hres|].
  rewrite Hlen. vm_compute. reflexivity.
Defined.


Section RandomFacts.

Variable P : Platform.

Lemma reload_condition (self : InterviewReader.t) (nowMs : Z) :
  absent self || stale self nowMs = true
  <-> interviews self = None \/ (nowMs - lastLoadOrZero self > 300000)%Z.
Proof.
  unfold absent, stale, lastLoadOrZero.
  destruct (interviews self) as [l|]; simpl.
  - rewrite Z.gtb_gt. split; [now right | now intros [H|H]].
  - split; [now left | reflexivity].
Qed.

(** The index [i] is drawn for the random numbers of [[i/n, (i+1)/n)],
    up to the rounding of the product: for all of them but those within
    [(i+1) / 2^53] of the upper end, and for none outside but those within
    [i / 2^53] of the lower end (numerators over [2^53], times [n]). *)
Lemma randomIndex_inside (w : InterviewReader.World) (n i : nat) :
  (random53 w < 2 ^ 53)%N -> (N.of_nat n <= 2 ^ 53)%N ->
  (N.of_nat i * 2 ^ 53 <= random53 w * N.of_nat n)%N ->
  (random53 w * N.of_nat n + N.of_nat i + 1 <= (N.of_nat i + 1) * 2 ^ 53)%N ->
  randomIndex w n = i.
Proof.
  intros Hr Hn Hlo Hhi. unfold randomIndex.
  rewrite (floorOfProduct_inside _ _ (N.of_nat i) Hr Hn Hlo Hhi).
  apply Nat2N.id.
Qed.

Lemma randomIndex_outside (w : InterviewReader.World) (n i : nat) :
  (random53 w < 2 ^ 53)%N -> (N.of_nat n <= 2 ^ 53)%N ->
  randomIndex w n = i ->
  (N.of_nat i * 2 ^ 53 <= random53 w * N.of_nat n + N.of_nat i)%N
  /\ (random53 w * N.of_nat n < (N.of_nat i + 1) * 2 ^ 53)%N.
Proof.
  intros Hr Hn Hi. unfold randomIndex in Hi.
  apply (floorOfProduct_outside _ _ (N.of_nat i) Hr Hn).
  rewrite <- Hi. symmetry. apply N2Nat.id.
Qed.

Lemma randomIndex_every_index (n i : nat) :
  i < n -> (N.of_nat n <= 2 ^ 52)%N ->
  exists m, (m < 2 ^ 53)%N
            /\ forall w : InterviewReader.World,
                 random53 w = m -> randomIndex w n = i.
Proof.
  intros Hi Hn.
  destruct (floorOfProduct_every_index (N.of_nat n) (N.of_nat i)
              ltac:(lia) Hn) as (m & Hm & E).
  exists m. split; [exact Hm|].
  intros w Hw. unfold randomIndex. rewrite Hw, E. apply Nat2N.id.
Qed.

Lemma drawn_nth_error (w : InterviewReader.World) (l : list InterviewRecord) :
  (random53 w < 2 ^ 53)%N ->
  match l with
  | [] => inl (Error "No interviews available")
  | _ :: _ =>
      match nth_error l (randomIndex w (length l)) with
      | Some r => inr r
      | None => inl (TypeError "Cannot read properties of undefined")
      end
  end = drawn w l.
Proof.
  intros Hr. destruct l as [|d l]; [reflexivity|].
  unfold drawn.
  rewrite (nth_error_nth' (d :: l) d); [reflexivity|].
  apply randomIndex_lt; [exact Hr | simpl; lia].
Qed.

Lemma getRandomInterview_fresh (w : InterviewReader.World) (self : InterviewReader.t) :
  (random53 w < 2 ^ 53)%N ->
  absent self || stale self (clockCheck w) = false ->
  getRandomInterview P w self = (self, [], drawn w (collection self)).
Proof.
  intros Hr H. unfold getRandomInterview, bind, get, ret. cbn beta iota. rewrite H. simpl.
  rewrite <- (drawn_nth_error w (collection self) Hr). unfold collection.
  destruct (interviews self) as [[|d l]|]; try reflexivity.
  unfold throw.
  destruct (nth_error (d :: l) (randomIndex w (length (d :: l)))); reflexivity.
Qed.

Lemma getRandomInterview_reload (w : InterviewReader.World) (self : InterviewReader.t) :
  (random53 w < 2 ^ 53)%N ->
  absent self || stale self (clockCheck w) = true ->
  getRandomInterview P w self
  = match document w with
    | inl e => (self, [FsReadFile], inl e)
    | inr NotAnArray =>
        (self, [FsReadFile],
         inl (Error "Interview data must be an array of objects"))
    | inr (ArrayOf data) =>
        let l := buildCollection P (clockRecord w) data in
        (mkReader (Some l) (Some (clockLoad w)), [FsReadFile], drawn w l)
    end.
Proof.
  intros Hr H. unfold getRandomInterview, bind, get. rewrite H.
  unfold loadInterviews, bind, call, throw, modify, ret.
  destruct (document w) as [e|[|data]]; try reflexivity.
  cbn zeta. cbn [interviews app].
  rewrite <- (drawn_nth_error w (buildCollection P (clockRecord w) data) Hr).
  destruct (buildCollection P (clockRecord w) data) as [|d l]; [reflexivity|].
  destruct (nth_error (d :: l) (randomIndex w (length (d :: l)))); reflexivity.
Qed.

End RandomFacts.

(** C6: [getRandomInterview] reloads first when the collection is absent or
    was loaded more than 300000 ms ago, and an error of the reload is the
    error of the call; from the collection it then has it fails with
    [No interviews available] when that is empty and otherwise returns the
    record at index [floor(Math.random() * length)], a member of the
    collection.  The product is the double product, so the draw is uniform
    up to its rounding: for a collection of [n] records (no more than
    [2^53], as every array) index [i] is drawn for every random number of
    [[i/n, (i+1)/n)] that is not within [(i+1) / (n * 2^53)] of the upper
    end, and for none outside but those within [i / (n * 2^53)] of the
    lower end; and every index is drawn for some random number. *)
Theorem getRandomInterview_reloads_when_stale_then_draws
        (P : Platform) (w : InterviewReader.World) (self : InterviewReader.t) :
  (random53 w < 2 ^ 53)%N ->
  (absent self || stale self (clockCheck w) = true
   <-> interviews self = None
       \/ (clockCheck w - lastLoadOrZero self > 300000)%Z)
  /\ getRandomInterview P w self
     = (if absent self || stale self (clockCheck w)
        then
          match document w with
          | inl e => (self, [FsReadFile], inl e)
          | inr NotAnArray =>
              (self, [FsReadFile],
               inl (Error "Interview data must be an array of objects"))
          | inr (ArrayOf data) =>
              let l := buildCollection P (clockRecord w) data in
              (mkReader (Some l) (Some (clockLoad w)), [FsReadFile], drawn w l)
          end
        else (self, [], drawn w (collection self)))
  /\ drawn w [] = inl (Error "No interviews available")
  /\ (forall l r, drawn w l = inr r -> In r l)
  /\ (forall n i,
         (N.of_nat n <= 2 ^ 53)%N ->
         ((N.of_nat i * 2 ^ 53 <= random53 w * N.of_nat n)%N
          /\ (random53 w * N.of_nat n + N.of_nat i + 1
              <= (N.of_nat i + 1) * 2 ^ 53)%N ->
          randomIndex w n = i)
         /\ (randomIndex w n = i ->
             (N.of_nat i * 2 ^ 53 <= random53 w * N.of_nat n + N.of_nat i)%N
             /\ (random53 w * N.of_nat n < (N.of_nat i + 1) * 2 ^ 53)%N))
  /\ (forall n i,
         i < n -> (N.of_nat n <= 2 ^ 52)%N ->
         exists m, (m < 2 ^ 53)%N
                   /\ forall w' : InterviewReader.World,
                        random53 w' = m -> randomIndex w' n = i).
Proof.
  intros Hr. split; [apply reload_condition|]. split.
  - destruct (absent self || stale self (clockCheck w)) eqn:E.
    + now apply getRandomInterview_reload.
    + now apply getRandomInterview_fresh.
  - split; [reflexivity|]. split; [|split].
    + intros l r. now apply drawn_In.
    + intros n i Hn. split.
      * intros [Hlo Hhi]. now apply randomIndex_inside.
      * now apply randomIndex_outside.
    + apply randomIndex_every_index.
Qed.

(** A reader that has not loaded yet reloads and draws the one record. *)
Lemma getRandomInterview_reloads_when_stale_then_draws_witness :
  exists r,
    result_of (getRandomInterview Fixtures.platform Fixtures.readerWorld
                                  InterviewReader.create) = inr r
    /\ InterviewReader.url r = lit "https://x.test/i1".
Proof.
  destruct (getRandomInterview_reloads_when_stale_then_draws
              Fixtures.platform Fixtures.readerWorld InterviewReader.create)
    as (_ & Hrun & _).
  - vm_compute. reflexivity.
  - rewrite Hrun. vm_compute. eexists. split; reflexivity.
Defined.

(** C10: the zeroed summary is what [getStats] returns exactly when the
    collection was never loaded; exactly for a loaded collection without
    records the count is 0 and the mean is [0 / 0], and exactly then the
    mean is not a finite number. *)
Theorem getStats_empty_collection_mean_is_NaN (self : InterviewReader.t) :
  (getStats self = mkStats 0 (Finite 0) None None <-> interviews self = None)
  /\ (total (getStats self) = 0 /\ averageLength (getStats self) = NaN
      <-> interviews self = Some [])
  /\ (isFinite (averageLength (getStats self)) = false
      <-> interviews self = Some []).
Proof.
  unfold getStats. destruct (interviews self) as [[|r l]|]; simpl.
  - repeat split; try discriminate; reflexivity.
  - repeat split; try discriminate; try reflexivity.
    intros [H _]. discriminate.
  - repeat split; try discriminate; try reflexivity.
    intros [_ H]. discriminate.
Qed.


Section ExtractQuotesFacts.

Lemma strEq_eq (a b : str) : strEq a b = true <-> a = b.
Proof.
  revert b. induction a as [|x a IH]; intros [|y b]; simpl;
    try (split; [discriminate | congruence]); [tauto|].
  rewrite andb_true_iff, N.eqb_eq, IH.
  split; [intros [-> ->]; reflexivity | intros H; injection H; auto].
Qed.

Lemma extractQuotes_unfold (w : QuoteExtractor.World) (content title : str)
      (self self' : QuoteExtractor.t) (tr : list effect) (response : option str) :
  backendReply w (buildPrompt content title) self = (self', tr, inr response) ->
  extractQuotes w content title self
  = (self', tr,
     inr match cleanQuote response with
         | Some (c :: q) =>
             if strEq (c :: q) ERROR_NO_QUOTE then None
             else Some [mkQuote (c :: q) (provider self') (now w)]
         | _ => None
         end).
Proof.
  intros H. unfold extractQuotes, bind. rewrite H. unfold get.
  destruct (cleanQuote response) as [[|c q]|]; cbn -[strEq ERROR_NO_QUOTE];
    rewrite ?app_nil_r; try reflexivity.
  destruct (strEq (c :: q) ERROR_NO_QUOTE); cbn; now rewrite app_nil_r.
Qed.

Lemma hostedOnly_extractQuotes_unfold
      (w : QuoteExtractor.World) (content title : str)
      (self self' : QuoteExtractor.t) (tr : list effect) (response : option str) :
  QuoteExtractorHostedOnly.backendReply
    w (QuoteExtractorHostedOnly.buildPrompt content title) self
  = (self', tr, inr response) ->
  QuoteExtractorHostedOnly.extractQuotes w content title self
  = (self', tr,
     match cleanQuote response with
     | Some (c :: q) => inr [mkQuote (c :: q) (provider self') (now w)]
     | _ => inl (Error "No valid quote extracted from response")
     end).
Proof.
  intros H. unfold QuoteExtractorHostedOnly.extractQuotes, bind. rewrite H.
  unfold get.
  destruct (cleanQuote response) as [[|c q]|]; cbn; now rewrite app_nil_r.
Qed.

End ExtractQuotesFacts.

(** C1: the two revisions of [quote-extractor.js] differ.  In the
    five-provider revision, when the backend has replied and the cleaned
    reply is [null], empty or the sentinel [ERROR_NO_QUOTE], [extractQuotes]
    returns [null] and does not throw, and whatever the reply, no returned
    quote has the sentinel or the empty string as its text.  The
    three-provider revision knows no sentinel: when its backend has
    replied, a cleaned reply that is [null] or empty makes [extractQuotes]
    throw [No valid quote extracted from response], and every other cleaned
    reply, the sentinel included, is returned as the text of one quote. *)
Theorem extractQuotes_sentinel_by_revision
        (w : QuoteExtractor.World) (content title : str)
        (self self' : QuoteExtractor.t) (tr : list effect) (response : option str) :
  (backendReply w (buildPrompt content title) self = (self', tr, inr response) ->
   (cleanQuote response = None \/ cleanQuote response = Some []
    \/ cleanQuote response = Some ERROR_NO_QUOTE ->
    extractQuotes w content title self = (self', tr, inr None))
   /\ (forall qs q,
          result_of (extractQuotes w content title self) = inr (Some qs) ->
          In q qs ->
          QuoteExtractor.text q <> ERROR_NO_QUOTE /\ QuoteExtractor.text q <> []))
  /\ (QuoteExtractorHostedOnly.backendReply
        w (QuoteExtractorHostedOnly.buildPrompt content title) self
      = (self', tr, inr response) ->
      (cleanQuote response = None \/ cleanQuote response = Some [] ->
       QuoteExtractorHostedOnly.extractQuotes w content title self
       = (self', tr, inl (Error "No valid quote extracted from response")))
      /\ (forall q,
             cleanQuote response = Some q -> q <> [] ->
             QuoteExtractorHostedOnly.extractQuotes w content title self
             = (self', tr, inr [mkQuote q (provider self') (now w)]))).
Proof.
  split.
  - intros H.
    rewrite (extractQuotes_unfold w content title self self' tr response H).
    split.
    + intros [E|[E|E]]; rewrite E; reflexivity.
    + intros qs q. unfold result_of. cbn [snd].
      destruct (cleanQuote response) as [[|c s]|]; try discriminate.
      destruct (strEq (c :: s) ERROR_NO_QUOTE) eqn:E; [discriminate|].
      intros Hq Hin. injection Hq as <-. destruct Hin as [<-|[]].
      cbn [QuoteExtractor.text].
      split; [|discriminate].
      intros Hs. apply strEq_eq in Hs. congruence.
  - intros H.
    rewrite (hostedOnly_extractQuotes_unfold w content title self self' tr response H).
    split.
    + intros [E|E]; rewrite E; reflexivity.
    + intros q E Hq. rewrite E. destruct q as [|c q]; [congruence | reflexivity].
Qed.

(** The backend answers with the sentinel between two spaces: the
    five-provider revision returns [null], the three-provider revision a
    quote whose text is the sentinel. *)
Lemma extractQuotes_sentinel_by_revision_witness :
  extractQuotes (Fixtures.extractorWorld (Some (lit " ERROR_NO_QUOTE ")))
                Fixtures.longText (lit "Title") Fixtures.extractor
  = (Fixtures.extractor,
     [ProviderCall (request Fixtures.extractor
                            (buildPrompt Fixtures.longText (lit "Title")))],
     inr None)
  /\ QuoteExtractorHostedOnly.extractQuotes
       (Fixtures.extractorWorld (Some (lit " ERROR_NO_QUOTE ")))
       Fixtures.longText (lit "Title") Fixtures.extractor
     = (Fixtures.extractor,
        [ProviderCall
           (request Fixtures.extractor
                    (QuoteExtractorHostedOnly.buildPrompt Fixtures.longText
                                                          (lit "Title")))],
        inr [mkQuote ERROR_NO_QUOTE openai 2000%Z]).
Proof.
  split.
  - destruct (extractQuotes_sentinel_by_revision
                (Fixtures.extractorWorld (Some (lit " ERROR_NO_QUOTE ")))
                Fixtures.longText (lit "Title") Fixtures.extractor
                Fixtures.extractor
                [ProviderCall (request Fixtures.extractor
                                       (buildPrompt Fixtures.longText (lit "Title")))]
                (Some (lit " ERROR_NO_QUOTE "))) as [Hnew _].
    destruct (Hnew eq_refl) as [Habsent _].
    apply Habsent. right. right. vm_compute. reflexivity.
  - destruct (extractQuotes_sentinel_by_revision
                (Fixtures.extractorWorld (Some (lit " ERROR_NO_QUOTE ")))
                Fixtures.longText (lit "Title") Fixtures.extractor
                Fixtures.extractor
                [ProviderCall
                   (request Fixtures.extractor
                            (QuoteExtractorHostedOnly.buildPrompt
                               Fixtures.longText (lit "Title")))]
                (Some (lit " ERROR_NO_QUOTE "))) as [_ Hold].
    destruct (Hold eq_refl) as [_ Hquote].
    apply (Hquote ERROR_NO_QUOTE); [vm_compute; reflexivity | discriminate].
Defined.

(** The claim as it is stated fails on the three-provider revision: the
    sentinel as reply comes back as a quote, and a blank reply is an error,
    not an absent result. *)
Remark hostedOnly_extractQuotes_has_no_sentinel :
  result_of (QuoteExtractorHostedOnly.extractQuotes
               (Fixtures.extractorWorld (Some (lit "ERROR_NO_QUOTE")))
               Fixtures.longText (lit "Title") Fixtures.extractor)
  = inr [mkQuote ERROR_NO_QUOTE openai 2000%Z]
  /\ result_of (QuoteExtractorHostedOnly.extractQuotes
                  (Fixtures.extractorWorld (Some (lit "   ")))
                  Fixtures.longText (lit "Title") Fixtures.extractor)
     = inl (Error "No valid quote extracted from response").
Proof. split; vm_compute; reflexivity. Qed.

Section SendFacts.

Import EmailSender.

Lemma init_outcome (w : EmailSender.World) (self : EmailSender.t) :
  init w self
  = if isConfigured self
    then (mkSender (config self) true true,
          [SmtpCreateTransport; SmtpVerify],
          match verify w with
          | Some e => inl e
          | None => inr tt
          end)
    else (self, [], inl (Error "Email configuration is incomplete")).
Proof.
  unfold init, bind, get, call, modify, throw.
  destruct (isConfigured self) eqn:E; cbn; [|reflexivity].
  now rewrite E.
Qed.

Lemma sendQuoteEmail_no_recipients (w : EmailSender.World)
      (recipients : option (list str)) (subject text html : str)
      (self : EmailSender.t) :
  noRecipients recipients = true ->
  sendQuoteEmail w recipients subject text html self
  = emptyRecipientsOutcome w self.
Proof.
  intros H. unfold sendQuoteEmail, emptyRecipientsOutcome, bind, get.
  cbn beta iota. rewrite H.
  destruct (transporter self); [reflexivity|].
  rewrite init_outcome.
  destruct (isConfigured self); [|reflexivity].
  destruct (verify w); reflexivity.
Qed.

Lemma sendQuote_no_recipients (build : QuoteData -> EmailContent)
      (w : EmailSender.World) (quoteData : QuoteData)
      (recipients : option (list str)) (self : EmailSender.t) :
  noRecipients recipients = true ->
  sendQuote build w quoteData recipients self = emptyRecipientsOutcome w self.
Proof.
  intros H. unfold sendQuote, emptyRecipientsOutcome, bind, get.
  cbn beta iota. rewrite H.
  destruct (transporter self); [reflexivity|].
  rewrite init_outcome.
  destruct (isConfigured self); [|reflexivity].
  destruct (verify w); reflexivity.
Qed.

Lemma emptyRecipientsOutcome_never_sends (w : EmailSender.World)
      (self : EmailSender.t) :
  sends (trace_of (emptyRecipientsOutcome w self)) = 0
  /\ exists e, result_of (emptyRecipientsOutcome w self) = inl e.
Proof.
  unfold emptyRecipientsOutcome.
  destruct (transporter self); [|destruct (isConfigured self)];
    split; try reflexivity; eexists; reflexivity.
Qed.

End SendFacts.

(** C2, as the specification states it, fails: a configured sender that has
    not sent before creates its transport and verifies the connection, and
    only then finds the recipient list empty. *)
Lemma send_without_recipients_verifies_first :
  ~ failsBeforeAnyNetworkCall Fixtures.senderWorld
      (EmailSender.create Fixtures.senderConfig).
Proof.
  unfold failsBeforeAnyNetworkCall. intros [_ H].
  vm_compute in H. discriminate.
Qed.

(** C2 (amended): a send without recipients never submits a message and
    always throws.  With the transport already in place it throws
    [No recipients specified] without any call.  Otherwise [init] runs
    first: an incomplete configuration is the error, without any call; a
    complete one creates the transport and verifies the connection, and the
    error is that of the verification if it fails and
    [No recipients specified] if it succeeds.  [sendQuote] and
    [sendQuoteEmail] agree in this. *)
Theorem send_without_recipients
        (build : EmailSender.QuoteData -> EmailSender.EmailContent)
        (w : EmailSender.World) (recipients : option (list str))
        (subject text html : str) (quoteData : EmailSender.QuoteData)
        (self : EmailSender.t) :
  EmailSender.noRecipients recipients = true ->
  EmailSender.sendQuoteEmail w recipients subject text html self
  = emptyRecipientsOutcome w self
  /\ EmailSender.sendQuote build w quoteData recipients self
     = emptyRecipientsOutcome w self
  /\ sends (trace_of (emptyRecipientsOutcome w self)) = 0
  /\ (exists e, result_of (emptyRecipientsOutcome w self) = inl e)
  /\ (EmailSender.transporter self = true ->
      emptyRecipientsOutcome w self = (self, [], inl EmailSender.NoRecipientsError)).
Proof.
  intros H. split; [now apply sendQuoteEmail_no_recipients|].
  split; [now apply sendQuote_no_recipients|].
  split; [apply emptyRecipientsOutcome_never_sends|].
  split; [apply emptyRecipientsOutcome_never_sends|].
  unfold emptyRecipientsOutcome. now intros ->.
Qed.

(** A fresh, configured sender and an empty list. *)
Lemma send_without_recipients_witness :
  EmailSender.sendQuoteEmail Fixtures.senderWorld (Some [])
    (lit "subject") (lit "text") (lit "html")
    (EmailSender.create Fixtures.senderConfig)
  = (EmailSender.mkSender Fixtures.senderConfig true true,
     [SmtpCreateTransport; SmtpVerify],
     inl EmailSender.NoRecipientsError).
Proof.
  apply (send_without_recipients
           (fun _ => EmailSender.mkContent [] [] [])
           Fixtures.senderWorld (Some []) (lit "subject") (lit "text") (lit "html")
           (EmailSender.mkQuoteData [] [] [])
           (EmailSender.create Fixtures.senderConfig)).
  reflexivity.
Defined.

Section TraceFacts.

Lemma sends_app (t1 t2 : list effect) : sends (t1 ++ t2) = sends t1 + sends t2.
Proof. unfold sends. now rewrite filter_app, length_app. Qed.


Lemma noSend_ret {S A : Type} (a : A) : noSend (@ret S A a).
Proof. intros s. reflexivity. Qed.

Lemma noSend_throw {S A : Type} (e : exn) : noSend (@throw S A e).
Proof. intros s. reflexivity. Qed.

Lemma noSend_get {S : Type} : noSend (@get S).
Proof. intros s. reflexivity. Qed.

Lemma noSend_modify {S : Type} (f : S -> S) : noSend (modify f).
Proof. intros s. reflexivity. Qed.

Lemma noSend_call {S A : Type} (e : effect) (answer : exn + A) :
  isSend e = false -> noSend (@call S A e answer).
Proof. intros H s. unfold call, sends, trace_of. simpl. now rewrite H. Qed.

Lemma noSend_bind {S A B : Type} (m : M S A) (k : A -> M S B) :
  noSend m -> (forall a, noSend (k a)) -> noSend (bind m k).
Proof.
  intros Hm Hk s. unfold bind. specialize (Hm s).
  destruct (m s) as [[s1 t1] [e|a]]; [exact Hm|].
  specialize (Hk a s1). destruct (k a s1) as [[s2 t2] r2].
  unfold trace_of in *. simpl in *. rewrite sends_app. lia.
Qed.

End TraceFacts.

Create HintDb nosend.
#[local] Hint Resolve noSend_ret noSend_throw noSend_get noSend_modify
  noSend_bind : nosend.

Section ServiceFacts.

Variable P : Platform.

Lemma loadInterviews_noSend (w : InterviewReader.World) :
  noSend (loadInterviews P w).
Proof.
  unfold loadInterviews. apply noSend_bind.
  - now apply noSend_call.
  - intros [|entries]; auto with nosend.
Qed.

Lemma getRandomInterview_noSend (w : InterviewReader.World) :
  noSend (getRandomInterview P w).
Proof.
  unfold getRandomInterview.
  apply noSend_bind; [auto with nosend|]. intros self.
  apply noSend_bind.
  - destruct (absent self || stale self (clockCheck w)); auto with nosend.
    apply noSend_bind; [apply loadInterviews_noSend | auto with nosend].
  - intros _. apply noSend_bind; [auto with nosend|]. intros self'.
    destruct (interviews self') as [[|d l]|]; auto with nosend.
    destruct (nth_error _ _); auto with nosend.
Qed.

Lemma backendReply_noSend (w : QuoteExtractor.World) (prompt : str) :
  noSend (backendReply w prompt).
Proof.
  unfold backendReply.
  apply noSend_bind; [auto with nosend|]. intros self.
  destruct (provider self);
    unfold extractWithHosted, extractWithOllama, extractWithTransformers;
    auto with nosend.
  all: apply noSend_bind; [auto with nosend|]; intros self'.
  1-4: now apply noSend_call.
  apply noSend_bind.
  - destruct (transformersPipeline self'); auto with nosend.
    apply noSend_bind; [now apply noSend_call | auto with nosend].
  - intros _. apply noSend_bind; [now apply noSend_call | auto with nosend].
Qed.

Lemma extractQuotes_noSend (w : QuoteExtractor.World) (content title : str) :
  noSend (extractQuotes w content title).
Proof.
  unfold extractQuotes.
  apply noSend_bind; [apply backendReply_noSend|]. intros response.
  apply noSend_bind; [auto with nosend|]. intros self.
  destruct (negb (truthy (cleanQuote response)) || isSentinel (cleanQuote response));
    auto with nosend.
  destruct (cleanQuote response); auto with nosend.
Qed.

(** A send submits at most one message, and exactly one when it returns
    a receipt. *)
Lemma sendQuoteEmail_sends (w : EmailSender.World) (recipients : option (list str))
      (subject text html : str) (self : EmailSender.t) :
  let r := EmailSender.sendQuoteEmail w recipients subject text html self in
  sends (trace_of r) <= 1
  /\ (forall receipt, result_of r = inr receipt -> sends (trace_of r) = 1).
Proof.
  destruct (EmailSender.noRecipients recipients) eqn:E.
  - rewrite (sendQuoteEmail_no_recipients w recipients subject text html self E).
    destruct (emptyRecipientsOutcome_never_sends w self) as [H0 [e He]].
    cbn zeta. split; [lia|]. intros receipt. rewrite He. discriminate.
  - unfold EmailSender.sendQuoteEmail, bind, get. cbn beta iota zeta.
    rewrite E.
    destruct (EmailSender.transporter self).
    + unfold ret, call. cbn.
      destruct (EmailSender.sendMail w); cbn; split;
        try lia; try discriminate; reflexivity.
    + rewrite init_outcome.
      destruct (EmailSender.isConfigured self); cbn.
      2: { split; [lia | discriminate]. }
      destruct (EmailSender.verify w); cbn.
      { split; [lia | discriminate]. }
      unfold ret, call.
      destruct (EmailSender.sendMail w); cbn; split;
        try lia; try discriminate; reflexivity.
Qed.

End ServiceFacts.



Section BotFacts.

Variable P : Platform.
Variable formatEmail :
  InterviewRecord -> list QuoteExtractor.QuoteResult -> EmailSender.EmailContent.

#[local] Abbreviation fetchInterview := (fetchInterview P).
#[local] Abbreviation deliver := (deliver formatEmail).
#[local] Abbreviation processQuote := (processQuote P formatEmail).
#[local] Abbreviation resume := (resume P formatEmail).
#[local] Abbreviation resumeN := (resumeN P formatEmail).
#[local] Abbreviation callThenResume := (callThenResume P formatEmail).

Lemma keepsGuard_ret {A : Type} (a : A) : keepsGuard (ret a).
Proof. intros b. reflexivity. Qed.

Lemma keepsGuard_throw {A : Type} (e : exn) : keepsGuard (@throw _ A e).
Proof. intros b. reflexivity. Qed.

Lemma keepsGuard_bind {A B : Type} (m : M RickOwensQuoteBot.t A)
      (k : A -> M RickOwensQuoteBot.t B) :
  keepsGuard m -> (forall a, keepsGuard (k a)) -> keepsGuard (bind m k).
Proof.
  intros Hm Hk b. unfold bind. specialize (Hm b).
  destruct (m b) as [[b1 t1] [e|a]]; [exact Hm|].
  specialize (Hk a b1). destruct (k a b1) as [[b2 t2] r2].
  unfold state_of in *. simpl in *. congruence.
Qed.

Lemma keepsGuard_onReader {A : Type} (m : M InterviewReader.t A) :
  keepsGuard (onReader m).
Proof.
  intros b. unfold onReader. destruct (interviewReader b) as [r|]; [|reflexivity].
  now destruct (m r) as [[r' tr] res].
Qed.

Lemma keepsGuard_onExtractor {A : Type} (m : M QuoteExtractor.t A) :
  keepsGuard (onExtractor m).
Proof.
  intros b. unfold onExtractor. destruct (quoteExtractor b) as [x|]; [|reflexivity].
  now destruct (m x) as [[x' tr] res].
Qed.

Lemma keepsGuard_onSender {A : Type} (m : M EmailSender.t A) :
  keepsGuard (onSender m).
Proof.
  intros b. unfold onSender. destruct (emailSender b) as [s|]; [|reflexivity].
  now destruct (m s) as [[s' tr] res].
Qed.

Lemma keepsGuard_fetchInterview (w : World) : keepsGuard (fetchInterview w).
Proof.
  apply keepsGuard_bind; [apply keepsGuard_onReader|]. intros i.
  destruct (negb (nonEmpty (content i)));
    [apply keepsGuard_throw | apply keepsGuard_ret].
Qed.

Lemma keepsGuard_fetchQuotes (w : World) (i : InterviewRecord) :
  keepsGuard (fetchQuotes w i).
Proof.
  apply keepsGuard_bind; [apply keepsGuard_onExtractor|].
  intros [[|q qs]|]; (apply keepsGuard_throw || apply keepsGuard_ret).
Qed.

Lemma keepsGuard_deliver (w : World) (i : InterviewRecord)
      (qs : list QuoteExtractor.QuoteResult) : keepsGuard (deliver w i qs).
Proof.
  apply keepsGuard_bind; [apply keepsGuard_onSender|].
  intros _. apply keepsGuard_ret.
Qed.

Lemma noSend_onReader {A : Type} (m : M InterviewReader.t A) :
  noSend m -> noSend (onReader m).
Proof.
  intros H b. unfold onReader. destruct (interviewReader b) as [r|]; [|reflexivity].
  specialize (H r). now destruct (m r) as [[r' tr] res].
Qed.

Lemma noSend_onExtractor {A : Type} (m : M QuoteExtractor.t A) :
  noSend m -> noSend (onExtractor m).
Proof.
  intros H b. unfold onExtractor. destruct (quoteExtractor b) as [x|]; [|reflexivity].
  specialize (H x). now destruct (m x) as [[x' tr] res].
Qed.

Lemma noSend_fetchInterview (w : World) : noSend (fetchInterview w).
Proof.
  apply noSend_bind.
  - apply noSend_onReader, getRandomInterview_noSend.
  - intros i. destruct (negb (nonEmpty (content i))); auto with nosend.
Qed.

Lemma noSend_fetchQuotes (w : World) (i : InterviewRecord) :
  noSend (fetchQuotes w i).
Proof.
  apply noSend_bind.
  - apply noSend_onExtractor, extractQuotes_noSend.
  - intros [[|q qs]|]; auto with nosend.
Qed.

Lemma deliver_sends (w : World) (i : InterviewRecord)
      (qs : list QuoteExtractor.QuoteResult) (b : RickOwensQuoteBot.t) :
  sends (trace_of (deliver w i qs b)) <= 1
  /\ (forall recipients, result_of (deliver w i qs b) = inr recipients ->
      sends (trace_of (deliver w i qs b)) = 1).
Proof.
  unfold RickOwensQuoteBot.deliver, bind, onSender.
  destruct (emailSender b) as [s|]; [|cbn; split; [lia | discriminate]].
  pose proof (sendQuoteEmail_sends (senderWorld w)
                (Some (Config.getEmailRecipients (EMAIL_RECIPIENTS w)))
                (subjectOf i) (EmailSender.text (formatEmail i qs))
                (EmailSender.html (formatEmail i qs)) s) as [H1 H2].
  cbn zeta in H1, H2.
  destruct (EmailSender.sendQuoteEmail _ _ _ _ _ s) as [[s' tr] [e|receipt]].
  - cbn in *. split; [exact H1 | discriminate].
  - cbn in *. rewrite app_nil_r. split; [exact H1|].
    intros _ _. now apply (H2 receipt).
Qed.

(** [processQuote], one step after the other. *)
Lemma processQuote_steps (w : World) (b : RickOwensQuoteBot.t) :
  processQuote w b
  = if isRunning b then (b, [], inr None)
    else
      match fetchInterview w (setRunning true b) with
      | (b1, t1, inl e) => (setRunning false b1, t1, inl e)
      | (b1, t1, inr i) =>
          match fetchQuotes w i b1 with
          | (b2, t2, inl e) => (setRunning false b2, t1 ++ t2, inl e)
          | (b2, t2, inr qs) =>
              match deliver w i qs b2 with
              | (b3, t3, inl e) => (setRunning false b3, t1 ++ t2 ++ t3, inl e)
              | (b3, t3, inr rs) =>
                  (setRunning false b3, t1 ++ t2 ++ t3,
                   inr (Some (summary w (clockStart w) i qs rs)))
              end
          end
      end.
Proof.
  unfold RickOwensQuoteBot.processQuote, bind at 1, get.
  destruct (isRunning b); [reflexivity|].
  unfold bind at 1, modify, finally, bind.
  destruct (fetchInterview w (setRunning true b)) as [[b1 t1] [e|i]]; [reflexivity|].
  destruct (fetchQuotes w i b1) as [[b2 t2] [e|qs]]; [reflexivity|].
  destruct (deliver w i qs b2) as [[b3 t3] [e|rs]]; [reflexivity|].
  unfold ret. cbn. now rewrite app_nil_r.
Qed.

(** The task, called and resumed three times. *)
Lemma callThenResume_steps (w : World) (b : RickOwensQuoteBot.t) :
  callThenResume w 3 b
  = (state_of (processQuote w b), trace_of (processQuote w b),
     Done (result_of (processQuote w b))).
Proof.
  rewrite processQuote_steps.
  unfold RickOwensQuoteBot.callThenResume, start.
  destruct (isRunning b); [reflexivity|].
  cbn [RickOwensQuoteBot.resumeN RickOwensQuoteBot.resume]. unfold advance.
  destruct (fetchInterview w (setRunning true b)) as [[b1 t1] [e|i]].
  { cbn. now rewrite ?app_nil_r. }
  cbn [RickOwensQuoteBot.resume]. unfold advance.
  destruct (fetchQuotes w i b1) as [[b2 t2] [e|qs]].
  { cbn. now rewrite ?app_nil_r. }
  cbn [RickOwensQuoteBot.resume].
  destruct (deliver w i qs b2) as [[b3 t3] [e|rs]];
    cbn; now rewrite ?app_nil_r.
Qed.

End BotFacts.

Section TaskFacts.

Variable P : Platform.
Variable formatEmail :
  InterviewRecord -> list QuoteExtractor.QuoteResult -> EmailSender.EmailContent.

#[local] Abbreviation processQuote := (processQuote P formatEmail).
#[local] Abbreviation resume := (resume P formatEmail).
#[local] Abbreviation resumeN := (resumeN P formatEmail).
#[local] Abbreviation callThenResume := (callThenResume P formatEmail).

Lemma processQuote_skips (w : World) (b : RickOwensQuoteBot.t) :
  isRunning b = true -> processQuote w b = (b, [], inr None).
Proof. intros H. rewrite processQuote_steps. now rewrite H. Qed.

Lemma processQuote_sends (w : World) (b : RickOwensQuoteBot.t) :
  sends (trace_of (processQuote w b)) <= 1
  /\ (forall r, result_of (processQuote w b) = inr (Some r) ->
      sends (trace_of (processQuote w b)) = 1).
Proof.
  rewrite processQuote_steps.
  destruct (isRunning b); [unfold trace_of, result_of; cbn; split; [lia | discriminate]|].
  pose proof (noSend_fetchInterview P w (setRunning true b)) as H1.
  destruct (fetchInterview P w (setRunning true b)) as [[b1 t1] [e|i]].
  { unfold trace_of, result_of in *; cbn [fst snd] in *. split; [lia | discriminate]. }
  pose proof (noSend_fetchQuotes w i b1) as H2.
  destruct (fetchQuotes w i b1) as [[b2 t2] [e|qs]].
  { unfold trace_of, result_of in *; cbn [fst snd] in *. rewrite sends_app. split; [lia | discriminate]. }
  pose proof (deliver_sends formatEmail w i qs b2) as [H3 H4].
  destruct (deliver formatEmail w i qs b2) as [[b3 t3] [e|rs]];
    unfold trace_of, result_of in *; cbn [fst snd] in *; rewrite !sends_app.
  - split; [lia | discriminate].
  - specialize (H4 rs eq_refl). split; [lia|]. intros _ _. lia.
Qed.

Lemma resumeN_Done (w : World) (n : nat) (o : exn + option RunResult)
      (b : RickOwensQuoteBot.t) :
  resumeN w n (Done o) b = (b, [], Done o).
Proof. induction n as [|n IH]; cbn; [reflexivity|]. now rewrite IH. Qed.

Lemma resumeN_add (w : World) (n k : nat) (p : phase) (b : RickOwensQuoteBot.t) :
  resumeN w (n + k) p b
  = let r1 := resumeN w n p b in
    let r2 := resumeN w k (result_of r1) (state_of r1) in
    (state_of r2, trace_of r1 ++ trace_of r2, result_of r2).
Proof.
  revert p b. induction n as [|n IH]; intros p b; cbn.
  - now destruct (resumeN w k p b) as [[b2 t2] p2].
  - destruct (resume w p b) as [[b1 t1] p1]. rewrite IH.
    destruct (resumeN w n p1 b1) as [[b2 t2] p2]. cbn.
    destruct (resumeN w k p2 b2) as [[b3 t3] p3]. cbn.
    now rewrite app_assoc.
Qed.

Lemma callThenResume_add (w : World) (n k : nat) (b : RickOwensQuoteBot.t) :
  callThenResume w (n + k) b
  = let r1 := callThenResume w n b in
    let r2 := resumeN w k (result_of r1) (state_of r1) in
    (state_of r2, trace_of r1 ++ trace_of r2, result_of r2).
Proof.
  unfold RickOwensQuoteBot.callThenResume.
  destruct (start w b) as [[b0 t0] p0]. rewrite resumeN_add.
  destruct (resumeN w n p0 b0) as [[b1 t1] p1]. cbn.
  destruct (resumeN w k p1 b1) as [[b2 t2] p2]. cbn.
  now rewrite app_assoc.
Qed.

(** A task is finished after three resumptions at the latest. *)
Lemma unfinished_lt_3 (w : World) (n : nat) (b : RickOwensQuoteBot.t) :
  finished (result_of (callThenResume w n b)) = false -> n < 3.
Proof.
  intros H. destruct (Nat.lt_ge_cases n 3) as [Hlt|Hge]; [exact Hlt|exfalso].
  replace n with (3 + (n - 3)) in H by lia.
  rewrite callThenResume_add, callThenResume_steps in H.
  cbn in H. rewrite resumeN_Done in H. discriminate.
Qed.

(** While a task is suspended the guard is set. *)
Lemma resume_guard (w : World) (p : phase) (b : RickOwensQuoteBot.t) :
  finished p = false -> isRunning b = true ->
  finished (result_of (resume w p b)) = false ->
  isRunning (state_of (resume w p b)) = true.
Proof.
  intros Hp Hb. destruct p as [s|s i|s i qs|o]; cbn [RickOwensQuoteBot.resume];
    [| | |discriminate].
  - unfold advance. pose proof (keepsGuard_fetchInterview P w b) as H.
    destruct (fetchInterview P w b) as [[b1 t1] [e|i]]; [discriminate|].
    intros _. cbn in *. congruence.
  - unfold advance. pose proof (keepsGuard_fetchQuotes w i b) as H.
    destruct (fetchQuotes w i b) as [[b1 t1] [e|qs]]; [discriminate|].
    intros _. cbn in *. congruence.
  - destruct (deliver formatEmail w i qs b) as [[b1 t1] r]. discriminate.
Qed.

Lemma resume_finished (w : World) (p : phase) (b : RickOwensQuoteBot.t) :
  finished p = true -> finished (result_of (resume w p b)) = true.
Proof. destruct p; try discriminate. reflexivity. Qed.

Lemma resumeN_guard (w : World) (n : nat) (p : phase) (b : RickOwensQuoteBot.t) :
  finished p = false -> isRunning b = true ->
  finished (result_of (resumeN w n p b)) = false ->
  isRunning (state_of (resumeN w n p b)) = true.
Proof.
  revert p b. induction n as [|n IH]; intros p b Hp Hb; cbn; [trivial|].
  pose proof (resume_guard w p b Hp Hb) as Hg.
  destruct (resume w p b) as [[b1 t1] p1]. cbn in Hg.
  destruct (finished p1) eqn:E.
  - destruct p1; try discriminate. rewrite resumeN_Done. discriminate.
  - specialize (IH p1 b1 E (Hg eq_refl)).
    destruct (resumeN w n p1 b1) as [[b2 t2] p2]. exact IH.
Qed.

Lemma callThenResume_guard (w : World) (n : nat) (b : RickOwensQuoteBot.t) :
  isRunning b = false ->
  finished (result_of (callThenResume w n b)) = false ->
  isRunning (state_of (callThenResume w n b)) = true.
Proof.
  intros Hb. unfold RickOwensQuoteBot.callThenResume, start. rewrite Hb.
  pose proof (resumeN_guard w n (AwaitInterview (clockStart w))
                (setRunning true b) eq_refl eq_refl) as H.
  destruct (resumeN w n _ _) as [[b2 t2] p2]. exact H.
Qed.

End TaskFacts.

(** C7: while a call of [processQuote] is suspended at one of its awaits, a
    second call returns at once, changes nothing and makes no outside call;
    the first call, resumed to its end, then does what it does alone, so
    the two calls together submit at most one message, and exactly one when
    the first call returns its summary. *)
Theorem second_call_while_running_is_skipped
        (P : Platform)
        (formatEmail : InterviewRecord -> list QuoteExtractor.QuoteResult
                       -> EmailSender.EmailContent)
        (w1 w2 : World) (b : RickOwensQuoteBot.t) (n : nat) :
  isRunning b = false ->
  let first := callThenResume P formatEmail w1 n b in
  let alone := processQuote P formatEmail w1 b in
  finished (result_of first) = false ->
  isRunning (state_of first) = true
  /\ processQuote P formatEmail w2 (state_of first) = (state_of first, [], inr None)
  /\ start w2 (state_of first) = (state_of first, [], Done (inr None))
  /\ (exists k rest,
         resumeN P formatEmail w1 k (result_of first) (state_of first)
         = (state_of alone, rest, Done (result_of alone))
         /\ trace_of first ++ [] ++ rest = trace_of alone)
  /\ sends (trace_of alone) <= 1
  /\ (forall r, result_of alone = inr (Some r) -> sends (trace_of alone) = 1).
Proof.
  intros Hb first alone Hf.
  pose proof (callThenResume_guard P formatEmail w1 n b Hb Hf) as Hg.
  fold first in Hg.
  split; [exact Hg|].
  split; [now apply processQuote_skips|].
  split; [unfold start; now rewrite Hg|].
  split; [|apply processQuote_sends].
  pose proof (unfinished_lt_3 P formatEmail w1 n b Hf) as Hn.
  exists (3 - n).
  pose proof (callThenResume_add P formatEmail w1 n (3 - n) b) as Ha.
  replace (n + (3 - n)) with 3 in Ha by lia.
  rewrite callThenResume_steps in Ha.
  change (callThenResume P formatEmail w1 n b) with first in Ha.
  change (processQuote P formatEmail w1 b) with alone in Ha.
  clearbody first alone. cbv zeta in Ha.
  destruct (resumeN P formatEmail w1 (3 - n) (result_of first) (state_of first))
    as [[b2 t2] p2].
  unfold state_of at 2, trace_of at 3, result_of at 2 in Ha. cbn [fst snd] in Ha.
  injection Ha as E1 E2 E3.
  exists t2. split; [now rewrite E1, E3 | now rewrite E2].
Qed.

(** Scenario A, with a second call made at the first await. *)
Lemma second_call_while_running_is_skipped_witness :
  let w := Fixtures.world (Some (lit "  'Life is short.'  ")) in
  let first := callThenResume Fixtures.platform Fixtures.formatEmail w 1 Fixtures.bot in
  processQuote Fixtures.platform Fixtures.formatEmail w (state_of first)
  = (state_of first, [], inr None)
  /\ sends (trace_of (processQuote Fixtures.platform Fixtures.formatEmail w
                                   Fixtures.bot)) = 1.
Proof.
  intros w first.
  destruct (second_call_while_running_is_skipped
              Fixtures.platform Fixtures.formatEmail w w Fixtures.bot 1)
    as (_ & Hskip & _ & _ & _ & Hone).
  - reflexivity.
  - vm_compute. reflexivity.
  - split; [exact Hskip|].
    eapply Hone. vm_compute. reflexivity.
Defined.

(** C8: a call of [processQuote] that returns a summary or throws leaves
    the guard cleared. *)
Theorem processQuote_releases_guard
        (P : Platform)
        (formatEmail : InterviewRecord -> list QuoteExtractor.QuoteResult
                       -> EmailSender.EmailContent)
        (w : World) (b : RickOwensQuoteBot.t) :
  ranToEnd (result_of (processQuote P formatEmail w b)) ->
  isRunning (state_of (processQuote P formatEmail w b)) = false.
Proof.
  rewrite processQuote_steps.
  destruct (isRunning b); [intros []|]. intros _.
  destruct (fetchInterview P w (setRunning true b)) as [[b1 t1] [e|i]]; [reflexivity|].
  destruct (fetchQuotes w i b1) as [[b2 t2] [e|qs]]; [reflexivity|].
  destruct (deliver formatEmail w i qs b2) as [[b3 t3] [e|rs]]; reflexivity.
Qed.

(** Scenario B: the provider answers with the sentinel. *)
Lemma processQuote_releases_guard_witness :
  let w := Fixtures.world (Some (lit "ERROR_NO_QUOTE")) in
  result_of (processQuote Fixtures.platform Fixtures.formatEmail w Fixtures.bot)
  = inl (Error "No meaningful quotes extracted")
  /\ isRunning (state_of (processQuote Fixtures.platform Fixtures.formatEmail w
                                       Fixtures.bot)) = false.
Proof.
  intros w. split; [vm_compute; reflexivity|].
  apply (processQuote_releases_guard Fixtures.platform Fixtures.formatEmail w
                                     Fixtures.bot).
  vm_compute. exact I.
Defined.

(** Scenario A of the specification, run on the model. *)
Example scenario_A :
  let r := processQuote Fixtures.platform Fixtures.formatEmail
             (Fixtures.world (Some (lit "  'Life is short.'  "))) Fixtures.bot in
  result_of r
  = inr (Some (mkRunResult true (lit "I1") (lit "https://x.test/i1") 1 1 4))
  /\ sends (trace_of r) = 1
  /\ isRunning (state_of r) = false.
Proof. vm_compute. repeat split. Qed.

(* ================================================================= *)
(** ** Worked examples *)

(** The reply of scenario A, cleaned. *)
Example cleanQuote_scenario_A :
  cleanQuote (Some (lit "  'Life is short.'  ")) = Some (lit "Life is short.").
Proof. vm_compute. reflexivity. Qed.

(** A dash, then inner white space of several kinds. *)
Example cleanQuote_dash_and_runs :
  cleanQuote (Some (lit "- Beauty" ++ [9; 10; 160]%N ++ lit "is  decay"))
  = Some (lit "Beauty is decay").
Proof. vm_compute. reflexivity. Qed.

(** On its own the second [replace] of [cleanContent] does normalize a
    paragraph break; inside [cleanContent] it gets no line feed to work on. *)
Example replaceParagraphBreaks_alone :
  replaceParagraphBreaks (lit "a" ++ [LF; SPACE; LF; LF] ++ lit "  b")
  = lit "a" ++ [LF; LF] ++ lit "  b".
Proof. vm_compute. reflexivity. Qed.

(** Code units outside printable ASCII are dropped after the white space was
    collapsed, so the spaces around them end up side by side. *)
Example cleanContent_drops_non_ascii :
  cleanContent (lit "caf" ++ [233]%N ++ lit " - " ++ [8212]%N ++ lit " noir")
  = lit "caf -  noir".
Proof. vm_compute. reflexivity. Qed.

Example getEmailRecipients_list :
  Config.getEmailRecipients (lit " a@x.test, b@x.test ,,")
  = [lit "a@x.test"; lit "b@x.test"].
Proof. vm_compute. reflexivity. Qed.

Example getEmailRecipients_empty : Config.getEmailRecipients [] = [].
Proof. reflexivity. Qed.

(** The title is the first plausible line, else it comes from the URL. *)
Example extractTitle_from_text :
  extractTitle Fixtures.platform
    (lit "Home" ++ [LF] ++ lit "Rick Owens on concrete" ++ [LF] ++ lit "Body.")
    (lit "https://x.test/i1")
  = lit "Rick Owens on concrete".
Proof. vm_compute. reflexivity. Qed.

Example extractTitle_from_url :
  extractTitle
    (mkPlatform (fun _ => Some (mkURL (lit "x.test") (lit "/interviews/on-decay/")))
                (fun s => s))
    (lit "short") (lit "https://x.test/interviews/on-decay/")
  = lit "On Decay".
Proof. vm_compute. reflexivity. Qed.

(** Loading an empty array leaves a loaded, empty collection, whose mean
    length is [NaN]. *)
Example getStats_after_empty_load :
  let w := InterviewReader.mkWorld (inr (ArrayOf [])) (fun _ => 0%Z) 7%Z 0%Z 0%N in
  getStats (state_of (loadInterviews Fixtures.platform w InterviewReader.create))
  = mkStats 0 NaN (Some []) (Some 7%Z).
Proof. vm_compute. reflexivity. Qed.

(* ================================================================= *)
(** ** Further properties of the string cleaning *)

Section MoreStringFacts.

Lemma singleSpaced_In (b : bool) (s : str) (c : char) :
  singleSpaced b s = true -> In c s -> isWhiteSpace c = true -> c = SPACE.
Proof.
  revert b. induction s as [|d s IH]; intros b; simpl; [tauto|].
  destruct (isWhiteSpace d) eqn:E.
  - intros H [<-|Hin] Hc.
    + apply andb_prop in H as [H _]. apply andb_prop in H as [_ H].
      now apply N.eqb_eq in H.
    + apply andb_prop in H as [_ H]. now apply (IH true).
  - intros H [<-|Hin] Hc; [congruence|]. now apply (IH false).
Qed.

(** What [replaceWhitespaceRuns] returns is made of the code units it was
    given and of spaces. *)
Lemma collapseFrom_In_source (b : bool) (s : str) (c : char) :
  In c (collapseFrom b s) -> c = SPACE \/ In c s.
Proof.
  revert b. induction s as [|d s IH]; intros b; simpl; [tauto|].
  destruct (isWhiteSpace d).
  - destruct b; simpl.
    + intros H. apply IH in H. tauto.
    + intros [<-|H]; [now left|]. apply IH in H. tauto.
  - simpl. intros [<-|H]; [tauto|]. apply IH in H. tauto.
Qed.

Lemma filter_all {A : Type} (p : A -> bool) (l : list A) :
  (forall a, In a l -> p a = true) -> filter p l = l.
Proof.
  induction l as [|a l IH]; simpl; [reflexivity|].
  intros H. rewrite (H a (or_introl eq_refl)). f_equal. apply IH. auto.
Qed.

Lemma printableAscii_kept (c : char) :
  printableAscii c = true -> printableOrNewline c = true.
Proof. unfold printableAscii, printableOrNewline. now intros ->. Qed.

Lemma printableAscii_not_line_feed (s : str) :
  forallb printableAscii s = true -> ~ In LF s.
Proof.
  intros H Hin. rewrite forallb_forall in H. now apply H in Hin.
Qed.

(** On printable text [cleanContent] is white-space collapsing and trimming. *)
Lemma cleanContent_printable_input (s : str) :
  forallb printableAscii s = true ->
  cleanContent s = trim (replaceWhitespaceRuns s).
Proof.
  intros H. rewrite cleanContent_unfold. f_equal.
  apply filter_all. intros c Hc.
  apply collapseFrom_In_source in Hc as [->|Hc]; [reflexivity|].
  rewrite forallb_forall in H. now apply printableAscii_kept, H.
Qed.

Lemma cleanContent_forallb_printable (s : str) :
  forallb printableAscii (cleanContent s) = true.
Proof.
  apply forallb_forall. intros c Hc. apply cleanContent_printable in Hc.
  unfold printableAscii. apply andb_true_intro.
  split; apply N.leb_le; lia.
Qed.

Lemma cleanContent_fixed (s : str) :
  forallb printableAscii s = true -> startsClean s = true ->
  endsClean s = true -> singleSpaced false s = true ->
  cleanContent s = s.
Proof.
  intros Hp Hs He Hw. rewrite (cleanContent_printable_input s Hp).
  unfold replaceWhitespaceRuns. rewrite (collapseFrom_fix false s Hw).
  now apply trim_fix.
Qed.


End MoreStringFacts.

(** X1: cleaned content consists of printable ASCII only, has no white space
    at its start or end, and is never longer than the text it was made
    from. *)
Theorem cleanContent_shape (content : str) :
  (forall c, In c (cleanContent content) -> (32 <= c <= 126)%N)
  /\ startsClean (cleanContent content) = true
  /\ endsClean (cleanContent content) = true
  /\ length (cleanContent content) <= length content.
Proof.
  split; [apply cleanContent_printable|].
  split; [apply trim_startsClean|].
  split; [apply trim_endsClean|].
  rewrite cleanContent_unfold.
  etransitivity; [apply trim_length|].
  etransitivity; [apply filter_length_le|].
  apply collapseFrom_length.
Qed.

(** X2: the texts that [cleanContent] returns unchanged are exactly the
    printable ASCII texts without white space at either end and without two
    spaces in a row. *)
Theorem cleanContent_fixed_points (s : str) :
  cleanContent s = s
  <-> forallb printableAscii s = true /\ startsClean s = true
      /\ endsClean s = true /\ singleSpaced false s = true.
Proof.
  split.
  - intros H.
    assert (Hp : forallb printableAscii s = true).
    { rewrite <- H. apply cleanContent_forallb_printable. }
    split; [exact Hp|].
    split; [rewrite <- H; apply trim_startsClean|].
    split; [rewrite <- H; apply trim_endsClean|].
    rewrite <- H, (cleanContent_printable_input s Hp).
    apply singleSpaced_trim, collapseFrom_singleSpaced.
  - intros (Hp & Hs & He & Hw). now apply cleanContent_fixed.
Qed.

(** X3: one cleaning is not always enough, because the code units outside
    printable ASCII are dropped after the white space was collapsed; a
    second cleaning settles the text: cleaning it any further changes
    nothing. *)
Theorem cleanContent_settles_after_two (s : str) :
  cleanContent (cleanContent (cleanContent s)) = cleanContent (cleanContent s).
Proof.
  set (q := cleanContent s).
  assert (Hq : forallb printableAscii q = true)
    by apply cleanContent_forallb_printable.
  apply cleanContent_fixed.
  - apply cleanContent_forallb_printable.
  - apply trim_startsClean.
  - apply trim_endsClean.
  - rewrite (cleanContent_printable_input q Hq).
    apply singleSpaced_trim, collapseFrom_singleSpaced.
Qed.

(** The cleaning of X3 that a second cleaning still changes. *)
Example cleanContent_not_idempotent :
  let s := lit "caf" ++ [233]%N ++ lit " - " ++ [8212]%N ++ lit " noir" in
  cleanContent s = lit "caf -  noir"
  /\ cleanContent (cleanContent s) = lit "caf - noir".
Proof. vm_compute. split; reflexivity. Qed.

(** X4: a cleaned quote has no white space at its start or end, its only
    white space is single spaces (so no tab and no line break), and it is
    never longer than the reply it was made from. *)
Theorem cleanQuote_shape (rawQuote : option str) (q : str) :
  cleanQuote rawQuote = Some q ->
  startsClean q = true /\ endsClean q = true
  /\ singleSpaced false q = true
  /\ (forall c, In c q -> isWhiteSpace c = true -> c = SPACE)
  /\ (forall s, rawQuote = Some s -> length q <= length s).
Proof.
  intros H. apply cleanQuote_inv in H as (s & -> & _ & ->).
  assert (Hw : singleSpaced false (cleaned s) = true).
  { unfold cleaned. apply singleSpaced_trim, collapseFrom_singleSpaced. }
  split; [apply trim_startsClean|].
  split; [apply trim_endsClean|].
  split; [exact Hw|].
  split; [intros c Hin Hc; now apply (singleSpaced_In false (cleaned s) c Hw)|].
  intros s' E. injection E as <-.
  etransitivity; [apply cleaned_length|].
  etransitivity; [apply stripLeadingDash_length|].
  etransitivity; [apply stripTrailingQuote_length|].
  etransitivity; [apply stripLeadingQuote_length|].
  apply trim_length.
Qed.

Lemma cleanQuote_shape_witness :
  startsClean (lit "Beauty is decay") = true
  /\ endsClean (lit "Beauty is decay") = true.
Proof.
  destruct (cleanQuote_shape
              (Some (lit "- Beauty" ++ [9; 10; 160]%N ++ lit "is  decay"))
              (lit "Beauty is decay"))
    as (H1 & H2 & _).
  - vm_compute. reflexivity.
  - split; [exact H1 | exact H2].
Defined.

Section RecipientFacts.

Lemma split_not_nil (sep : char) (s : str) : split sep s <> [].
Proof.
  destruct s as [|c s]; simpl; [discriminate|].
  destruct (c =? sep)%N; [discriminate|].
  destruct (split sep s); discriminate.
Qed.

(** The pieces of a split hold no separator. *)
Lemma split_In (sep : char) (s piece : str) :
  In piece (split sep s) -> ~ In sep piece.
Proof.
  revert piece. induction s as [|c s IH]; intros piece; simpl.
  - intros [<-|[]]. tauto.
  - destruct (c =? sep)%N eqn:E.
    + intros [<-|H]; [tauto | now apply IH].
    + pose proof (split_not_nil sep s) as Hne.
      destruct (split sep s) as [|w ws]; [congruence|].
      intros [<-|H].
      * intros [->|Hin]; [now rewrite N.eqb_refl in E|].
        now apply (IH w (or_introl eq_refl)).
      * apply IH. now right.
Qed.

Lemma split_app (sep : char) (a rest : str) :
  ~ In sep a -> split sep (a ++ sep :: rest) = a :: split sep rest.
Proof.
  induction a as [|c a IH]; simpl; intros H.
  - now rewrite N.eqb_refl.
  - destruct (c =? sep)%N eqn:E; [apply N.eqb_eq in E; tauto|].
    rewrite IH by tauto. reflexivity.
Qed.

Lemma split_whole (sep : char) (a : str) : ~ In sep a -> split sep a = [a].
Proof.
  induction a as [|c a IH]; simpl; intros H; [reflexivity|].
  destruct (c =? sep)%N eqn:E; [apply N.eqb_eq in E; tauto|].
  rewrite IH by tauto. reflexivity.
Qed.

Lemma map_trim_split_space (sep : char) (s : str) :
  (SPACE =? sep)%N = false ->
  map trim (split sep (SPACE :: s)) = map trim (split sep s).
Proof.
  intros E. cbn [split]. rewrite E.
  pose proof (split_not_nil sep s) as Hne.
  destruct (split sep s) as [|w ws]; [congruence|reflexivity].
Qed.

Lemma map_trim_split_join (l : list str) :
  l <> [] -> Forall tidyRecipient l ->
  map trim (split 44%N (EmailSender.join l)) = l.
Proof.
  induction l as [|a l IH]; [congruence|]. intros _ H.
  apply Forall_cons_iff in H as [(Hne & Hs & He & Hc) Hl].
  destruct l as [|b l].
  - simpl. rewrite split_whole by exact Hc. simpl. now rewrite trim_fix.
  - change (EmailSender.join (a :: b :: l))
      with (a ++ 44%N :: SPACE :: EmailSender.join (b :: l)).
    rewrite split_app by exact Hc.
    cbn [map]. rewrite trim_fix by assumption. f_equal.
    rewrite map_trim_split_space by reflexivity.
    apply IH; [discriminate | exact Hl].
Qed.

End RecipientFacts.

(** X5: every recipient that [getEmailRecipients] returns is a non-empty
    string without white space at its start or end and without a comma. *)
Theorem getEmailRecipients_tidy (recipients : str) :
  Forall tidyRecipient (Config.getEmailRecipients recipients).
Proof.
  apply Forall_forall. intros e H.
  apply filter_In in H as [H Hlen].
  apply in_map_iff in H as (piece & <- & Hp).
  repeat split.
  - intros E. rewrite E in Hlen. discriminate.
  - apply trim_startsClean.
  - apply trim_endsClean.
  - intros Hin. apply trim_In in Hin. now apply split_In in Hp.
Qed.

(** X6: the To header that a send builds from a list of tidy recipients
    reads back, through [getEmailRecipients], as that list. *)
Theorem getEmailRecipients_join (l : list str) :
  Forall tidyRecipient l ->
  Config.getEmailRecipients (EmailSender.join l) = l.
Proof.
  intros H. destruct l as [|a l]; [reflexivity|].
  unfold Config.getEmailRecipients.
  rewrite map_trim_split_join by (discriminate || exact H).
  apply filter_all. intros e He.
  rewrite Forall_forall in H. destruct (H e He) as (Hne & _).
  destruct e; [congruence|reflexivity].
Qed.

Lemma getEmailRecipients_join_witness :
  Config.getEmailRecipients
    (EmailSender.join [lit "a@x.test"; lit "b c@x.test"])
  = [lit "a@x.test"; lit "b c@x.test"].
Proof.
  apply (getEmailRecipients_join [lit "a@x.test"; lit "b c@x.test"]).
  repeat constructor; try discriminate; try reflexivity;
    vm_compute; intuition discriminate.
Defined.

(* ================================================================= *)
(** ** Further properties of the interview store *)

Section MoreReaderFacts.

Variable P : Platform.

Lemma lit_inj (a b : string) : lit a = lit b -> a = b.
Proof.
  revert b. induction a as [|x a IH]; intros [|y b]; simpl; try discriminate.
  - reflexivity.
  - intros H. injection H as Hx Hl.
    f_equal; [|now apply IH].
    rewrite <- (ascii_N_embedding x), <- (ascii_N_embedding y). now rewrite Hx.
Qed.

Lemma to_uint_not_Nil (n : nat) : Nat.to_uint n <> Decimal.Nil.
Proof.
  rewrite <- (DecimalNat.Unsigned.of_to n) at 1.
  rewrite DecimalNat.Unsigned.to_of. apply DecimalFacts.unorm_nonnil.
Qed.

Lemma ofNat_inj (a b : nat) : ofNat a = ofNat b -> a = b.
Proof.
  unfold ofNat. intros H. apply lit_inj in H.
  apply DecimalNat.Unsigned.to_uint_inj.
  pose proof (NilZero.usu _ (to_uint_not_Nil a)) as Ha.
  pose proof (NilZero.usu _ (to_uint_not_Nil b)) as Hb.
  rewrite H in Ha. congruence.
Qed.

Lemma mapIndexed_ids (clock : nat -> Z) (i : nat) (l : list (option RawInterview))
      (x : str) :
  In x (map id (mapIndexed (toRecord P clock) i l)) ->
  exists j, i <= j /\ x = lit "interview-" ++ ofNat (j + 1).
Proof.
  revert i. induction l as [|e l IH]; intros i; cbn [mapIndexed map In];
    [tauto|].
  intros [<-|H].
  - exists i. split; [lia|reflexivity].
  - apply IH in H as (j & Hj & ->). exists j. split; [lia|reflexivity].
Qed.

Lemma mapIndexed_ids_NoDup (clock : nat -> Z) (i : nat)
      (l : list (option RawInterview)) :
  NoDup (map id (mapIndexed (toRecord P clock) i l)).
Proof.
  revert i. induction l as [|e l IH]; intros i; cbn [mapIndexed map];
    constructor.
  - intros H. apply mapIndexed_ids in H as (j & Hj & E).
    unfold toRecord in E. cbn [id] in E.
    apply app_inv_head in E. apply ofNat_inj in E. lia.
  - apply IH.
Qed.

(** Dropping records keeps the ids apart. *)
Lemma kept_ids_NoDup (keep : InterviewRecord -> bool) (records : list InterviewRecord) :
  NoDup (map id records) -> NoDup (map id (filter keep records)).
Proof.
  induction records as [|r records IH]; cbn [filter map]; [trivial|].
  rewrite NoDup_cons_iff. intros [Hfresh Hrest].
  destruct (keep r); cbn [map]; [|now apply IH].
  constructor; [|now apply IH].
  rewrite in_map_iff. intros (x & E & Hx).
  apply filter_In in Hx as [Hx _].
  apply Hfresh, in_map_iff. now exists x.
Qed.

Lemma buildCollection_ids_NoDup (clock : nat -> Z) (data : list (option RawInterview)) :
  NoDup (map id (buildCollection P clock data)).
Proof. apply kept_ids_NoDup, mapIndexed_ids_NoDup. Qed.

Lemma wellFormed_loaded (clock : nat -> Z) (data : list (option RawInterview)) (t0 : Z) :
  wellFormed (mkReader (Some (buildCollection P clock data)) (Some t0)).
Proof.
  unfold wellFormed. simpl. split; [discriminate|].
  split; [apply buildCollection_long | apply buildCollection_ids_NoDup].
Qed.

(** What [loadInterviews] leaves behind. *)
Lemma loadInterviews_state (w : InterviewReader.World) (self : InterviewReader.t) :
  state_of (loadInterviews P w self)
  = match document w with
    | inr (ArrayOf data) =>
        mkReader (Some (buildCollection P (clockRecord w) data)) (Some (clockLoad w))
    | _ => self
    end.
Proof.
  unfold loadInterviews, bind, call, throw, modify, ret.
  now destruct (document w) as [e|[|data]].
Qed.

Lemma loadInterviews_result (w : InterviewReader.World) (self : InterviewReader.t) :
  result_of (loadInterviews P w self)
  = match document w with
    | inl e => inl e
    | inr NotAnArray => inl (Error "Interview data must be an array of objects")
    | inr (ArrayOf data) => inr (buildCollection P (clockRecord w) data)
    end.
Proof.
  unfold loadInterviews, bind, call, throw, modify, ret.
  now destruct (document w) as [e|[|data]].
Qed.

Lemma wellFormed_loadInterviews (w : InterviewReader.World) (self : InterviewReader.t) :
  wellFormed self -> wellFormed (state_of (loadInterviews P w self)).
Proof.
  intros H. rewrite loadInterviews_state.
  destruct (document w) as [e|[|data]]; try exact H.
  apply wellFormed_loaded.
Qed.

Lemma wellFormed_refreshed (w : InterviewReader.World) (self : InterviewReader.t) :
  wellFormed self -> wellFormed (refreshed P w self).
Proof.
  intros H. unfold refreshed.
  destruct (absent self || stale self (clockCheck w)); [|exact H].
  now apply wellFormed_loadInterviews.
Qed.

Lemma getRandomInterview_state (w : InterviewReader.World) (self : InterviewReader.t) :
  state_of (getRandomInterview P w self) = refreshed P w self.
Proof.
  unfold getRandomInterview, refreshed, bind, get.
  destruct (absent self || stale self (clockCheck w)).
  - destruct (loadInterviews P w self) as [[s1 t1] [e|l]]; [reflexivity|].
    unfold ret, throw. cbn.
    destruct (interviews s1) as [[|d l']|]; try reflexivity.
    destruct (nth_error _ _); reflexivity.
  - unfold ret, throw. cbn.
    destruct (interviews self) as [[|d l']|]; try reflexivity.
    destruct (nth_error _ _); reflexivity.
Qed.

Lemma getRandomInterview_member (w : InterviewReader.World) (self : InterviewReader.t)
      (r : InterviewRecord) :
  result_of (getRandomInterview P w self) = inr r ->
  In r (collection (refreshed P w self)).
Proof.
  unfold getRandomInterview, refreshed, collection, bind, get.
  destruct (absent self || stale self (clockCheck w)).
  - destruct (loadInterviews P w self) as [[s1 t1] [e|l]]; [discriminate|].
    unfold ret, throw. cbn.
    destruct (interviews s1) as [[|d l']|]; try discriminate.
    destruct (nth_error _ _) eqn:E; [|discriminate].
    intros H. injection H as <-. now apply nth_error_In in E.
  - unfold ret, throw. cbn.
    destruct (interviews self) as [[|d l']|]; try discriminate.
    destruct (nth_error _ _) eqn:E; [|discriminate].
    intros H. injection H as <-. now apply nth_error_In in E.
Qed.

Lemma getAllInterviews_state (w : InterviewReader.World) (self : InterviewReader.t) :
  state_of (getAllInterviews P w self) = refreshed P w self.
Proof.
  unfold getAllInterviews, refreshed, bind, get.
  destruct (absent self || stale self (clockCheck w)).
  - now destruct (loadInterviews P w self) as [[s1 t1] [e|l]].
  - reflexivity.
Qed.

Lemma getAllInterviews_result (w : InterviewReader.World) (self : InterviewReader.t)
      (l : list InterviewRecord) :
  result_of (getAllInterviews P w self) = inr l ->
  l = collection (refreshed P w self).
Proof.
  unfold getAllInterviews, refreshed, collection, bind, get.
  destruct (absent self || stale self (clockCheck w)).
  - destruct (loadInterviews P w self) as [[s1 t1] [e|l']]; [discriminate|].
    cbn. now intros [= <-].
  - cbn. now intros [= <-].
Qed.

Lemma getAllInterviews_fresh (w : InterviewReader.World) (self : InterviewReader.t) :
  absent self || stale self (clockCheck w) = false ->
  getAllInterviews P w self = (self, [], inr (collection self)).
Proof.
  intros H. unfold getAllInterviews, bind, get. cbn beta iota. now rewrite H.
Qed.

Lemma getInterviewById_state (w : InterviewReader.World) (wanted : str)
      (self : InterviewReader.t) :
  state_of (getInterviewById P w wanted self) = refreshed P w self.
Proof.
  rewrite <- getAllInterviews_state. unfold getInterviewById, bind.
  destruct (getAllInterviews P w self) as [[s1 t1] [e|l]]; [reflexivity|].
  now destruct (find _ l).
Qed.

Lemma getInterviewById_found (w : InterviewReader.World) (wanted : str)
      (self : InterviewReader.t) (r : InterviewRecord) :
  result_of (getInterviewById P w wanted self) = inr r ->
  id r = wanted /\ In r (collection (refreshed P w self)).
Proof.
  pose proof (getAllInterviews_result w self) as Hall.
  unfold getInterviewById, bind.
  destruct (getAllInterviews P w self) as [[s1 t1] [e|l]]; [discriminate|].
  specialize (Hall l eq_refl). rewrite <- Hall.
  destruct (find _ l) eqn:E; [|discriminate].
  cbn. intros [= <-]. apply find_some in E as [Hin Heq].
  split; [now apply strEq_eq | exact Hin].
Qed.

Lemma find_by_id (l : list InterviewRecord) (r : InterviewRecord) :
  NoDup (map id l) -> In r l ->
  find (fun i => strEq (id i) (id r)) l = Some r.
Proof.
  induction l as [|a l IH]; simpl; [tauto|].
  intros Hd Hin. apply NoDup_cons_iff in Hd as [Hn Hd].
  destruct Hin as [->|Hin].
  - now rewrite (proj2 (strEq_eq (id r) (id r)) eq_refl).
  - destruct (strEq (id a) (id r)) eqn:E.
    + apply strEq_eq in E. exfalso. apply Hn. rewrite E. now apply in_map.
    + now apply IH.
Qed.

Lemma reload_eq (w : InterviewReader.World) (self : InterviewReader.t) :
  reload P w self = loadInterviews P w InterviewReader.create.
Proof.
  unfold reload, bind, modify, InterviewReader.create.
  now destruct (loadInterviews P w (mkReader None None)) as [[s t] r].
Qed.

End MoreReaderFacts.

(** X7: every method of the reader keeps its state well formed: collection
    and load time are set together, every record has more than 100 code
    units of content, and the ids are pairwise different. *)
Theorem reader_methods_keep_wellFormed
        (P : Platform) (w : InterviewReader.World) (wanted : str)
        (self : InterviewReader.t) :
  wellFormed self ->
  wellFormed (state_of (loadInterviews P w self))
  /\ wellFormed (state_of (getRandomInterview P w self))
  /\ wellFormed (state_of (getAllInterviews P w self))
  /\ wellFormed (state_of (getInterviewById P w wanted self))
  /\ wellFormed (state_of (reload P w self)).
Proof.
  intros H.
  rewrite getRandomInterview_state, getAllInterviews_state,
    getInterviewById_state, reload_eq.
  repeat split;
    try (now apply wellFormed_refreshed);
    try (now apply wellFormed_loadInterviews).
Qed.

Lemma reader_methods_keep_wellFormed_witness :
  wellFormed (state_of (getRandomInterview Fixtures.platform Fixtures.readerWorld
                                           InterviewReader.create)).
Proof.
  apply (reader_methods_keep_wellFormed Fixtures.platform Fixtures.readerWorld
           (lit "interview-1") InterviewReader.create).
  reflexivity.
Defined.

(** X8: from a well-formed reader, [getRandomInterview] never returns a
    record with 100 or fewer code units of content, whatever the random
    number is. *)
Theorem getRandomInterview_returns_long_record
        (P : Platform) (w : InterviewReader.World) (self : InterviewReader.t)
        (r : InterviewRecord) :
  wellFormed self ->
  result_of (getRandomInterview P w self) = inr r ->
  100 < length (content r).
Proof.
  intros H Hr. apply getRandomInterview_member in Hr.
  apply (wellFormed_refreshed P w) in H.
  unfold wellFormed in H. unfold collection in Hr.
  destruct (interviews (refreshed P w self)) as [l|]; [|contradiction].
  destruct H as (_ & Hl & _). rewrite Forall_forall in Hl. now apply Hl.
Qed.

Lemma getRandomInterview_returns_long_record_witness :
  exists r,
    result_of (getRandomInterview Fixtures.platform Fixtures.readerWorld
                                  InterviewReader.create) = inr r
    /\ 100 < length (content r).
Proof.
  eexists. split; [vm_compute; reflexivity|].
  apply (getRandomInterview_returns_long_record
           Fixtures.platform Fixtures.readerWorld InterviewReader.create).
  - reflexivity.
  - vm_compute. reflexivity.
Defined.

(** X9: on a well-formed reader that needs no refresh, looking a record of
    the collection up by its id returns that record, without reading the
    file and without changing the reader. *)
Theorem getInterviewById_of_member
        (P : Platform) (w : InterviewReader.World) (self : InterviewReader.t)
        (r : InterviewRecord) :
  wellFormed self ->
  absent self || stale self (clockCheck w) = false ->
  In r (collection self) ->
  getInterviewById P w (id r) self = (self, [], inr r).
Proof.
  intros H Hf Hin. unfold getInterviewById, bind.
  rewrite (getAllInterviews_fresh P w self Hf).
  unfold wellFormed in H. unfold collection in *.
  destruct (interviews self) as [l|]; [|contradiction].
  destruct H as (_ & _ & Hd).
  now rewrite (find_by_id l r Hd Hin).
Qed.

(** X10: a record that [getInterviewById] returns has the id asked for and
    belongs to the collection the reader holds afterwards. *)
Theorem getInterviewById_returns_wanted
        (P : Platform) (w : InterviewReader.World) (wanted : str)
        (self : InterviewReader.t) (r : InterviewRecord) :
  result_of (getInterviewById P w wanted self) = inr r ->
  id r = wanted
  /\ In r (collection (state_of (getInterviewById P w wanted self))).
Proof.
  intros H. rewrite getInterviewById_state. now apply getInterviewById_found.
Qed.

(** X11: when the document cannot be loaded, [reload()] throws and leaves
    the reader without a collection, whatever it held before, while
    [getRandomInterview], [getAllInterviews] and [getInterviewById] leave
    the reader as it was. *)
Theorem failed_reload_drops_collection
        (P : Platform) (w : InterviewReader.World) (wanted : str)
        (self : InterviewReader.t) :
  loadFails w = true ->
  state_of (reload P w self) = InterviewReader.create
  /\ (exists e, result_of (reload P w self) = inl e)
  /\ state_of (getRandomInterview P w self) = self
  /\ state_of (getAllInterviews P w self) = self
  /\ state_of (getInterviewById P w wanted self) = self.
Proof.
  intros H. unfold loadFails in H.
  rewrite getRandomInterview_state, getAllInterviews_state,
    getInterviewById_state, reload_eq.
  unfold refreshed. rewrite !loadInterviews_state, loadInterviews_result.
  destruct (document w) as [e|[|data]]; try discriminate.
  - repeat split; try (now eexists);
      now destruct (absent self || stale self (clockCheck w)).
  - repeat split; try (now eexists);
      now destruct (absent self || stale self (clockCheck w)).
Qed.

Lemma getInterviewById_of_member_witness :
  getInterviewById Fixtures.platform Fixtures.readerWorld (lit "interview-1")
                   Samples.loadedReader
  = (Samples.loadedReader, [], inr Samples.theRecord).
Proof.
  apply (getInterviewById_of_member Fixtures.platform Fixtures.readerWorld
           Samples.loadedReader Samples.theRecord).
  - apply wellFormed_loadInterviews. reflexivity.
  - vm_compute. reflexivity.
  - vm_compute. left. reflexivity.
Defined.

Lemma getInterviewById_returns_wanted_witness :
  id Samples.theRecord = lit "interview-1".
Proof.
  destruct (getInterviewById_returns_wanted Fixtures.platform Fixtures.readerWorld
              (lit "interview-1") Samples.loadedReader Samples.theRecord)
    as [H _].
  - vm_compute. reflexivity.
  - exact H.
Defined.

Lemma failed_reload_drops_collection_witness :
  state_of (reload Fixtures.platform Samples.unreadable Samples.loadedReader)
  = InterviewReader.create
  /\ state_of (getAllInterviews Fixtures.platform Samples.unreadable
                                Samples.loadedReader)
     = Samples.loadedReader.
Proof.
  destruct (failed_reload_drops_collection Fixtures.platform Samples.unreadable
              [] Samples.loadedReader eq_refl)
    as (H1 & _ & _ & H2 & _).
  split; [exact H1 | exact H2].
Defined.

Section StatsFacts.

Lemma totalLength_from (l : list InterviewRecord) (a : nat) :
  fold_left (fun sum r => sum + length (content r)) l a
  = a + fold_left (fun sum r => sum + length (content r)) l 0.
Proof.
  revert a. induction l as [|r l IH]; intros a; simpl; [lia|].
  rewrite (IH (a + _)), (IH (length (content r))). lia.
Qed.

Lemma totalLength_bounds (l : list InterviewRecord) (lo hi : nat) :
  Forall (fun r => lo <= length (content r) <= hi) l ->
  length l * lo <= fold_left (fun sum r => sum + length (content r)) l 0
  <= length l * hi.
Proof.
  induction l as [|r l IH]; simpl; [lia|].
  intros H. apply Forall_cons_iff in H as [Hr Hl].
  rewrite totalLength_from. specialize (IH Hl). lia.
Qed.

(** Rounding a mean keeps it between the bounds of the values. *)
Lemma roundDiv_bounds (total n lo hi : Z) :
  (0 < n)%Z -> (n * lo <= total <= n * hi)%Z ->
  (lo <= roundDiv total n <= hi)%Z.
Proof.
  intros Hn [H1 H2]. unfold roundDiv. split.
  - apply Z.div_le_lower_bound; lia.
  - apply Z.lt_succ_r. apply Z.div_lt_upper_bound; lia.
Qed.

Lemma distinctFrom_spec (seen l : list str) (x : str) :
  In x (distinctFrom seen l) <-> In x l /\ ~ In x seen.
Proof.
  revert seen. induction l as [|a l IH]; intros seen; simpl; [tauto|].
  destruct (existsb (strEq a) seen) eqn:E.
  - apply existsb_exists in E as (y & Hy & Ey). apply strEq_eq in Ey. subst y.
    rewrite IH. split; [tauto|].
    intros [[<-|H] Hn]; tauto.
  - assert (Hn : ~ In a seen).
    { intros Hin. apply (proj2 (not_true_iff_false _) E).
      apply existsb_exists. exists a. split; [exact Hin|].
      now apply strEq_eq. }
    simpl. rewrite IH. simpl. split.
    + intros [<-|[H1 H2]]; [tauto|]. split; [tauto|]. tauto.
    + intros [[<-|H] Hs]; [tauto|].
      destruct (list_eq_dec N.eq_dec a x) as [->|Hne]; [tauto|]. right.
      split; [exact H|]. intros [Ha|Hx]; [congruence|tauto].
Qed.

Lemma distinctFrom_NoDup (seen l : list str) : NoDup (distinctFrom seen l).
Proof.
  revert seen. induction l as [|a l IH]; intros seen; simpl; [constructor|].
  destruct (existsb (strEq a) seen); [apply IH|].
  constructor; [|apply IH].
  rewrite distinctFrom_spec. simpl. tauto.
Qed.

End StatsFacts.

(** X12: for a loaded collection with at least one record, [getStats]
    counts the records and reports a finite mean content length that lies
    between any two bounds that hold for every record. *)
Theorem getStats_mean_within_bounds
        (self : InterviewReader.t) (l : list InterviewRecord) (lo hi : nat) :
  interviews self = Some l -> l <> [] ->
  Forall (fun r => lo <= length (content r) <= hi) l ->
  total (getStats self) = length l
  /\ exists mean,
       averageLength (getStats self) = Finite mean
       /\ (Z.of_nat lo <= mean <= Z.of_nat hi)%Z.
Proof.
  intros E Hne Hb. unfold getStats. rewrite E. cbn [total averageLength].
  split; [reflexivity|].
  apply totalLength_bounds in Hb.
  destruct l as [|r l]; [congruence|].
  set (t := fold_left _ _ _) in *. cbn [length roundedMean] in *.
  eexists. split; [reflexivity|].
  apply roundDiv_bounds; [lia|]. nia.
Qed.

Lemma getStats_mean_within_bounds_witness :
  averageLength (getStats Samples.loadedReader) = Finite 150.
Proof.
  destruct (getStats_mean_within_bounds Samples.loadedReader [Samples.theRecord]
              150 150)
    as (_ & mean & Hm & Hlo & Hhi).
  - vm_compute. reflexivity.
  - discriminate.
  - repeat constructor.
  - rewrite Hm. f_equal. lia.
Defined.

(** X13: the sources that [getStats] lists for a loaded collection are the
    sources of its records, each one once. *)
Theorem getStats_sources_distinct
        (self : InterviewReader.t) (l : list InterviewRecord) :
  interviews self = Some l ->
  exists listed,
    sources (getStats self) = Some listed
    /\ NoDup listed
    /\ forall x, In x listed <-> exists r, In r l /\ source r = x.
Proof.
  intros E. unfold getStats. rewrite E. cbn [sources].
  eexists. split; [reflexivity|]. split; [apply distinctFrom_NoDup|].
  intros x. rewrite distinctFrom_spec, in_map_iff. simpl.
  split; [intros [(r & Hs & Hr) _] | intros (r & Hr & Hs)].
  - now exists r.
  - split; [now exists r | tauto].
Qed.

Lemma getStats_sources_distinct_witness :
  exists listed,
    sources (getStats Samples.loadedReader) = Some listed /\ NoDup listed.
Proof.
  destruct (getStats_sources_distinct Samples.loadedReader [Samples.theRecord])
    as (listed & Hl & Hn & _).
  - vm_compute. reflexivity.
  - exists listed. split; [exact Hl | exact Hn].
Defined.

Section TitleFacts.

Variable P : Platform.

Lemma capitalizeFrom_length (b : bool) (s : str) :
  length (capitalizeFrom b s) = length s.
Proof.
  revert b. induction s as [|c s IH]; intros b; simpl; [reflexivity|].
  now rewrite IH.
Qed.

Lemma looksLikeTitle_length (line : str) :
  looksLikeTitle P line = true -> 10 <= length line <= 100.
Proof.
  unfold looksLikeTitle. intros H.
  apply andb_prop in H as [_ H]. apply andb_prop in H as [H _].
  apply andb_prop in H as [H1 H2].
  apply Nat.leb_le in H1, H2. lia.
Qed.

End TitleFacts.

(** X14: the title that [extractTitle] derives is never the empty string:
    a line taken from the text has 10 to 100 code units, and the URL
    fallback is the last non-empty path segment, or the word interview. *)
Theorem extractTitle_not_empty (P : Platform) (text url : str) :
  extractTitle P text url <> []
  /\ (forall line,
         find (looksLikeTitle P)
              (firstn 5 (filter nonEmpty (map trim (split LF text)))) = Some line ->
         extractTitle P text url = line /\ 10 <= length line <= 100).
Proof.
  unfold extractTitle.
  destruct (find (looksLikeTitle P) _) as [line|] eqn:E.
  - apply find_some in E as [_ E]. apply looksLikeTitle_length in E.
    split.
    + intros H. rewrite H in E. simpl in E. lia.
    + intros line' [= <-]. split; [reflexivity | exact E].
  - split; [|discriminate].
    destruct (parseURL P url) as [u|]; [|discriminate].
    intros H. apply (f_equal (@length char)) in H.
    rewrite capitalizeFrom_length, length_map in H.
    destruct (rev (filter nonEmpty (split 47%N (pathname u)))) as [|seg segs] eqn:Er;
      [discriminate|].
    assert (Hin : In seg (filter nonEmpty (split 47%N (pathname u)))).
    { apply in_rev. rewrite Er. now left. }
    apply filter_In in Hin as [_ Hne]. destruct seg; [discriminate|].
    simpl in H. discriminate.
Qed.

(* ================================================================= *)
(** ** Further properties of the quote provider *)

Section PromptFacts.

Lemma startsWith_nil_false (p : str) : p <> [] -> startsWith p [] = false.
Proof. now destruct p. Qed.

(** A code unit that the pattern does not hold stops every match that
    would run across it. *)
Lemma startsWith_across (p a b : str) (c : char) :
  ~ In c p -> startsWith p (a ++ c :: b) = startsWith p a.
Proof.
  revert a. induction p as [|x p IH]; intros a H; [now destruct a|].
  destruct a as [|y a]; simpl.
  - destruct (x =? c)%N eqn:E; [|reflexivity].
    apply N.eqb_eq in E. subst. exfalso. apply H. now left.
  - rewrite IH; [reflexivity|]. intros Hin. apply H. now right.
Qed.

Lemma afterFirst_across (p a b : str) (c : char) :
  p <> [] -> ~ In c p -> includes p a = false ->
  afterFirst p (a ++ c :: b) = afterFirst p b.
Proof.
  intros Hp Hc. induction a as [|y a IH]; intros H.
  - pose proof (startsWith_across p [] b c Hc) as E. cbn [app] in E.
    cbn [app afterFirst]. rewrite E, (startsWith_nil_false p Hp).
    reflexivity.
  - simpl in H. apply orb_false_iff in H as [H1 H2].
    pose proof (startsWith_across p (y :: a) b c Hc) as E. cbn [app] in E.
    cbn [app afterFirst]. rewrite E, H1. now apply IH.
Qed.

Lemma afterFirst_here (p rest : str) :
  p <> [] -> afterFirst p (p ++ rest) = Some rest.
Proof.
  intros Hp. destruct p as [|x p]; [congruence|].
  cbn [app afterFirst].
  change (x :: p ++ rest) with ((x :: p) ++ rest).
  now rewrite startsWith_app, skipn_length_app.
Qed.

Lemma lazyUntil_stop (h : char) (stop content tail : str) :
  ~ In h content ->
  lazyUntil (h :: stop) (content ++ (h :: stop) ++ tail) = content.
Proof.
  induction content as [|y content IH]; intros H.
  - cbn [app lazyUntil].
    change (h :: stop ++ tail) with ((h :: stop) ++ tail).
    now rewrite startsWith_app.
  - cbn [app lazyUntil].
    assert (E : (h =? y)%N = false).
    { apply N.eqb_neq. intros ->. apply H. now left. }
    cbn [startsWith]. rewrite E. cbn [andb]. f_equal.
    apply IH. intros Hin. apply H. now right.
Qed.

Lemma trimStart_app_clean (content rest : str) :
  content <> [] -> startsClean content = true ->
  trimStart (content ++ rest) = content ++ rest.
Proof.
  destruct content as [|c content]; [congruence|]. simpl.
  intros _ H. apply negb_true_iff in H. now rewrite H.
Qed.

Lemma buildPrompt_parts (content title : str) :
  exists tail,
    buildPrompt content title
    = promptHead ++ DQUOTE :: title ++ DQUOTE :: [] ++ LF :: [] ++ LF ::
        CONTENT_MARKER ++ LF :: content ++ (LF :: LF :: lit "Instructions:") ++ tail.
Proof.
  eexists. unfold buildPrompt, promptHead, CONTENT_MARKER.
  rewrite <- !app_assoc. cbn [app].
  do 4 f_equal.
Qed.

End PromptFacts.

(** X15: the local-inference backend gets the interview content back out of
    the prompt it was given: for a title that does not hold the marker
    [Interview Content:] and a non-empty content that starts with no white
    space and holds no line feed (as every cleaned content does), the part
    of the prompt that [extractWithTransformers] re-extracts is the content,
    and its short prompt carries the first 2000 code units of it. *)
Theorem promptContent_buildPrompt (content title : str) :
  content <> [] -> startsClean content = true -> ~ In LF content ->
  includes CONTENT_MARKER title = false ->
  promptContent (buildPrompt content title) = content
  /\ simplePrompt (buildPrompt content title)
     = lit "Extract the most meaningful quote from this Rick Owens interview that shows his philosophy or vision:"
       ++ [LF; LF] ++ firstn 2000 content
       ++ [LF; LF] ++ lit "Most meaningful quote:".
Proof.
  intros Hne Hs Hlf Ht.
  assert (E : promptContent (buildPrompt content title) = content).
  { destruct (buildPrompt_parts content title) as [tail ->].
    unfold promptContent. fold CONTENT_MARKER.
    assert (Hm : CONTENT_MARKER <> []) by discriminate.
    rewrite afterFirst_across;
      [|exact Hm | vm_compute; intuition discriminate | vm_compute; reflexivity].
    rewrite afterFirst_across;
      [|exact Hm | vm_compute; intuition discriminate | exact Ht].
    rewrite afterFirst_across;
      [|exact Hm | vm_compute; intuition discriminate | reflexivity].
    rewrite afterFirst_across;
      [|exact Hm | vm_compute; intuition discriminate | reflexivity].
    rewrite afterFirst_here by exact Hm.
    change (trimStart (LF :: content ++ (LF :: LF :: lit "Instructions:") ++ tail))
      with (trimStart (content ++ (LF :: LF :: lit "Instructions:") ++ tail)).
    rewrite trimStart_app_clean by assumption.
    change ([LF; LF] ++ lit "Instructions:") with (LF :: LF :: lit "Instructions:").
    now apply lazyUntil_stop. }
  split; [exact E|]. unfold simplePrompt. now rewrite E.
Qed.

Lemma promptContent_buildPrompt_witness :
  promptContent (buildPrompt Fixtures.longText (lit "I1")) = Fixtures.longText.
Proof.
  apply (promptContent_buildPrompt Fixtures.longText (lit "I1")).
  - discriminate.
  - reflexivity.
  - vm_compute. intuition discriminate.
  - vm_compute. reflexivity.
Defined.

(** A title that holds the marker misleads the extraction. *)
Example promptContent_title_with_marker :
  promptContent (buildPrompt (lit "Body") (lit "Interview Content: part two"))
  = lit "part two" ++ [DQUOTE; LF; LF] ++ lit "Interview Content:" ++ [LF] ++ lit "Body".
Proof. vm_compute. reflexivity. Qed.

(** X16: the legacy [extractQuote] returns the cleaned quote when there is
    one; when the reply cleans to nothing or to the sentinel it does not
    return [null] but throws a [TypeError], because it indexes the [null]
    that [extractQuotes] returned. *)
Theorem extractQuote_throws_on_no_quote
        (w : QuoteExtractor.World) (content title : str)
        (self self' : QuoteExtractor.t) (tr : list effect) (response : option str) :
  backendReply w (buildPrompt content title) self = (self', tr, inr response) ->
  extractQuote w content title self
  = (self', tr,
     match cleanQuote response with
     | Some (c :: q) =>
         if strEq (c :: q) ERROR_NO_QUOTE
         then inl (TypeError "Cannot read properties of null")
         else inr (Some (c :: q))
     | _ => inl (TypeError "Cannot read properties of null")
     end).
Proof.
  intros H. unfold extractQuote, bind.
  rewrite (extractQuotes_unfold w content title self self' tr response H).
  destruct (cleanQuote response) as [[|c q]|]; cbn -[strEq ERROR_NO_QUOTE];
    rewrite ?app_nil_r; try reflexivity.
  destruct (strEq (c :: q) ERROR_NO_QUOTE); cbn; now rewrite app_nil_r.
Qed.

Lemma extractQuote_throws_on_no_quote_witness :
  result_of (extractQuote (Fixtures.extractorWorld (Some (lit "ERROR_NO_QUOTE")))
                          Fixtures.longText (lit "I1") Fixtures.extractor)
  = inl (TypeError "Cannot read properties of null").
Proof.
  rewrite (extractQuote_throws_on_no_quote
             (Fixtures.extractorWorld (Some (lit "ERROR_NO_QUOTE")))
             Fixtures.longText (lit "I1") Fixtures.extractor Fixtures.extractor
             [ProviderCall (request Fixtures.extractor
                                    (buildPrompt Fixtures.longText (lit "I1")))]
             (Some (lit "ERROR_NO_QUOTE")) eq_refl).
  vm_compute. reflexivity.
Defined.

(* ================================================================= *)
(** ** Further properties of the email dispatcher *)

Section MoreSendFacts.

Import EmailSender.

Lemma sendQuoteEmail_ready (w : EmailSender.World) (r : str) (rs : list str)
      (subject text html : str) (self : EmailSender.t) :
  transporter self = true ->
  sendQuoteEmail w (Some (r :: rs)) subject text html self
  = (self, [SmtpSendMail (mailTo self (r :: rs) subject text html)],
     match sendMail w with
     | inl e => inl e
     | inr info => inr (mkReceipt true info (r :: rs) (clockSent w))
     end).
Proof.
  intros H. unfold sendQuoteEmail, bind, get, call, ret. cbn beta iota.
  rewrite H. cbn. unfold mailTo.
  destruct (sendMail w); cbn; reflexivity.
Qed.

Lemma sendQuote_as_sendQuoteEmail (build : QuoteData -> EmailContent)
      (w : EmailSender.World) (quoteData : QuoteData)
      (recipients : option (list str)) (self : EmailSender.t) :
  sendQuote build w quoteData recipients self
  = sendQuoteEmail w recipients (subject (build quoteData))
                   (EmailSender.text (build quoteData)) (html (build quoteData)) self.
Proof. reflexivity. Qed.

End MoreSendFacts.

(** X17: a sender whose configuration lacks the host, the user or the
    password never makes a call: both sends throw
    [Email configuration is incomplete], whatever the recipients are, and
    [testConnection] answers [false]; the sender is left as it was. *)
Theorem unconfigured_sender_makes_no_call
        (build : EmailSender.QuoteData -> EmailSender.EmailContent)
        (w w' : EmailSender.World) (recipients : option (list str))
        (subject text html : str) (quoteData : EmailSender.QuoteData)
        (c : EmailSender.Config) :
  EmailSender.validateConfig c = false ->
  let self := EmailSender.create c in
  EmailSender.sendQuoteEmail w recipients subject text html self
  = (self, [], inl (Error "Email configuration is incomplete"))
  /\ EmailSender.sendQuote build w quoteData recipients self
     = (self, [], inl (Error "Email configuration is incomplete"))
  /\ EmailSender.testConnection w w' self = (self, [], inr false).
Proof.
  intros H self.
  assert (E : forall s t h,
             EmailSender.sendQuoteEmail w recipients s t h self
             = (self, [], inl (Error "Email configuration is incomplete"))).
  { intros s t h. unfold EmailSender.sendQuoteEmail, bind, get. cbn beta iota.
    unfold self, EmailSender.create at 1. cbn [EmailSender.transporter].
    fold self. rewrite init_outcome. unfold self, EmailSender.create at 1.
    cbn [EmailSender.isConfigured]. now rewrite H. }
  split; [apply E|]. split; [rewrite sendQuote_as_sendQuoteEmail; apply E|].
  unfold EmailSender.testConnection, bind, get. cbn beta iota.
  unfold self, EmailSender.create at 1. cbn [EmailSender.transporter].
  fold self. rewrite init_outcome. unfold self, EmailSender.create at 1.
  cbn [EmailSender.isConfigured]. now rewrite H.
Qed.

Lemma unconfigured_sender_makes_no_call_witness :
  let c := EmailSender.mkConfig None 587 false (Some (lit "bot@x.test"))
                                (Some (lit "secret")) None in
  EmailSender.testConnection Fixtures.senderWorld Fixtures.senderWorld
                             (EmailSender.create c)
  = (EmailSender.create c, [], inr false).
Proof.
  intros c.
  apply (unconfigured_sender_makes_no_call
           (fun _ => EmailSender.mkContent [] [] [])
           Fixtures.senderWorld Fixtures.senderWorld None [] [] []
           (EmailSender.mkQuoteData [] [] []) c).
  reflexivity.
Defined.

(** X18: a send whose liveness check fails throws the error of the check
    and still keeps the transport it created, so the next send skips
    [init]: it submits its message at once, without any liveness check. *)
Theorem send_after_failed_verification_skips_it
        (w w' : EmailSender.World) (e : exn) (r : str) (rs : list str)
        (subject text html : str) (self : EmailSender.t) :
  EmailSender.transporter self = false ->
  EmailSender.isConfigured self = true ->
  EmailSender.verify w = Some e ->
  EmailSender.sendQuoteEmail w (Some (r :: rs)) subject text html self
  = (withTransport self, [SmtpCreateTransport; SmtpVerify], inl e)
  /\ trace_of (EmailSender.sendQuoteEmail w' (Some (r :: rs)) subject text html
                                          (withTransport self))
     = [SmtpSendMail (mailTo self (r :: rs) subject text html)].
Proof.
  intros Ht Hc Hv. split.
  - unfold EmailSender.sendQuoteEmail, bind, get. cbn beta iota.
    rewrite Ht, init_outcome, Hc, Hv. unfold withTransport. now rewrite Hc.
  - now rewrite sendQuoteEmail_ready.
Qed.

Lemma send_after_failed_verification_skips_it_witness :
  let down := EmailSender.mkWorld (Some (Thrown "Error" "ECONNREFUSED"))
                                  (inr (lit "<message-1@x.test>")) 3000%Z in
  let self := EmailSender.create Fixtures.senderConfig in
  result_of (EmailSender.sendQuoteEmail down (Some [lit "reader@x.test"])
               (lit "subject") (lit "text") (lit "html") self)
  = inl (Thrown "Error" "ECONNREFUSED").
Proof.
  intros down self.
  destruct (send_after_failed_verification_skips_it
              down Fixtures.senderWorld (Thrown "Error" "ECONNREFUSED")
              (lit "reader@x.test") [] (lit "subject") (lit "text") (lit "html")
              self eq_refl eq_refl eq_refl) as [H _].
  now rewrite H.
Defined.

(** X19: [testConnection] never submits a message and never throws.  With
    the transport in place it verifies once; a fresh, configured sender
    creates the transport and verifies, and when that succeeds verifies a
    second time; the answer is [true] exactly when every verification
    made succeeded. *)
Theorem testConnection_outcome (w w' : EmailSender.World) (self : EmailSender.t) :
  EmailSender.testConnection w w' self
  = (if EmailSender.transporter self
     then (self, [SmtpVerify], inr (verified w'))
     else if EmailSender.isConfigured self
          then if verified w
               then (withTransport self,
                     [SmtpCreateTransport; SmtpVerify; SmtpVerify],
                     inr (verified w'))
               else (withTransport self, [SmtpCreateTransport; SmtpVerify],
                     inr false)
          else (self, [], inr false))
  /\ sends (trace_of (EmailSender.testConnection w w' self)) = 0.
Proof.
  assert (E : EmailSender.testConnection w w' self
              = (if EmailSender.transporter self
                 then (self, [SmtpVerify], inr (verified w'))
                 else if EmailSender.isConfigured self
                      then if verified w
                           then (withTransport self,
                                 [SmtpCreateTransport; SmtpVerify; SmtpVerify],
                                 inr (verified w'))
                           else (withTransport self,
                                 [SmtpCreateTransport; SmtpVerify], inr false)
                      else (self, [], inr false))).
  { unfold EmailSender.testConnection, bind, get, call, verified, withTransport.
    cbn beta iota.
    destruct (EmailSender.transporter self).
    - cbn. now destruct (EmailSender.verify w').
    - rewrite init_outcome.
      destruct (EmailSender.isConfigured self); [|reflexivity].
      destruct (EmailSender.verify w); [reflexivity|].
      cbn. now destruct (EmailSender.verify w'). }
  split; [exact E|]. rewrite E.
  destruct (EmailSender.transporter self); [reflexivity|].
  destruct (EmailSender.isConfigured self); [|reflexivity].
  now destruct (verified w).
Qed.

(** X20: [sendTestEmail] wraps its argument in an array of one element, so
    the recipient check never stops it: with the transport in place it
    submits exactly one message, addressed to the argument as it is (even
    the empty string), and returns the receipt or throws what the
    transport throws. *)
Theorem sendTestEmail_submits
        (build : EmailSender.QuoteData -> EmailSender.EmailContent)
        (w : EmailSender.World) (recipient : str) (self : EmailSender.t) :
  EmailSender.transporter self = true ->
  EmailSender.sendTestEmail build w recipient self
  = (self,
     [SmtpSendMail
        (mkMail (EmailSender.from (EmailSender.config self)) recipient
                (EmailSender.subject (build EmailSender.testQuoteData))
                (EmailSender.text (build EmailSender.testQuoteData))
                (EmailSender.html (build EmailSender.testQuoteData)))],
     match EmailSender.sendMail w with
     | inl e => inl e
     | inr info =>
         inr (EmailSender.mkReceipt true info [recipient] (EmailSender.clockSent w))
     end).
Proof.
  intros H. unfold EmailSender.sendTestEmail.
  rewrite sendQuote_as_sendQuoteEmail.
  now rewrite sendQuoteEmail_ready by exact H.
Qed.

Lemma sendTestEmail_submits_witness :
  sends (trace_of (EmailSender.sendTestEmail
                     (fun _ => EmailSender.mkContent [] [] [])
                     Fixtures.senderWorld []
                     (withTransport (EmailSender.create Fixtures.senderConfig))))
  = 1.
Proof.
  rewrite (sendTestEmail_submits (fun _ => EmailSender.mkContent [] [] [])
             Fixtures.senderWorld []
             (withTransport (EmailSender.create Fixtures.senderConfig)) eq_refl).
  reflexivity.
Defined.

(* ================================================================= *)
(** ** Properties of the configuration and of the bot's start-up *)

Section ConfigFacts.

Import Config.

Lemma takePlain_dropPlain (s : str) : s = takePlain s ++ dropPlain s.
Proof.
  induction s as [|c s IH]; simpl; [reflexivity|].
  destruct (plain c); simpl; [now f_equal | reflexivity].
Qed.

Lemma takePlain_plain (s : str) : forallb plain (takePlain s) = true.
Proof.
  induction s as [|c s IH]; simpl; [reflexivity|].
  destruct (plain c) eqn:E; simpl; [now rewrite E | reflexivity].
Qed.

Lemma takePlain_app (a rest : str) (c : char) :
  forallb plain a = true -> plain c = false ->
  takePlain (a ++ c :: rest) = a /\ dropPlain (a ++ c :: rest) = c :: rest.
Proof.
  intros Ha Hc. induction a as [|x a IH]; simpl.
  - now rewrite Hc.
  - simpl in Ha. apply andb_prop in Ha as [Hx Ha]. rewrite Hx.
    destruct (IH Ha) as [-> ->]. now split.
Qed.

Lemma existsb_dot (s : str) : existsb (fun c => (c =? 46)%N) s = true <-> In 46%N s.
Proof.
  rewrite existsb_exists. split.
  - intros (c & Hin & E). apply N.eqb_eq in E. now subst.
  - intros H. exists 46%N. now split.
Qed.

(** [validateConnections] reports no issue exactly when the key has the
    expected form, there is a recipient, and every recipient matches the
    pattern. *)
Lemma validateConnections_valid (os : OS) (env : Env) :
  valid (validateConnections os env) = true
  <-> keyIssues os env = []
      /\ getEmailRecipients (EMAIL_RECIPIENTS env) <> []
      /\ Forall (fun email => emailRegexTest email = true)
                (getEmailRecipients (EMAIL_RECIPIENTS env)).
Proof.
  unfold validateConnections.
  set (rs := getEmailRecipients (EMAIL_RECIPIENTS env)).
  destruct (keyIssues os env) as [|k ks].
  - destruct rs as [|r rs'] eqn:Er; cbn [length Nat.eqb app].
    + split; [discriminate | intros (_ & H & _); congruence].
    + destruct (filter (fun email => negb (emailRegexTest email)) (r :: rs'))
        as [|bad bads] eqn:Ef; cbn [map valid].
      * split; [intros _|reflexivity].
        split; [reflexivity|]. split; [discriminate|].
        apply Forall_forall. intros e He.
        destruct (emailRegexTest e) eqn:Ee; [reflexivity|exfalso].
        assert (Hin : In e (filter (fun email => negb (emailRegexTest email)) (r :: rs'))).
        { apply filter_In. split; [exact He | now rewrite Ee]. }
        rewrite Ef in Hin. contradiction.
      * split; [discriminate|]. intros (_ & _ & H).
        assert (Hin : In bad (filter (fun email => negb (emailRegexTest email)) (r :: rs'))).
        { rewrite Ef. now left. }
        apply filter_In in Hin as [Hin Hb].
        rewrite Forall_forall in H. rewrite (H bad Hin) in Hb. discriminate.
  - cbn. split; [discriminate | intros (H & _); discriminate].
Qed.

End ConfigFacts.

(** X21: an environment that passed [validate()] and names a provider of
    the schema always yields an extractor: [getAIConfig()] returns a
    configuration that the constructor of [QuoteExtractor] accepts, for the
    provider in force on the platform. *)
Theorem validated_config_builds_extractor (os : Config.OS) (env : Config.Env) :
  Config.validate os env = inr env ->
  supported (Config.getPlatformSpecificProvider os env) = true ->
  exists cfg x,
    Config.getAIConfig os env = inr cfg
    /\ QuoteExtractor.create (Some cfg) = inr x
    /\ provider x = Config.getPlatformSpecificProvider os env
    /\ QuoteExtractor.config x = cfg.
Proof.
  unfold Config.validate, Config.platformIssues, Config.getAIConfig.
  destruct (Config.getPlatformSpecificProvider os env) eqn:Ep;
    intros Hv Hs; try discriminate.
  - destruct (truthy (Config.OPENAI_API_KEY env)) eqn:Ek; [|discriminate].
    do 2 eexists. split; [reflexivity|].
    unfold QuoteExtractor.create. cbn. rewrite Ek. cbn. repeat split.
  - destruct (truthy (Config.ANTHROPIC_API_KEY env)) eqn:Ek; [|discriminate].
    do 2 eexists. split; [reflexivity|].
    unfold QuoteExtractor.create. cbn. rewrite Ek. cbn. repeat split.
  - destruct (truthy (Config.GEMINI_API_KEY env)) eqn:Ek; [|discriminate].
    do 2 eexists. split; [reflexivity|].
    unfold QuoteExtractor.create. cbn. rewrite Ek. cbn. repeat split.
  - do 2 eexists. repeat split.
  - do 2 eexists. repeat split.
Qed.

Lemma validated_config_builds_extractor_witness :
  exists cfg x,
    Config.getAIConfig Config.linux Samples.env = inr cfg
    /\ QuoteExtractor.create (Some cfg) = inr x.
Proof.
  destruct (validated_config_builds_extractor Config.linux Samples.env
              eq_refl eq_refl) as (cfg & x & H1 & H2 & _).
  exists cfg, x. split; [exact H1 | exact H2].
Defined.

(** X22: the recipient pattern accepts exactly the strings made of a
    non-empty local part, one at sign and a domain, where neither part holds
    white space or an at sign and the domain has a dot that is neither its
    first nor its last code unit. *)
Theorem emailRegexTest_accepts (email : str) :
  Config.emailRegexTest email = true
  <-> exists localPart domain : str,
        email = localPart ++ (64%N : char) :: domain
        /\ localPart <> []
        /\ forallb Config.plain localPart = true
        /\ forallb Config.plain domain = true
        /\ In (46%N : char) (removelast (tl domain)).
Proof.
  unfold Config.emailRegexTest. split.
  - intros H. pose proof (takePlain_dropPlain email) as E.
    pose proof (takePlain_plain email) as Hp.
    destruct (Config.takePlain email) as [|c l]; [discriminate|].
    destruct (Config.dropPlain email) as [|a d]; [discriminate|].
    apply andb_prop in H as [H Hdot]. apply andb_prop in H as [Ha Hd].
    apply N.eqb_eq in Ha. subst a.
    exists (c :: l), d. repeat split; try assumption; try discriminate.
    now apply existsb_dot.
  - intros (l & d & -> & Hne & Hl & Hd & Hdot).
    destruct (takePlain_app l d 64%N Hl eq_refl) as [E1 E2].
    rewrite E1, E2.
    destruct l; [congruence|].
    rewrite N.eqb_refl, Hd. cbn [andb]. now apply existsb_dot.
Qed.

Section InitFacts.

Lemma no_recipient_is_invalid (os : Config.OS) (env : Config.Env) :
  Config.getEmailRecipients (Config.EMAIL_RECIPIENTS env) = [] ->
  Config.valid (Config.validateConnections os env) = false
  /\ In "At least one email recipient is required"%string
        (Config.issues (Config.validateConnections os env)).
Proof.
  intros H. unfold Config.validateConnections. rewrite H. cbn [length Nat.eqb filter map].
  rewrite app_nil_r.
  destruct (Config.keyIssues os env) as [|k ks]; cbn.
  - split; [reflexivity | now left].
  - split; [reflexivity|]. right. apply in_or_app. right. now left.
Qed.

Lemma init_invalid (os : Config.OS) (env : Config.Env) (b : RickOwensQuoteBot.t) :
  Config.valid (Config.validateConnections os env) = false ->
  init os env b
  = (b, [],
     inl (Error ("Configuration validation failed: "
                 ++ Config.joinIssues (Config.issues (Config.validateConnections os env))))).
Proof. intros H. unfold init. now rewrite H. Qed.

End InitFacts.

(** X23: with an empty recipient list the bot's [init()] throws the
    configuration error that names the missing recipient; it constructs no
    service, makes no outside call and leaves the bot as it was. *)
Theorem init_rejects_empty_recipient_list
        (os : Config.OS) (env : Config.Env) (b : RickOwensQuoteBot.t) :
  Config.getEmailRecipients (Config.EMAIL_RECIPIENTS env) = [] ->
  exists found,
    In "At least one email recipient is required"%string found
    /\ init os env b
       = (b, [],
          inl (Error ("Configuration validation failed: "
                      ++ Config.joinIssues found))).
Proof.
  intros H. destruct (no_recipient_is_invalid os env H) as [Hv Hin].
  exists (Config.issues (Config.validateConnections os env)).
  split; [exact Hin | now apply init_invalid].
Qed.

Lemma init_rejects_empty_recipient_list_witness :
  let env := Config.mkEnv openai None None None
               (Some (lit "sk-test")) [] None [] None [] [] [] [] 500
               (lit "smtp.x.test") 587 false (lit "bot@x.test") (lit "secret")
               None (lit " , ,") in
  exists found,
    In "At least one email recipient is required"%string found
    /\ init Config.linux env RickOwensQuoteBot.create
       = (RickOwensQuoteBot.create, [],
          inl (Error ("Configuration validation failed: "
                      ++ Config.joinIssues found))).
Proof.
  intros env.
  apply (init_rejects_empty_recipient_list Config.linux env
           RickOwensQuoteBot.create).
  vm_compute. reflexivity.
Defined.

(** With nothing else wrong, the message names that one issue. *)
Example init_empty_recipient_list_message :
  result_of (init Config.linux
               (Config.mkEnv openai None None None
                  (Some (lit "sk-test")) [] None [] None [] [] [] [] 500
                  (lit "smtp.x.test") 587 false (lit "bot@x.test")
                  (lit "secret") None (lit " , ,"))
               RickOwensQuoteBot.create)
  = inl (Error "Configuration validation failed: At least one email recipient is required").
Proof. vm_compute. reflexivity. Qed.

(** X24: when the bot's [init()] returns, all three services are in place
    (a reader that has not loaded yet, an extractor for the provider in
    force, a sender built from the email settings that has no transport
    yet), the guard is untouched, no outside call was made, and the
    recipient list is not empty and holds only addresses that match the
    pattern. *)
Theorem init_success_sets_services
        (os : Config.OS) (env : Config.Env) (b : RickOwensQuoteBot.t) :
  result_of (init os env b) = inr tt ->
  interviewReader (state_of (init os env b)) = Some InterviewReader.create
  /\ (exists x,
        quoteExtractor (state_of (init os env b)) = Some x
        /\ provider x = Config.getPlatformSpecificProvider os env)
  /\ emailSender (state_of (init os env b))
     = Some (EmailSender.create (Config.getEmailConfig env))
  /\ isRunning (state_of (init os env b)) = isRunning b
  /\ trace_of (init os env b) = []
  /\ Config.getEmailRecipients (Config.EMAIL_RECIPIENTS env) <> []
  /\ Forall (fun email => Config.emailRegexTest email = true)
            (Config.getEmailRecipients (Config.EMAIL_RECIPIENTS env)).
Proof.
  unfold init.
  destruct (Config.valid (Config.validateConnections os env)) eqn:Ev;
    [|discriminate].
  apply validateConnections_valid in Ev as (_ & Hne & Hall).
  cbn [negb]. unfold bind, modify, throw.
  destruct (Config.getAIConfig os env) as [e|cfg] eqn:Ec; [discriminate|].
  destruct (QuoteExtractor.create (Some cfg)) as [e|x] eqn:Ex; [discriminate|].
  intros _. cbn. repeat split; try assumption.
  exists x. split; [reflexivity|].
  unfold Config.getAIConfig in Ec.
  destruct (Config.getPlatformSpecificProvider os env) eqn:Ep;
    try discriminate; injection Ec as <-;
    unfold QuoteExtractor.create in Ex; cbn in Ex;
    match type of Ex with
    | context [truthy ?k] => destruct (truthy k); cbn in Ex; try discriminate
    | _ => idtac
    end; now injection Ex as <-.
Qed.

Lemma init_success_sets_services_witness :
  emailSender (state_of (init Config.linux Samples.env RickOwensQuoteBot.create))
  = Some (EmailSender.create (Config.getEmailConfig Samples.env)).
Proof.
  destruct (init_success_sets_services Config.linux Samples.env
              RickOwensQuoteBot.create) as (_ & _ & H & _).
  - vm_compute. reflexivity.
  - exact H.
Defined.

Section FiringFacts.

Variable P : Platform.
Variable formatEmail :
  InterviewRecord -> list QuoteExtractor.QuoteResult -> EmailSender.EmailContent.

Lemma processQuote_ends_idle (w : World) (b : RickOwensQuoteBot.t) :
  isRunning b = false ->
  isRunning (state_of (processQuote P formatEmail w b)) = false.
Proof.
  intros H. rewrite processQuote_steps, H.
  destruct (fetchInterview P w (setRunning true b)) as [[b1 t1] [e|i]]; [reflexivity|].
  destruct (fetchQuotes w i b1) as [[b2 t2] [e|qs]]; [reflexivity|].
  destruct (deliver formatEmail w i qs b2) as [[b3 t3] [e|rs]]; reflexivity.
Qed.

Lemma fire_outcome (w : World) (b : RickOwensQuoteBot.t) :
  fire P formatEmail w b
  = (state_of (processQuote P formatEmail w b),
     trace_of (processQuote P formatEmail w b), inr tt).
Proof.
  unfold fire. now destruct (processQuote P formatEmail w b) as [[b' tr] r].
Qed.

End FiringFacts.

(** X25: scheduled firings that follow one another never wedge the bot:
    starting with the guard cleared, the guard is cleared again after every
    firing, whatever went wrong inside, no error escapes the callback, and
    [n] firings submit at most [n] messages. *)
Theorem scheduled_firings_never_wedge
        (P : Platform)
        (formatEmail : InterviewRecord -> list QuoteExtractor.QuoteResult
                       -> EmailSender.EmailContent)
        (ws : list World) (b : RickOwensQuoteBot.t) :
  isRunning b = false ->
  isRunning (state_of (fireAll P formatEmail ws b)) = false
  /\ result_of (fireAll P formatEmail ws b) = inr tt
  /\ sends (trace_of (fireAll P formatEmail ws b)) <= length ws.
Proof.
  revert b. induction ws as [|w ws IH]; intros b Hb.
  - cbn. repeat split; [exact Hb | lia].
  - cbn [fireAll length]. unfold bind. rewrite fire_outcome.
    pose proof (processQuote_ends_idle P formatEmail w b Hb) as Hidle.
    destruct (processQuote_sends P formatEmail w b) as [Hs _].
    specialize (IH _ Hidle).
    destruct (fireAll P formatEmail ws (state_of (processQuote P formatEmail w b)))
      as [[b2 t2] r2].
    unfold state_of, trace_of, result_of in *. cbn [fst snd] in *.
    destruct IH as (H1 & H2 & H3).
    rewrite sends_app. repeat split; [exact H1 | exact H2 | lia].
Qed.

Lemma scheduled_firings_never_wedge_witness :
  let fails := Fixtures.world (Some (lit "ERROR_NO_QUOTE")) in
  let works := Fixtures.world (Some (lit "  'Life is short.'  ")) in
  isRunning (state_of (fireAll Fixtures.platform Fixtures.formatEmail
                               [fails; works] Fixtures.bot)) = false.
Proof.
  intros fails works.
  apply (scheduled_firings_never_wedge Fixtures.platform Fixtures.formatEmail
           [fails; works] Fixtures.bot).
  reflexivity.
Defined.

(** A firing that fails is followed by one that delivers. *)
Example firing_after_failure_delivers :
  sends (trace_of (fireAll Fixtures.platform Fixtures.formatEmail
                           [Fixtures.world (Some (lit "ERROR_NO_QUOTE"));
                            Fixtures.world (Some (lit "  'Life is short.'  "))]
                           Fixtures.bot)) = 1.
Proof. vm_compute. reflexivity. Qed.

(* ================================================================= *)
(** ** The text cleaning of the scraper *)

(** X26: the scraper's [cleanContent] is written with doubled backslashes,
    so its last expression keeps only the code units from 0 to backslash
    (digits, some punctuation, capital letters), n and x: what it returns
    holds no space and no other small letter. *)
Theorem scraper_cleanContent_keeps_little (content : str) (c : char) :
  In c (InterviewScraper.cleanContent content) ->
  ((48 <= c <= 92)%N \/ c = 110%N \/ c = 120%N)
  /\ c <> SPACE
  /\ ((97 <= c <= 122)%N -> c = 110%N \/ c = 120%N).
Proof.
  intros H. unfold InterviewScraper.cleanContent in H.
  apply trim_In, filter_In in H as [_ H].
  unfold InterviewScraper.kept, InterviewScraper.BACKSLASH,
    InterviewScraper.LETTER_N in H.
  assert (Hc : (48 <= c <= 92)%N \/ c = 110%N \/ c = 120%N).
  { repeat (apply orb_prop in H as [H|H]);
      try (apply N.eqb_eq in H; subst c; lia).
    apply andb_prop in H as [H1 H2]. apply N.leb_le in H1, H2. lia. }
  split; [exact Hc|]. unfold SPACE. split; lia.
Qed.

Lemma scraper_cleanContent_keeps_little_witness :
  InterviewScraper.cleanContent (lit "Hello, World 2024") = lit "HW2024"
  /\ (72%N : char) <> SPACE.
Proof.
  split; [vm_compute; reflexivity|].
  apply (scraper_cleanContent_keeps_little (lit "Hello, World 2024") 72%N).
  vm_compute. now left.
Defined.

(* ================================================================= *)
(** ** Runs that report success, and runs that throw *)

Section RunFacts.

Variable P : Platform.
Variable formatEmail :
  InterviewRecord -> list QuoteExtractor.QuoteResult -> EmailSender.EmailContent.

Lemma extractQuotes_one (w : QuoteExtractor.World) (content title : str)
      (self : QuoteExtractor.t) (qs : list QuoteExtractor.QuoteResult) :
  result_of (extractQuotes w content title self) = inr (Some qs) ->
  length qs = 1.
Proof.
  unfold extractQuotes, bind.
  destruct (backendReply w (buildPrompt content title) self) as [[x tr] [e|response]];
    [discriminate|].
  unfold get. cbn beta iota zeta.
  destruct (negb (truthy (cleanQuote response)) || isSentinel (cleanQuote response));
    [discriminate|].
  destruct (cleanQuote response) as [q|]; [|discriminate].
  unfold result_of, ret. cbn [snd]. intros H. injection H as <-. reflexivity.
Qed.

Lemma fetchQuotes_one (w : World) (i : InterviewRecord)
      (b : RickOwensQuoteBot.t) (qs : list QuoteExtractor.QuoteResult) :
  result_of (fetchQuotes w i b) = inr qs -> length qs = 1.
Proof.
  unfold fetchQuotes, bind, onExtractor.
  destruct (quoteExtractor b) as [x|]; [|discriminate].
  pose proof (extractQuotes_one (extractorWorld w) (content i) (title i) x) as H.
  destruct (extractQuotes (extractorWorld w) (content i) (title i) x)
    as [[x' tr] [e|[[|q qs']|]]]; try discriminate.
  unfold result_of in *. cbn [snd] in *. cbn.
  intros E. injection E as <-. now apply H.
Qed.

Lemma sendQuoteEmail_success (w : EmailSender.World) (l : list str)
      (subject text html : str) (self : EmailSender.t) (receipt : EmailSender.Receipt) :
  result_of (EmailSender.sendQuoteEmail w (Some l) subject text html self)
  = inr receipt ->
  l <> []
  /\ exists before,
       trace_of (EmailSender.sendQuoteEmail w (Some l) subject text html self)
       = before ++ [SmtpSendMail (mailTo self l subject text html)]
       /\ sends before = 0.
Proof.
  destruct l as [|r rs].
  - rewrite (sendQuoteEmail_no_recipients w (Some []) subject text html self eq_refl).
    destruct (emptyRecipientsOutcome_never_sends w self) as [_ [e He]].
    rewrite He. discriminate.
  - intros H. split; [discriminate|].
    destruct (EmailSender.transporter self) eqn:Et.
    + rewrite (sendQuoteEmail_ready w r rs subject text html self Et).
      exists []. split; reflexivity.
    + revert H.
      unfold EmailSender.sendQuoteEmail, bind, get, ret, call, throw, mailTo.
      cbn -[EmailSender.init EmailSender.join]. rewrite Et, init_outcome.
      destruct (EmailSender.isConfigured self) eqn:Ec; [|discriminate].
      destruct (EmailSender.verify w); [discriminate|].
      cbn -[EmailSender.join].
      destruct (EmailSender.sendMail w); [discriminate|]. intros _.
      exists [SmtpCreateTransport; SmtpVerify]. split; reflexivity.
Qed.

Lemma deliver_success (w : World) (i : InterviewRecord)
      (qs : list QuoteExtractor.QuoteResult) (b : RickOwensQuoteBot.t)
      (rs : list str) :
  result_of (deliver formatEmail w i qs b) = inr rs ->
  rs = Config.getEmailRecipients (EMAIL_RECIPIENTS w)
  /\ rs <> []
  /\ exists before mail,
       trace_of (deliver formatEmail w i qs b) = before ++ [SmtpSendMail mail]
       /\ sends before = 0
       /\ mail_to mail = EmailSender.join rs
       /\ mail_subject mail = lit "OWENSQUOTE: " ++ title i
       /\ mail_text mail = EmailSender.text (formatEmail i qs)
       /\ mail_html mail = EmailSender.html (formatEmail i qs).
Proof.
  unfold deliver, bind, onSender.
  destruct (emailSender b) as [s|]; [|discriminate].
  pose proof (sendQuoteEmail_success (senderWorld w)
                (Config.getEmailRecipients (EMAIL_RECIPIENTS w))
                (subjectOf i) (EmailSender.text (formatEmail i qs))
                (EmailSender.html (formatEmail i qs)) s) as H.
  destruct (EmailSender.sendQuoteEmail (senderWorld w)
              (Some (Config.getEmailRecipients (EMAIL_RECIPIENTS w)))
              (subjectOf i) (EmailSender.text (formatEmail i qs))
              (EmailSender.html (formatEmail i qs)) s) as [[s' tr] [e|receipt]];
    [discriminate|].
  destruct (H receipt eq_refl) as (Hne & before & Htr & Hs).
  unfold result_of, trace_of in *. cbn [fst snd] in *. cbn.
  intros E. injection E as <-.
  split; [reflexivity|]. split; [exact Hne|].
  exists before, (mailTo s (Config.getEmailRecipients (EMAIL_RECIPIENTS w))
                    (subjectOf i) (EmailSender.text (formatEmail i qs))
                    (EmailSender.html (formatEmail i qs))).
  rewrite app_nil_r. repeat split; assumption.
Qed.

End RunFacts.

(** X27: a run of [processQuote] that reports success stands for exactly
    one submitted message: the report says success, counts one quote and
    the configured recipients, of which there is at least one; the message
    is the last call of the run, nothing was submitted before it, it is
    addressed to all configured recipients and its subject is
    [OWENSQUOTE: ] followed by the reported interview title. *)
Theorem reported_success_means_one_mail
        (P : Platform)
        (formatEmail : InterviewRecord -> list QuoteExtractor.QuoteResult
                       -> EmailSender.EmailContent)
        (w : World) (b : RickOwensQuoteBot.t) (r : RunResult) :
  result_of (processQuote P formatEmail w b) = inr (Some r) ->
  success r = true
  /\ quotes r = 1
  /\ recipients r = length (Config.getEmailRecipients (EMAIL_RECIPIENTS w))
  /\ 1 <= recipients r
  /\ exists before mail,
       trace_of (processQuote P formatEmail w b) = before ++ [SmtpSendMail mail]
       /\ sends before = 0
       /\ mail_to mail
          = EmailSender.join (Config.getEmailRecipients (EMAIL_RECIPIENTS w))
       /\ mail_subject mail = lit "OWENSQUOTE: " ++ interviewTitle r.
Proof.
  rewrite processQuote_steps.
  destruct (isRunning b); [discriminate|].
  pose proof (noSend_fetchInterview P w (setRunning true b)) as H1.
  destruct (fetchInterview P w (setRunning true b)) as [[b1 t1] [e|i]];
    [discriminate|].
  pose proof (noSend_fetchQuotes w i b1) as H2.
  pose proof (fetchQuotes_one w i b1) as Hq.
  destruct (fetchQuotes w i b1) as [[b2 t2] [e|qs]]; [discriminate|].
  pose proof (deliver_success formatEmail w i qs b2) as Hd.
  destruct (deliver formatEmail w i qs b2) as [[b3 t3] [e|rs]]; [discriminate|].
  unfold result_of, trace_of in *. cbn [fst snd] in *.
  intros E. injection E as <-.
  destruct (Hd rs eq_refl) as (Hrs & Hne & before & mail & Ht & Hs & Hto & Hsub & _).
  specialize (Hq qs eq_refl).
  unfold summary. cbn [success quotes recipients interviewTitle].
  split; [reflexivity|]. split; [exact Hq|]. split; [now rewrite Hrs|].
  split; [destruct rs; [congruence | cbn; lia]|].
  exists (t1 ++ t2 ++ before), mail.
  split; [rewrite Ht; now rewrite !app_assoc|].
  split; [rewrite !sends_app; lia|].
  split; [now rewrite <- Hrs | exact Hsub].
Qed.

Lemma reported_success_means_one_mail_witness :
  exists r,
    result_of (processQuote Fixtures.platform Fixtures.formatEmail
                 (Fixtures.world (Some (lit "  'Life is short.'  ")))
                 Fixtures.bot) = inr (Some r)
    /\ quotes r = 1.
Proof.
  eexists. split; [vm_compute; reflexivity|].
  destruct (reported_success_means_one_mail Fixtures.platform Fixtures.formatEmail
              (Fixtures.world (Some (lit "  'Life is short.'  ")))
              Fixtures.bot _ eq_refl) as (_ & H & _).
  exact H.
Defined.

Section FailedRunFacts.

Variable P : Platform.
Variable formatEmail :
  InterviewRecord -> list QuoteExtractor.QuoteResult -> EmailSender.EmailContent.

Lemma sendQuoteEmail_failure (w : EmailSender.World) (recipients : option (list str))
      (subject text html : str) (self : EmailSender.t) (e : exn) :
  result_of (EmailSender.sendQuoteEmail w recipients subject text html self) = inl e ->
  sends (trace_of (EmailSender.sendQuoteEmail w recipients subject text html self)) = 0
  \/ EmailSender.sendMail w = inl e.
Proof.
  destruct (EmailSender.noRecipients recipients) eqn:En.
  - rewrite (sendQuoteEmail_no_recipients w recipients subject text html self En).
    destruct (emptyRecipientsOutcome_never_sends w self) as [H0 _]. now left.
  - destruct recipients as [[|r rs]|]; try discriminate.
    destruct (EmailSender.transporter self) eqn:Et.
    + rewrite (sendQuoteEmail_ready w r rs subject text html self Et).
      unfold result_of. cbn [snd].
      destruct (EmailSender.sendMail w); [|discriminate].
      intros H. right. injection H as <-. reflexivity.
    + unfold EmailSender.sendQuoteEmail, bind, get, ret, call, throw.
      cbn -[EmailSender.init EmailSender.join]. rewrite Et, init_outcome.
      destruct (EmailSender.isConfigured self) eqn:Ec; [|now left].
      destruct (EmailSender.verify w); [now left|].
      cbn -[EmailSender.join].
      destruct (EmailSender.sendMail w); [|discriminate].
      intros H. right. injection H as <-. reflexivity.
Qed.

Lemma deliver_failure (w : World) (i : InterviewRecord)
      (qs : list QuoteExtractor.QuoteResult) (b : RickOwensQuoteBot.t) (e : exn) :
  result_of (deliver formatEmail w i qs b) = inl e ->
  sends (trace_of (deliver formatEmail w i qs b)) = 0
  \/ EmailSender.sendMail (senderWorld w) = inl e.
Proof.
  unfold deliver, bind, onSender.
  destruct (emailSender b) as [s|]; [|now left].
  pose proof (sendQuoteEmail_failure (senderWorld w)
                (Some (Config.getEmailRecipients (EMAIL_RECIPIENTS w)))
                (subjectOf i) (EmailSender.text (formatEmail i qs))
                (EmailSender.html (formatEmail i qs)) s) as H.
  destruct (EmailSender.sendQuoteEmail (senderWorld w)
              (Some (Config.getEmailRecipients (EMAIL_RECIPIENTS w)))
              (subjectOf i) (EmailSender.text (formatEmail i qs))
              (EmailSender.html (formatEmail i qs)) s) as [[s' tr] [e'|receipt]];
    [|discriminate].
  unfold result_of, trace_of in *. cbn [fst snd] in *.
  intros E. injection E as <-. now apply H.
Qed.

End FailedRunFacts.

(** X28: a run of [processQuote] that throws has either submitted nothing,
    or throws the very error with which the transport rejected the one
    message it submitted: no error after a submission is possible, and no
    failure of an earlier step is followed by a submission. *)
Theorem failed_run_submitted_nothing_or_was_rejected
        (P : Platform)
        (formatEmail : InterviewRecord -> list QuoteExtractor.QuoteResult
                       -> EmailSender.EmailContent)
        (w : World) (b : RickOwensQuoteBot.t) (e : exn) :
  result_of (processQuote P formatEmail w b) = inl e ->
  sends (trace_of (processQuote P formatEmail w b)) = 0
  \/ (EmailSender.sendMail (senderWorld w) = inl e
      /\ sends (trace_of (processQuote P formatEmail w b)) = 1).
Proof.
  intros H.
  destruct (processQuote_sends P formatEmail w b) as [Hle _].
  assert (Hor : sends (trace_of (processQuote P formatEmail w b)) = 0
                \/ EmailSender.sendMail (senderWorld w) = inl e).
  { revert H. rewrite processQuote_steps.
    destruct (isRunning b); [discriminate|].
    pose proof (noSend_fetchInterview P w (setRunning true b)) as H1.
    destruct (fetchInterview P w (setRunning true b)) as [[b1 t1] [e1|i]].
    { intros _. left. exact H1. }
    pose proof (noSend_fetchQuotes w i b1) as H2.
    destruct (fetchQuotes w i b1) as [[b2 t2] [e2|qs]].
    { intros _. left. unfold trace_of in *. cbn [fst snd] in *.
      rewrite sends_app. lia. }
    pose proof (deliver_failure formatEmail w i qs b2) as Hd.
    destruct (deliver formatEmail w i qs b2) as [[b3 t3] [e3|rs]]; [|discriminate].
    unfold result_of, trace_of in *. cbn [fst snd] in *.
    intros E. injection E as <-.
    destruct (Hd e3 eq_refl) as [H0|Hm]; [left | now right].
    rewrite !sends_app. lia. }
  destruct Hor as [H0|Hm]; [now left|].
  destruct (sends (trace_of (processQuote P formatEmail w b))) as [|[|n]];
    [now left | right; now split | lia].
Qed.

Lemma failed_run_submitted_nothing_or_was_rejected_witness :
  sends (trace_of (processQuote Fixtures.platform Fixtures.formatEmail
                                (Fixtures.world (Some (lit "ERROR_NO_QUOTE")))
                                Fixtures.bot)) = 0
  \/ (EmailSender.sendMail
        (senderWorld (Fixtures.world (Some (lit "ERROR_NO_QUOTE"))))
      = inl (Error "No meaningful quotes extracted")
      /\ sends (trace_of (processQuote Fixtures.platform Fixtures.formatEmail
                                       (Fixtures.world (Some (lit "ERROR_NO_QUOTE")))
                                       Fixtures.bot)) = 1).
Proof.
  apply (failed_run_submitted_nothing_or_was_rejected
           Fixtures.platform Fixtures.formatEmail
           (Fixtures.world (Some (lit "ERROR_NO_QUOTE"))) Fixtures.bot
           (Error "No meaningful quotes extracted")).
  vm_compute. reflexivity.
Defined.
